(** * The navigator tree state engine of [NavigatorCard.vue]

    A shallow embedding of the script part of
    [src/components/Navigator/NavigatorCard.vue]: the flat node store
    ([childrenMap]), the ancestry resolver ([activePathChildren],
    [activeUID]), the filter engine ([filterPattern], [filteredChildren]),
    the visible-set calculator ([generateNodesToRender]), the open-state
    tracker ([trackOpenNodes], [toggle], [toggleFullTree],
    [augmentRenderNodes]) and the persistence layer ([persistState],
    [restorePersistedState]).

    Conventions of the embedding.
    - A uid is a JavaScript number holding an integer: [Z].
    - A JavaScript object used as a dictionary keyed by uid is a [gmap Z _];
      the [openNodes] object, whose values are always [true], is the
      [gset Z] of its keys.
    - A [TypeError] raised by a property access on [undefined] is the
      outcome [Throws]; the [while] loops that follow uid links run on
      fuel, and [OutOfFuel] stands for a loop that has not finished.
    - An array worked on with [pop] and [push] keeps its end at the head
      of the list; one worked on with [shift] and [unshift] keeps its
      front there.
    - [scrollToElement], which only moves the scroller, is left out. *)

From Stdlib Require Import ZArith List Bool Ascii String Lia.
From stdpp Require Import base option list gmap sets strings sorting.

Open Scope Z_scope.
Open Scope string_scope.
Open Scope list_scope.

(** ** Outcomes of a method call *)

Inductive outcome (A : Type) : Type :=
| Done (a : A)
| Throws
| OutOfFuel.
Arguments Done {A} a.
Arguments Throws {A}.
Arguments OutOfFuel {A}.

#[global] Instance outcome_ret : MRet outcome := fun _ a => Done a.
#[global] Instance outcome_bind : MBind outcome := fun _ _ f m =>
  match m with
  | Done a => f a
  | Throws => Throws
  | OutOfFuel => OutOfFuel
  end.
#[global] Instance outcome_fmap : FMap outcome := fun _ _ f m =>
  match m with
  | Done a => Done (f a)
  | Throws => Throws
  | OutOfFuel => OutOfFuel
  end.

(** ** Constants of the module *)

Module TopicTypes.
(** [constants/TopicTypes]: the kinds a navigator node can have. *)
Inductive t : Set :=
| article | associatedtype | buildSetting | class | collection
| container | dictionarySymbol | enum | extension | func | groupMarker
| httpRequest | languageGroup | learn | macro | method | module
| op | overview | project | property | propertyListKey | protocol
| resources | sampleCode | section | struct | subscript | symbol
| tutorial | typealias | union | var.

#[global] Instance eq_dec : EqDecision t.
Proof. solve_decision. Defined.
End TopicTypes.

Module FILTER_TAGS.
Inductive t : Set := sampleCode | tutorials | articles.

#[global] Instance eq_dec : EqDecision t.
Proof. solve_decision. Defined.

(** The string each tag identifier is. *)
Definition name (tag : t) : string :=
  match tag with
  | sampleCode => "sampleCode"
  | tutorials => "tutorials"
  | articles => "articles"
  end.

(** The keys of the object, in insertion order. *)
Definition keys : list t := [sampleCode; tutorials; articles].
End FILTER_TAGS.

Definition FILTER_TAGS_TO_LABELS (tag : FILTER_TAGS.t) : string :=
  match tag with
  | FILTER_TAGS.sampleCode => "Sample Code"
  | FILTER_TAGS.tutorials => "Tutorials"
  | FILTER_TAGS.articles => "Articles"
  end.

(** [Object.values(FILTER_TAGS_TO_LABELS)]: values in key insertion order. *)
Definition FILTER_TAGS_TO_LABELS_values : list string :=
  map FILTER_TAGS_TO_LABELS FILTER_TAGS.keys.

(** What reading a property of an object built by [Object.fromEntries]
    gives: the value of an own entry, a member inherited from
    [Object.prototype] (such as [constructor] or [toString]) when no own
    entry has the name, and [undefined] otherwise. *)
Inductive PropertyRead (A : Type) : Type :=
| Own (a : A)
| Inherited
| Undefined.
Arguments Own {A} a.
Arguments Inherited {A}.
Arguments Undefined {A}.

Section Labels.
(** The names for which [Object.prototype] has a property in the running
    engine. *)
Variable Object_prototype_has : string -> bool.

(** [FILTER_LABELS_TO_TAGS[label]]: the own entries are the labels of
    the three tags; any other name is looked up in [Object.prototype]. *)
Definition FILTER_LABELS_TO_TAGS (label : string) : PropertyRead FILTER_TAGS.t :=
  match List.find (fun tag => String.eqb (FILTER_TAGS_TO_LABELS tag) label)
                  FILTER_TAGS.keys with
  | Some tag => Own tag
  | None => if Object_prototype_has label then Inherited else Undefined
  end.
End Labels.

(** [TOPIC_TYPE_TO_TAG[type]]; [None] is [undefined]. *)
Definition TOPIC_TYPE_TO_TAG (type : TopicTypes.t) : option FILTER_TAGS.t :=
  match type with
  | TopicTypes.article => Some FILTER_TAGS.articles
  | TopicTypes.learn => Some FILTER_TAGS.tutorials
  | TopicTypes.overview => Some FILTER_TAGS.tutorials
  | TopicTypes.resources => Some FILTER_TAGS.tutorials
  | TopicTypes.sampleCode => Some FILTER_TAGS.sampleCode
  | TopicTypes.section => Some FILTER_TAGS.tutorials
  | TopicTypes.tutorial => Some FILTER_TAGS.tutorials
  | TopicTypes.project => Some FILTER_TAGS.tutorials
  | _ => None
  end.

(** ** The flat node *)

(** The [parent] of a node: the sentinel [INDEX_ROOT_KEY] or a uid. *)
Inductive ParentKey : Set :=
| INDEX_ROOT_KEY
| ParentUID (u : Z).

#[global] Instance ParentKey_eq_dec : EqDecision ParentKey.
Proof. solve_decision. Defined.

(** [NavigatorFlatItem], with the fields the card reads. *)
Record NavigatorFlatItem : Type := mkItem {
  uid : Z;
  title : string;
  path : option string;
  type : TopicTypes.t;
  parent : ParentKey;
  childUIDs : list Z;
}.

#[global] Instance NavigatorFlatItem_eq_dec : EqDecision NavigatorFlatItem.
Proof. solve_decision. Defined.

(** Membership in an array or in a [Set] of node objects.  Two node
    objects of one flat collection with distinct uids are distinct
    records, so for collections with unique uids this is the identity
    test of [Set.prototype.has]. *)
Definition has (l : list NavigatorFlatItem) (n : NavigatorFlatItem) : bool :=
  bool_decide (n ∈ l).

(** [Object.fromEntries]: a later entry overrides an earlier one. *)
Definition fromEntries {V : Type} (entries : list (Z * V)) : gmap Z V :=
  foldl (fun m kv => <[kv.1 := kv.2]> m) ∅ entries.

(** [childrenMap({ children })]. *)
Definition childrenMap (children : list NavigatorFlatItem)
  : gmap Z NavigatorFlatItem :=
  fromEntries (map (fun child => (uid child, child)) children).

(** ** Walking the uid links *)

Section Walks.
Variable cm : gmap Z NavigatorFlatItem.

(** [getAllChildren(uid)]: [stack.shift()] takes the head,
    [stack.unshift(...obj.childUIDs)] puts the children in front. *)
Fixpoint getAllChildren_loop (fuel : nat) (stack : list Z)
         (arr : list NavigatorFlatItem) : outcome (list NavigatorFlatItem) :=
  match stack with
  | [] => Done arr
  | current :: stack' =>
      match fuel with
      | O => OutOfFuel
      | S fuel' =>
          match cm !! current with
          | None => Throws
          | Some obj =>
              getAllChildren_loop fuel' (childUIDs obj ++ stack') (arr ++ [obj])
          end
      end
  end.

Definition getAllChildren (fuel : nat) (u : Z) : outcome (list NavigatorFlatItem) :=
  getAllChildren_loop fuel [u] [].

(** The test [obj.parent && obj.parent !== INDEX_ROOT_KEY]: the number
    [0] is falsy. *)
Definition parent_to_follow (obj : NavigatorFlatItem) : option Z :=
  match parent obj with
  | INDEX_ROOT_KEY => None
  | ParentUID p => if Z.eqb p 0 then None else Some p
  end.

(** [getParents(uid)]: [stack.pop()], [arr.unshift(obj)],
    [stack.push(obj.parent)]. *)
Fixpoint getParents_loop (fuel : nat) (stack : list Z)
         (arr : list NavigatorFlatItem) : outcome (list NavigatorFlatItem) :=
  match stack with
  | [] => Done arr
  | current :: stack' =>
      match fuel with
      | O => OutOfFuel
      | S fuel' =>
          match cm !! current with
          | None => Throws
          | Some obj =>
              getParents_loop fuel'
                (match parent_to_follow obj with
                 | Some p => p :: stack'
                 | None => stack'
                 end)
                (obj :: arr)
          end
      end
  end.

Definition getParents (fuel : nat) (u : Z) : outcome (list NavigatorFlatItem) :=
  getParents_loop fuel [u] [].

(** [childrenStack.find(c => c.path === currentPath)] over an array
    that may hold [undefined] entries. *)
Fixpoint find_path (currentPath : string) (childrenStack : list (option NavigatorFlatItem))
  : outcome (option NavigatorFlatItem) :=
  match childrenStack with
  | [] => Done None
  | None :: _ => Throws
  | Some c :: rest =>
      if bool_decide (path c = Some currentPath) then Done (Some c)
      else find_path currentPath rest
  end.

(** The [while (stack.length)] loop of [activePathChildren]. *)
Fixpoint activePathChildren_loop (stack : list string)
         (childrenStack : list (option NavigatorFlatItem))
         (result : list NavigatorFlatItem) : outcome (list NavigatorFlatItem) :=
  match stack with
  | [] => Done result
  | currentPath :: stack' =>
      currentNode ← find_path currentPath childrenStack;
      match currentNode with
      | None => Done result
      | Some currentNode =>
          activePathChildren_loop stack'
            (match stack' with
             | [] => childrenStack
             | _ => map (fun c => cm !! c) (childUIDs currentNode)
             end)
            (result ++ [currentNode])
      end
  end.
End Walks.

(** [activePathChildren()]: the stack is [activePath.slice(0).reverse()],
    popped from its end. *)
Definition activePathChildren (children : list NavigatorFlatItem)
           (activePath : list string) : outcome (list NavigatorFlatItem) :=
  let stack := rev (rev activePath) in
  activePathChildren_loop (childrenMap children) stack (map Some children) [].

(** [activeUID({ activePathChildren })]; [None] is [undefined]. *)
Definition activeUID (activePathChildren : list NavigatorFlatItem) : option Z :=
  uid <$> last activePathChildren.

(** ** Regular expressions *)

(** A [RegExp] object, as far as [test] observes it. *)
Record RegExp : Type := mkRegExp {
  source : string;
  ignoreCase : bool;
  global : bool;
  lastIndex : nat;
}.

(** Whether the flag letter [c] occurs in the flags string. *)
Fixpoint has_flag (c : ascii) (flags : string) : bool :=
  match flags with
  | EmptyString => false
  | String d rest => if Ascii.eqb c d then true else has_flag c rest
  end.

(** [new RegExp(source, flags)]. *)
Definition RegExp_new (src flags : string) : RegExp :=
  {| source := src;
     ignoreCase := has_flag "i"%char flags;
     global := has_flag "g"%char flags;
     lastIndex := 0%nat |}.

(** JavaScript truthiness of a string. *)
Definition truthy (s : string) : bool :=
  match s with
  | EmptyString => false
  | String _ _ => true
  end.

(** ** The component *)

(** The session store behind [sessionStorage.get] / [sessionStorage.set],
    one field per entry of [STORAGE_KEYS]; [None] is an absent key. *)
Record SessionStorage : Type := mkStorage {
  navigator_filter : option string;
  navigator_technology : option string;
  navigator_openNodes : option (list Z);
  navigator_nodesToRender : option (list Z);
  navigator_selectedTags : option (list FILTER_TAGS.t);
}.

Record Props : Type := mkProps {
  technology : string;
  children : list NavigatorFlatItem;
  activePath : list string;
}.

(** The [data()] of the component together with the session store it
    writes to.  [filter_] is the [filter] field. *)
Record State : Type := mkState {
  filter_ : string;
  debouncedFilter : string;
  selectedTags : list FILTER_TAGS.t;
  openNodes : gset Z;
  nodesToRender : list NavigatorFlatItem;
  sessionStorage : SessionStorage;
}.

(** The state [data()] returns, over a given session store. *)
Definition data (storage : SessionStorage) : State :=
  {| filter_ := ""; debouncedFilter := ""; selectedTags := [];
     openNodes := ∅; nodesToRender := []; sessionStorage := storage |}.

Definition set_openNodes (o : gset Z) (st : State) : State :=
  {| filter_ := filter_ st; debouncedFilter := debouncedFilter st;
     selectedTags := selectedTags st; openNodes := o;
     nodesToRender := nodesToRender st; sessionStorage := sessionStorage st |}.

Definition set_nodesToRender (l : list NavigatorFlatItem) (st : State) : State :=
  {| filter_ := filter_ st; debouncedFilter := debouncedFilter st;
     selectedTags := selectedTags st; openNodes := openNodes st;
     nodesToRender := l; sessionStorage := sessionStorage st |}.

(** The value of the computed [nodeChangeDeps], as the watcher hands it
    to [trackOpenNodes].  [activePathChildren_id] is the identity of the
    array object the computed [activePathChildren] currently caches:
    [!==] on two arrays compares identities. *)
Record NodeChangeDeps : Type := mkDeps {
  deps_filteredChildren : list NavigatorFlatItem;
  deps_activePathChildren : list NavigatorFlatItem;
  activePathChildren_id : nat;
  deps_debouncedFilter : string;
  deps_selectedTags : list FILTER_TAGS.t;
}.

(** [availableTags({ selectedTags })]. *)
Definition availableTags (st : State) : list string :=
  match selectedTags st with
  | [] => FILTER_TAGS_TO_LABELS_values
  | _ :: _ => []
  end.

(** [hasFilter({ debouncedFilter, selectedTags })]. *)
Definition hasFilter (st : State) : bool :=
  negb (Nat.eqb (String.length (debouncedFilter st)) 0)
  || negb (Nat.eqb (length (selectedTags st)) 0).

(** [Object.keys(obj)] of an object whose keys are array indices:
    ascending numeric order. *)
Definition Object_keys (o : gset Z) : list Z := merge_sort Z.le (elements o).

(** [array.findIndex(pred)]: [-1] when no element satisfies [pred]. *)
Fixpoint findIndex {A : Type} (pred : A -> bool) (l : list A) : Z :=
  match l with
  | [] => -1
  | x :: rest =>
      if pred x then 0
      else let i := findIndex pred rest in if Z.ltb i 0 then -1 else i + 1
  end.

(** [array.splice(start, 0, ...items)] for [0 <= start]. *)
Definition splice {A : Type} (start : Z) (items l : list A) : list A :=
  take (Z.to_nat start) l ++ items ++ drop (Z.to_nat start) l.

(** Every entry of an array of lookups, or [None] when one is [undefined]. *)
Fixpoint all_defined {A : Type} (l : list (option A)) : option (list A) :=
  match l with
  | [] => Some []
  | None :: _ => None
  | Some x :: rest => cons x <$> all_defined rest
  end.

(** [persistState()]. *)
Definition persistState (props : Props) (st : State) : State :=
  {| filter_ := filter_ st; debouncedFilter := debouncedFilter st;
     selectedTags := selectedTags st; openNodes := openNodes st;
     nodesToRender := nodesToRender st;
     sessionStorage :=
       {| navigator_filter := navigator_filter (sessionStorage st);
          navigator_technology := Some (technology props);
          navigator_openNodes := Some (Object_keys (openNodes st));
          navigator_nodesToRender := Some (map uid (nodesToRender st));
          navigator_selectedTags := navigator_selectedTags (sessionStorage st) |} |}.

(** [augmentRenderNodes({ uid, include = [], exclude = [] })]. *)
Definition augmentRenderNodes (props : Props) (u : Z)
           (include exclude : list NavigatorFlatItem) (st : State) : State :=
  let index := findIndex (fun n => Z.eqb (uid n) u) (nodesToRender st) in
  let st' :=
    match include, exclude with
    | _ :: _, _ => set_nodesToRender (splice (index + 1) include (nodesToRender st)) st
    | [], _ :: _ =>
        set_nodesToRender
          (List.filter (fun item => negb (has exclude item)) (nodesToRender st)) st
    | [], [] => st
    end in
  persistState props st'.

(** [toggle(node)].  An [undefined] entry among the included children
    makes [persistState] throw on [({ uid }) => uid]; the call then ends
    in [Throws]. *)
Definition toggle (fuel : nat) (props : Props) (node : NavigatorFlatItem)
           (st : State) : outcome State :=
  let cm := childrenMap (children props) in
  if bool_decide (uid node ∈ openNodes st) then
    allChildren ← getAllChildren cm fuel (uid node);
    let st' := set_openNodes (openNodes st ∖ list_to_set (map uid allChildren)) st in
    Done (augmentRenderNodes props (uid node) [] (tail allChildren) st')
  else
    let st' := set_openNodes ({[uid node]} ∪ openNodes st) st in
    match all_defined (map (fun id => cm !! id) (childUIDs node)) with
    | None => Throws
    | Some include => Done (augmentRenderNodes props (uid node) include [] st')
    end.

(** [toggleFullTree(node)]. *)
Definition toggleFullTree (fuel : nat) (props : Props) (node : NavigatorFlatItem)
           (st : State) : outcome State :=
  let cm := childrenMap (children props) in
  let isOpen := bool_decide (uid node ∈ openNodes st) in
  allChildren ← getAllChildren cm fuel (uid node);
  let uids : gset Z := list_to_set (map uid allChildren) in
  let openNodes' := if isOpen then openNodes st ∖ uids else openNodes st ∪ uids in
  let exclude := if isOpen then tail allChildren else [] in
  let include := if isOpen then [] else tail allChildren in
  Done (augmentRenderNodes props (uid node) include exclude (set_openNodes openNodes' st)).

(** ** The parts that test titles against the filter pattern *)

Section Card.
(** The regular-expression matcher of the JavaScript engine:
    [regex_search source ignoreCase input start] is the end index of the
    leftmost match of the pattern in [input] at or after [start]. *)
Variable regex_search : string -> bool -> string -> nat -> option nat.

(** [safeHighlightPattern] of [utils/search-utils], which turns the
    filter text into the source of a pattern. *)
Variable safeHighlightPattern : string -> string.

(** [RegExp.prototype.test]: the result and the object afterwards.  A
    pattern with the [g] flag starts at its [lastIndex] and moves it; one
    without starts at [0] and stays as it is. *)
Definition RegExp_test (r : RegExp) (input : string) : bool * RegExp :=
  if global r then
    match regex_search (source r) (ignoreCase r) input (lastIndex r) with
    | Some e =>
        (true, {| source := source r; ignoreCase := ignoreCase r;
                  global := global r; lastIndex := e |})
    | None =>
        (false, {| source := source r; ignoreCase := ignoreCase r;
                   global := global r; lastIndex := 0%nat |})
    end
  else
    (bool_decide (is_Some (regex_search (source r) (ignoreCase r) input 0%nat)), r).

(** [filterPattern({ debouncedFilter })]; [None] is [null]. *)
Definition filterPattern (st : State) : option RegExp :=
  if negb (truthy (debouncedFilter st)) then None
  else Some (RegExp_new (safeHighlightPattern (debouncedFilter st)) "i").

(** The callback of [children.filter] in [filteredChildren], with the
    pattern object it tests and leaves behind. *)
Definition filterCallback (tags : list FILTER_TAGS.t) (pattern : option RegExp)
           (node : NavigatorFlatItem) : bool * option RegExp :=
  let '(titleMatch, pattern') :=
    match pattern with
    | Some r => let '(b, r') := RegExp_test r (title node) in (b, Some r')
    | None => (true, None)
    end in
  let tagMatch :=
    match tags with
    | _ :: _ =>
        match TOPIC_TYPE_TO_TAG (type node) with
        | Some tag => bool_decide (tag ∈ tags)
        | None => false
        end
    | [] => true
    end in
  (titleMatch && tagMatch
     && negb (bool_decide (type node = TopicTypes.groupMarker)), pattern').

(** [children.filter(callback)], the pattern object passing from one
    call of the callback to the next. *)
Fixpoint filter_with_pattern (tags : list FILTER_TAGS.t) (pattern : option RegExp)
         (l : list NavigatorFlatItem) : list NavigatorFlatItem * option RegExp :=
  match l with
  | [] => ([], pattern)
  | node :: rest =>
      let '(keep, pattern') := filterCallback tags pattern node in
      let '(kept, pattern'') := filter_with_pattern tags pattern' rest in
      (if keep then node :: kept else kept, pattern'')
  end.

(** [filteredChildren({ hasFilter, children, filterPattern, selectedTags })]. *)
Definition filteredChildren (props : Props) (st : State) : list NavigatorFlatItem :=
  if negb (hasFilter st) then []
  else fst (filter_with_pattern (selectedTags st) (filterPattern st) (children props)).

(** [nodeChangeDeps], the computed [activePathChildren] being the array
    object [id]. *)
Definition nodeChangeDeps (props : Props) (id : nat) (st : State)
  : outcome NodeChangeDeps :=
  apc ← activePathChildren (children props) (activePath props);
  Done {| deps_filteredChildren := filteredChildren props st;
          deps_activePathChildren := apc;
          activePathChildren_id := id;
          deps_debouncedFilter := debouncedFilter st;
          deps_selectedTags := selectedTags st |}.

(** The filter of [generateNodesToRender], given the two sets. *)
Definition shouldRender (cm : gmap Z NavigatorFlatItem) (hasFilter : bool)
           (openNodes : gset Z)
           (allChildMatchesSet filteredChildrenSet : list NavigatorFlatItem)
           (child : NavigatorFlatItem) : bool :=
  let parent_open :=
    match parent child with
    | INDEX_ROOT_KEY => false
    | ParentUID p => bool_decide (p ∈ openNodes)
    end in
  if negb hasFilter then
    bool_decide (parent child = INDEX_ROOT_KEY) || parent_open
  else
    (bool_decide (parent child = INDEX_ROOT_KEY) && has allChildMatchesSet child)
    || (parent_open
        && match parent child with
           | INDEX_ROOT_KEY => false
           | ParentUID p =>
               match cm !! p with
               | Some obj => has filteredChildrenSet obj
               | None => false
               end
           end)
    || has allChildMatchesSet child.

(** [generateNodesToRender()]. *)
Definition generateNodesToRender (fuel : nat) (props : Props) (st : State)
  : outcome State :=
  let cm := childrenMap (children props) in
  let filtered := filteredChildren props st in
  parents ← mapM (fun n => getParents cm fuel (uid n)) filtered;
  let allChildMatchesSet := concat parents in
  let nodes :=
    List.filter
      (shouldRender cm (hasFilter st) (openNodes st) allChildMatchesSet filtered)
      (children props) in
  Done (persistState props (set_nodesToRender nodes st)).

(** [array.join()] on a list of tag identifiers. *)
Definition join (tags : list FILTER_TAGS.t) : string :=
  String.concat "," (map FILTER_TAGS.name tags).

(** The condition under which [trackOpenNodes] returns at once. *)
Definition skipTracking (deps : NodeChangeDeps) (before : option NodeChangeDeps)
           (st : State) : bool :=
  let filterBefore := deps_debouncedFilter <$> before in
  let selectedTagsBefore := default [] (deps_selectedTags <$> before) in
  (negb (bool_decide (Some (deps_debouncedFilter deps) = filterBefore))
   && negb (truthy (default "" filterBefore))
   && truthy (default "" (navigator_filter (sessionStorage st))))
  || (negb (String.eqb (join (deps_selectedTags deps)) (join selectedTagsBefore))
      && Nat.eqb (length selectedTagsBefore) 0
      && negb (Nat.eqb
                 (length (default [] (navigator_selectedTags (sessionStorage st)))) 0)).

(** [activePathChildrenBefore !== activePathChildren]. *)
Definition pageChange (deps : NodeChangeDeps) (before : option NodeChangeDeps) : bool :=
  match before with
  | None => true
  | Some b => negb (Nat.eqb (activePathChildren_id b) (activePathChildren_id deps))
  end.

(** [array.slice(0, -1)]. *)
Definition slice_0_m1 {A : Type} (l : list A) : list A := removelast l.

(** [trackOpenNodes(deps, before)]. *)
Definition trackOpenNodes (fuel : nat) (props : Props) (deps : NodeChangeDeps)
           (before : option NodeChangeDeps) (st : State) : outcome State :=
  let cm := childrenMap (children props) in
  if skipTracking deps before st then Done st
  else
    nodes ← (if negb (hasFilter st) then Done (deps_activePathChildren deps)
             else (fun parents => concat parents)
                    <$> mapM (fun n => slice_0_m1 <$> getParents cm fuel (uid n))
                             (deps_filteredChildren deps));
    let newOpenNodes : gset Z := list_to_set (map uid nodes) in
    let st' :=
      set_openNodes
        ((if pageChange deps before then openNodes st else ∅) ∪ newOpenNodes) st in
    generateNodesToRender fuel props st'.

(** [restorePersistedState()], called from [created()]. *)
Definition restorePersistedState (fuel : nat) (props : Props) (id : nat) (st : State)
  : outcome State :=
  let cm := childrenMap (children props) in
  let storage := sessionStorage st in
  let technology' := navigator_technology storage in
  let nodesToRender' := default [] (navigator_nodesToRender storage) in
  let filter' := default "" (navigator_filter storage) in
  if Nat.eqb (length nodesToRender') 0 && negb (truthy filter') then
    deps ← nodeChangeDeps props id st;
    trackOpenNodes fuel props deps None st
  else
    let allNodesMatch :=
      forallb (fun u => bool_decide (is_Some (cm !! u))) nodesToRender' in
    if negb (bool_decide (technology' = Some (technology props)))
       || negb allNodesMatch then
      deps ← nodeChangeDeps props id st;
      trackOpenNodes fuel props deps None st
    else
      let openNodes' := default [] (navigator_openNodes storage) in
      Done {| filter_ := filter';
              debouncedFilter := filter';
              selectedTags := default [] (navigator_selectedTags storage);
              openNodes := list_to_set openNodes';
              nodesToRender := omap (fun u => cm !! u) nodesToRender';
              sessionStorage := storage |}.
End Card.

(** ** The technology tree and the flat-tree invariants *)

(** Modelled from the spec: the step that normalizes the hierarchical
    technology tree into the flat node list handed to the card as
    [children] lives outside this component.  Its result lists the nodes
    in document order (a parent before its children, siblings in declared
    order), every node carrying its parent's uid and the uids of its
    children in declared order. *)
Unset Elimination Schemes.
Inductive NavigatorTree : Type :=
| NavigatorNode (u : Z) (t : string) (p : option string) (k : TopicTypes.t)
                (kids : list NavigatorTree).
Set Elimination Schemes.

Definition root_uid (t : NavigatorTree) : Z :=
  match t with NavigatorNode u _ _ _ _ => u end.

Definition subforest (t : NavigatorTree) : list NavigatorTree :=
  match t with NavigatorNode _ _ _ _ kids => kids end.

(** The flat item of the root of [t], under the parent [par]. *)
Definition item (par : ParentKey) (t : NavigatorTree) : NavigatorFlatItem :=
  match t with
  | NavigatorNode u ti p k kids =>
      {| uid := u; title := ti; path := p; type := k; parent := par;
         childUIDs := map root_uid kids |}
  end.

Fixpoint flatten (par : ParentKey) (t : NavigatorTree) : list NavigatorFlatItem :=
  match t with
  | NavigatorNode u ti p k kids =>
      {| uid := u; title := ti; path := p; type := k; parent := par;
         childUIDs := map root_uid kids |}
        :: flat_map (flatten (ParentUID u)) kids
  end.

Definition flattenForest (par : ParentKey) (forest : list NavigatorTree)
  : list NavigatorFlatItem :=
  flat_map (flatten par) forest.

(** The invariants of the flat collection: it is the flattening of a
    forest under the root key, and uids are unique. *)
Definition flat_tree_invariants (forest : list NavigatorTree)
           (children : list NavigatorFlatItem) : Prop :=
  children = flattenForest INDEX_ROOT_KEY forest /\ NoDup (map uid children).

(** ** Notions the statements use *)

(** The unfiltered rule of the visible set: the parent is the root key or
    an open node. *)
Definition renderable (open : gset Z) (c : NavigatorFlatItem) : bool :=
  match parent c with
  | INDEX_ROOT_KEY => true
  | ParentUID p => bool_decide (p ∈ open)
  end.

(** Every open node of the collection has the root key or an open node as
    its parent. *)
Definition ancestor_closed (children : list NavigatorFlatItem) (open : gset Z) : bool :=
  forallb (fun c => implb (bool_decide (uid c ∈ open)) (renderable open c)) children.

(** No node hanging under [node] is open. *)
Definition no_open_child (children : list NavigatorFlatItem) (open : gset Z)
           (node : NavigatorFlatItem) : bool :=
  forallb (fun c => implb (bool_decide (parent c = ParentUID (uid node)))
                          (negb (bool_decide (uid c ∈ open))))
          children.

(** Every uid of [openNodes] is a key of the flat node store. *)
Definition open_nodes_known (props : Props) (st : State) : Prop :=
  set_Forall (fun u => is_Some (childrenMap (children props) !! u)) (openNodes st).

(** [a] lies on the parent chain of [n], [n] included. *)
Inductive ancestor_or_self (cm : gmap Z NavigatorFlatItem)
  : NavigatorFlatItem -> NavigatorFlatItem -> Prop :=
| aos_self n : ancestor_or_self cm n n
| aos_parent a n p m :
    parent n = ParentUID p -> cm !! p = Some m ->
    ancestor_or_self cm a m -> ancestor_or_self cm a n.

(** The resolver as the specification words it: search the candidates
    for the segment; stop with what is resolved so far when there is
    none; otherwise go on below the node found. *)
Fixpoint resolve (cm : gmap Z NavigatorFlatItem) (segments : list string)
         (candidates : list NavigatorFlatItem) : list NavigatorFlatItem :=
  match segments with
  | [] => []
  | segment :: rest =>
      match List.find (fun c => bool_decide (path c = Some segment)) candidates with
      | None => []
      | Some node => node :: resolve cm rest (omap (fun u => cm !! u) (childUIDs node))
      end
  end.

(** Every uid listed in a [childUIDs] is a key of the flat node store. *)
Definition childUIDs_resolve (children : list NavigatorFlatItem) : bool :=
  forallb
    (fun n => forallb (fun u => bool_decide (is_Some (childrenMap children !! u)))
                      (childUIDs n))
    children.

(** No node has the falsy number [0] as its parent key. *)
Definition no_falsy_parent (children : list NavigatorFlatItem) : bool :=
  forallb (fun n => negb (bool_decide (parent n = ParentUID 0))) children.

(** How [getParents] goes on above a node whose parent key is [par]. *)
Definition getParents_above (cm : gmap Z NavigatorFlatItem) (par : ParentKey)
           (fuel : nat) (arr : list NavigatorFlatItem)
  : outcome (list NavigatorFlatItem) :=
  match par with
  | INDEX_ROOT_KEY => Done arr
  | ParentUID p => if Z.eqb p 0 then Done arr else getParents_loop cm fuel [p] arr
  end.

(** The top-level children: the nodes whose parent is the root key. *)
Definition topLevel (children : list NavigatorFlatItem) : list NavigatorFlatItem :=
  List.filter (fun c => bool_decide (parent c = INDEX_ROOT_KEY)) children.

(** User gestures on a rendered item. *)
Inductive Gesture : Type :=
| Toggle (node : NavigatorFlatItem)
| ToggleFull (node : NavigatorFlatItem).

Definition gesture_node (g : Gesture) : NavigatorFlatItem :=
  match g with Toggle n => n | ToggleFull n => n end.

Definition perform (fuel : nat) (props : Props) (g : Gesture) (st : State)
  : outcome State :=
  match g with
  | Toggle n => toggle fuel props n st
  | ToggleFull n => toggleFullTree fuel props n st
  end.

Fixpoint perform_all (fuel : nat) (props : Props) (gs : list Gesture) (st : State)
  : outcome State :=
  match gs with
  | [] => Done st
  | g :: rest => st' ← perform fuel props g st; perform_all fuel props rest st'
  end.

(** Each gesture of the sequence is made on an item that is rendered when
    the gesture is made. *)
Fixpoint on_rendered (fuel : nat) (props : Props) (gs : list Gesture) (st : State)
  : bool :=
  match gs with
  | [] => true
  | g :: rest =>
      has (nodesToRender st) (gesture_node g)
      && match perform fuel props g st with
         | Done st' => on_rendered fuel props rest st'
         | _ => true
         end
  end.

(** The list a full recompute yields in the state [st]. *)
Definition recompute (regex_search : string -> bool -> string -> nat -> option nat)
           (safeHighlightPattern : string -> string)
           (fuel : nat) (props : Props) (st : State)
  : outcome (list NavigatorFlatItem) :=
  nodesToRender <$> generateNodesToRender regex_search safeHighlightPattern fuel props st.

(** An unfiltered state whose rendered list is what a recompute yields
    and whose open nodes are closed under parents. *)
Definition in_sync (regex_search : string -> bool -> string -> nat -> option nat)
           (safeHighlightPattern : string -> string)
           (fuel : nat) (props : Props) (st : State) : Prop :=
  hasFilter st = false
  /\ ancestor_closed (children props) (openNodes st) = true
  /\ recompute regex_search safeHighlightPattern fuel props st
     = Done (nodesToRender st).

(** The persisted snapshot is taken over on mount: there is something in
    it (rendered uids or a filter text), it was written for the current
    technology, and every rendered uid is a key of the flat node store. *)
Definition snapshot_usable (props : Props) (storage : SessionStorage) : bool :=
  (negb (Nat.eqb (length (default [] (navigator_nodesToRender storage))) 0)
   || truthy (default "" (navigator_filter storage)))
  && bool_decide (navigator_technology storage = Some (technology props))
  && forallb (fun u => bool_decide (is_Some (childrenMap (children props) !! u)))
             (default [] (navigator_nodesToRender storage)).

(** ** Sample data *)

Module Sample.
(** The tree of the scenarios: top-level [A] and [B], and [C] below [B]. *)
Definition A : NavigatorFlatItem :=
  mkItem 1 "A" (Some "/a") TopicTypes.class INDEX_ROOT_KEY [].
Definition B : NavigatorFlatItem :=
  mkItem 2 "B" (Some "/b") TopicTypes.class INDEX_ROOT_KEY [3].
Definition C : NavigatorFlatItem :=
  mkItem 3 "C" (Some "/b/c") TopicTypes.article (ParentUID 2) [].

Definition forest : list NavigatorTree :=
  [ NavigatorNode 1 "A" (Some "/a") TopicTypes.class [];
    NavigatorNode 2 "B" (Some "/b") TopicTypes.class
      [ NavigatorNode 3 "C" (Some "/b/c") TopicTypes.article [] ] ].

Definition props : Props :=
  {| technology := "Tech"; children := [A; B; C]; activePath := ["/b"; "/b/c"] |}.

Definition emptyStorage : SessionStorage := mkStorage None None None None None.

(** An engine that matches nothing and an identity escape, for runs in
    which no pattern is built. *)
Definition no_match : string -> bool -> string -> nat -> option nat :=
  fun _ _ _ _ => None.
Definition as_is : string -> string := fun s => s.

(** The state after mounting over an empty session store: the active
    path resolves to [C]. *)
Definition mounted : State :=
  {| filter_ := ""; debouncedFilter := ""; selectedTags := [];
     openNodes := {[2; 3]}; nodesToRender := [A; B; C];
     sessionStorage :=
       {| navigator_filter := None; navigator_technology := Some "Tech";
          navigator_openNodes := Some [2; 3];
          navigator_nodesToRender := Some [1; 2; 3];
          navigator_selectedTags := None |} |}.

(** An unfiltered state in which only [B] is open. *)
Definition onlyB : State :=
  {| filter_ := ""; debouncedFilter := ""; selectedTags := [];
     openNodes := {[2]}; nodesToRender := [A; B; C];
     sessionStorage := emptyStorage |}.

(** The mounted state once the tag Articles has been selected, before
    the watchers have run. *)
Definition articlesSelected : State :=
  {| filter_ := ""; debouncedFilter := ""; selectedTags := [FILTER_TAGS.articles];
     openNodes := openNodes mounted; nodesToRender := nodesToRender mounted;
     sessionStorage := sessionStorage mounted |}.

(** The dependencies of the tracker for [props], before and after a
    navigation that ends on the same page. *)
Definition depsBefore : NodeChangeDeps :=
  {| deps_filteredChildren := []; deps_activePathChildren := [B; C];
     activePathChildren_id := 0; deps_debouncedFilter := "";
     deps_selectedTags := [] |}.
Definition depsAfter : NodeChangeDeps :=
  {| deps_filteredChildren := []; deps_activePathChildren := [B; C];
     activePathChildren_id := 1; deps_debouncedFilter := "";
     deps_selectedTags := [] |}.

(** A snapshot of this technology with rendered uids. *)
Definition snapshot : SessionStorage :=
  {| navigator_filter := None; navigator_technology := Some "Tech";
     navigator_openNodes := Some [2];
     navigator_nodesToRender := Some [1; 2; 3];
     navigator_selectedTags := None |}.

(** A snapshot of this technology without rendered uids and without a
    filter text. *)
Definition emptySnapshot : SessionStorage :=
  {| navigator_filter := None; navigator_technology := Some "Tech";
     navigator_openNodes := Some [1];
     navigator_nodesToRender := Some [];
     navigator_selectedTags := None |}.

(** A snapshot of this technology whose open nodes name a uid that the
    collection does not have. *)
Definition staleOpenNodes : SessionStorage :=
  {| navigator_filter := None; navigator_technology := Some "Tech";
     navigator_openNodes := Some [99];
     navigator_nodesToRender := Some [1];
     navigator_selectedTags := None |}.

(** A snapshot written for another technology, with a filter text. *)
Definition otherTechnology : SessionStorage :=
  {| navigator_filter := Some "abc"; navigator_technology := Some "Other";
     navigator_openNodes := Some [1];
     navigator_nodesToRender := Some [1];
     navigator_selectedTags := None |}.
End Sample.

Module Family.
(** An article [P] with an article [M] and a class [N] below it. *)
Definition P : NavigatorFlatItem :=
  mkItem 1 "P" (Some "/p") TopicTypes.article INDEX_ROOT_KEY [2; 3].
Definition M : NavigatorFlatItem :=
  mkItem 2 "M" (Some "/p/m") TopicTypes.article (ParentUID 1) [].
Definition N : NavigatorFlatItem :=
  mkItem 3 "N" (Some "/p/n") TopicTypes.class (ParentUID 1) [].

Definition props : Props :=
  {| technology := "Tech"; children := [P; M; N]; activePath := [] |}.

(** The state after mounting over an empty session store, with no
    active path. *)
Definition mounted : State :=
  {| filter_ := ""; debouncedFilter := ""; selectedTags := [];
     openNodes := ∅; nodesToRender := [P];
     sessionStorage :=
       {| navigator_filter := None; navigator_technology := Some "Tech";
          navigator_openNodes := Some [];
          navigator_nodesToRender := Some [1];
          navigator_selectedTags := None |} |}.

(** The mounted state once the tag Articles has been selected, before
    the watchers have run. *)
Definition articlesSelected : State :=
  {| filter_ := ""; debouncedFilter := ""; selectedTags := [FILTER_TAGS.articles];
     openNodes := openNodes mounted; nodesToRender := nodesToRender mounted;
     sessionStorage := sessionStorage mounted |}.

(** The dependencies of the tracker before the selection. *)
Definition depsBefore : NodeChangeDeps :=
  {| deps_filteredChildren := []; deps_activePathChildren := [];
     activePathChildren_id := 0; deps_debouncedFilter := "";
     deps_selectedTags := [] |}.
End Family.

Module Zero.
(** A class [Z] with uid [0] and an article [K] below it. *)
Definition Z0 : NavigatorFlatItem :=
  mkItem 0 "Z" (Some "/z") TopicTypes.class INDEX_ROOT_KEY [1].
Definition K : NavigatorFlatItem :=
  mkItem 1 "K" (Some "/z/k") TopicTypes.article (ParentUID 0) [].

Definition props : Props :=
  {| technology := "Tech"; children := [Z0; K]; activePath := [] |}.

Definition articlesSelected : State :=
  {| filter_ := ""; debouncedFilter := ""; selectedTags := [FILTER_TAGS.articles];
     openNodes := ∅; nodesToRender := [Z0]; sessionStorage := Sample.emptyStorage |}.
End Zero.

(** ** More of the component *)

(** The getter of [selectedTagsModelValue]: the labels of the selected tags. *)
Definition selectedTagsModelValue_get (st : State) : list string :=
  map FILTER_TAGS_TO_LABELS (selectedTags st).

(** The setter of [selectedTagsModelValue]: the array it assigns to
    [selectedTags], one read of [FILTER_LABELS_TO_TAGS] per value.  The
    array is a list of tags, which [State] holds, when every read gives
    an own entry. *)
Definition selectedTagsModelValue_set (Object_prototype_has : string -> bool)
           (values : list string) : list (PropertyRead FILTER_TAGS.t) :=
  map (FILTER_LABELS_TO_TAGS Object_prototype_has) values.

(** [activePathMap({ activePathChildren })], an object whose values are
    all [true]: the set of its keys.  An item is bold when its uid is a
    key. *)
Definition activePathMap (activePathChildren : list NavigatorFlatItem) : gset Z :=
  list_to_set (map uid activePathChildren).

(** [clearFilters()]. *)
Definition clearFilters (st : State) : State :=
  {| filter_ := ""; debouncedFilter := ""; selectedTags := [];
     openNodes := openNodes st; nodesToRender := nodesToRender st;
     sessionStorage := sessionStorage st |}.

(** The watcher [debouncedFilter(value)]. *)
Definition watch_debouncedFilter (value : string) (st : State) : State :=
  {| filter_ := filter_ st; debouncedFilter := debouncedFilter st;
     selectedTags := selectedTags st; openNodes := openNodes st;
     nodesToRender := nodesToRender st;
     sessionStorage :=
       {| navigator_filter := Some value;
          navigator_technology := navigator_technology (sessionStorage st);
          navigator_openNodes := navigator_openNodes (sessionStorage st);
          navigator_nodesToRender := navigator_nodesToRender (sessionStorage st);
          navigator_selectedTags := navigator_selectedTags (sessionStorage st) |} |}.

(** The watcher [selectedTags(value)]. *)
Definition watch_selectedTags (value : list FILTER_TAGS.t) (st : State) : State :=
  {| filter_ := filter_ st; debouncedFilter := debouncedFilter st;
     selectedTags := selectedTags st; openNodes := openNodes st;
     nodesToRender := nodesToRender st;
     sessionStorage :=
       {| navigator_filter := navigator_filter (sessionStorage st);
          navigator_technology := navigator_technology (sessionStorage st);
          navigator_openNodes := navigator_openNodes (sessionStorage st);
          navigator_nodesToRender := navigator_nodesToRender (sessionStorage st);
          navigator_selectedTags := Some value |} |}.

(** The index [scrollToElement] computes from the state it finds once
    [waitFrames(1)] has passed; [activeUID] is [None] when undefined, and
    no uid equals [undefined].  The scroller is moved when the index is
    not [-1]. *)
Definition scrollToElement_index (st : State) (activeUID : option Z) : Z :=
  if hasFilter st then 0
  else findIndex (fun child => bool_decide (Some (uid child) = activeUID))
                 (nodesToRender st).

Section Mount.
Variable regex_search : string -> bool -> string -> nat -> option nat.
Variable safeHighlightPattern : string -> string.

(** The state one frame after [created()] has taken a snapshot over.
    The restore assigns a new array to [selectedTags], so the watcher of
    [nodeChangeDeps] runs [trackOpenNodes] before the frame has passed:
    with the dependencies computed when the watcher was set up, before
    [created()], as the old ones, those of the restored state as the new
    ones, and the same [activePathChildren] array in both.  The two
    watchers that write the filter text and the tags to the session store
    run after it; they change no field that is read here. *)
Definition restored_then_tracked (fuel : nat) (props : Props) (id : nat)
           (storage : SessionStorage) : outcome State :=
  before ← nodeChangeDeps regex_search safeHighlightPattern props id (data storage);
  st ← restorePersistedState regex_search safeHighlightPattern fuel props id
         (data storage);
  deps ← nodeChangeDeps regex_search safeHighlightPattern props id st;
  trackOpenNodes regex_search safeHighlightPattern fuel props deps (Some before) st.

(** [scrollToElement()] as [restorePersistedState] calls it, at the end
    of a restore that takes the snapshot over: the index it computes. *)
Definition scrollToElement (fuel : nat) (props : Props) (id : nat)
           (storage : SessionStorage) : outcome Z :=
  st ← restored_then_tracked fuel props id storage;
  apc ← activePathChildren (children props) (activePath props);
  Done (scrollToElement_index st (activeUID apc)).
End Mount.

(** The text of the [no-items-wrapper] of the template; [None] when the
    wrapper is not rendered. *)
Definition noItemsMessage (errorFetching : bool) (st : State) : option string :=
  match nodesToRender st with
  | _ :: _ => None
  | [] =>
      Some (if hasFilter st then "No results matching your filter"
            else if errorFetching then "There was an error fetching the data"
            else "Technology has no children")
  end.

(** ** The item component *)

(** [isParent] of [NavigatorCardItem], [!!item.childUIDs.length]: the
    toggle button and its hidden label, which announces
    [item.childUIDs.length] symbols to be expanded, are rendered for such
    an item only. *)
Definition isParent (item : NavigatorFlatItem) : bool :=
  negb (Nat.eqb (length (childUIDs item)) 0).

(** ** More notions the statements use *)

(** Each node of the list hangs under the one before it. *)
Inductive linked : list NavigatorFlatItem -> Prop :=
| linked_nil : linked []
| linked_one x : linked [x]
| linked_cons x y l :
    parent y = ParentUID (uid x) -> linked (y :: l) -> linked (x :: y :: l).

(** The session store once [persistState] and the two watchers that
    write the filter text and the tags have run. *)
Definition persisted (props : Props) (st : State) : SessionStorage :=
  sessionStorage
    (watch_selectedTags (selectedTags st)
       (watch_debouncedFilter (debouncedFilter st) (persistState props st))).

(** ** More sample data *)

Module Folded.
(** The unfiltered state of the sample tree in which nothing is open. *)
Definition state : State :=
  {| filter_ := ""; debouncedFilter := ""; selectedTags := [];
     openNodes := ∅; nodesToRender := [Sample.A; Sample.B];
     sessionStorage := Sample.emptyStorage |}.

(** A snapshot of the sample technology, written while the tag Articles
    was selected and [B] was open. *)
Definition taggedSnapshot : SessionStorage :=
  {| navigator_filter := None; navigator_technology := Some "Tech";
     navigator_openNodes := Some [2];
     navigator_nodesToRender := Some [2; 3];
     navigator_selectedTags := Some [FILTER_TAGS.articles] |}.

(** The state taken over from it on mount, and the dependencies of the
    tracker in that state. *)
Definition restoredTagged : State :=
  {| filter_ := ""; debouncedFilter := ""; selectedTags := [FILTER_TAGS.articles];
     openNodes := list_to_set [2]; nodesToRender := [Sample.B; Sample.C];
     sessionStorage := taggedSnapshot |}.
Definition depsTagged : NodeChangeDeps :=
  {| deps_filteredChildren := [Sample.C];
     deps_activePathChildren := [Sample.B; Sample.C];
     activePathChildren_id := 0; deps_debouncedFilter := "";
     deps_selectedTags := [FILTER_TAGS.articles] |}.

(** The sample technology on the page of [A], and the dependencies of
    the tracker there while the tag Articles is selected. *)
Definition propsAtA : Props :=
  {| technology := "Tech"; children := [Sample.A; Sample.B; Sample.C];
     activePath := ["/a"] |}.
Definition depsAtA : NodeChangeDeps :=
  {| deps_filteredChildren := [Sample.C];
     deps_activePathChildren := [Sample.A];
     activePathChildren_id := 1; deps_debouncedFilter := "";
     deps_selectedTags := [FILTER_TAGS.articles] |}.
End Folded.

Module Mixed.
(** A tutorial [T], an article [R] and a class [G], all top-level. *)
Definition T : NavigatorFlatItem :=
  mkItem 1 "T" (Some "/t") TopicTypes.tutorial INDEX_ROOT_KEY [].
Definition R : NavigatorFlatItem :=
  mkItem 2 "R" (Some "/r") TopicTypes.article INDEX_ROOT_KEY [].
Definition G : NavigatorFlatItem :=
  mkItem 3 "G" (Some "/g") TopicTypes.class INDEX_ROOT_KEY [].

Definition props : Props :=
  {| technology := "Tech"; children := [T; R; G]; activePath := [] |}.

(** A snapshot written while the tags Articles and Tutorials were both
    selected. *)
Definition snapshot : SessionStorage :=
  {| navigator_filter := None; navigator_technology := Some "Tech";
     navigator_openNodes := Some [];
     navigator_nodesToRender := Some [1; 2];
     navigator_selectedTags := Some [FILTER_TAGS.articles; FILTER_TAGS.tutorials] |}.

(** The names of the properties of [Object.prototype]. *)
Definition Object_prototype_has (name : string) : bool :=
  bool_decide
    (name ∈ ["constructor"; "hasOwnProperty"; "isPrototypeOf";
             "propertyIsEnumerable"; "toLocaleString"; "toString"; "valueOf";
             "__proto__"; "__defineGetter__"; "__defineSetter__";
             "__lookupGetter__"; "__lookupSetter__"]).
End Mixed.

(** * Properties *)

(** ** The flat node store *)

Lemma childrenMap_snoc (l : list NavigatorFlatItem) (c : NavigatorFlatItem) :
  childrenMap (l ++ [c]) = <[uid c := c]> (childrenMap l).
Proof.
  unfold childrenMap, fromEntries. by rewrite map_app, foldl_app.
Qed.

Lemma childrenMap_nil : childrenMap [] = ∅.
Proof. reflexivity. Qed.

(** A value of the store is a node of the collection, filed under its uid. *)
Lemma childrenMap_lookup_Some (l : list NavigatorFlatItem) (u : Z) (n : NavigatorFlatItem) :
  childrenMap l !! u = Some n -> n ∈ l /\ uid n = u.
Proof.
  induction l as [|c l IH] using rev_ind.
  - rewrite childrenMap_nil, lookup_empty. discriminate.
  - rewrite childrenMap_snoc. destruct (decide (uid c = u)) as [<-|Hne].
    + rewrite lookup_insert_eq. intros [= <-]. split; [|done].
      apply elem_of_app. right. by apply list_elem_of_singleton.
    + rewrite lookup_insert_ne by done. intros H. destruct (IH H) as [Hin Hu].
      split; [|done]. apply elem_of_app. by left.
Qed.

Lemma childrenMap_is_Some (l : list NavigatorFlatItem) (u : Z) :
  is_Some (childrenMap l !! u) <-> u ∈ map uid l.
Proof.
  induction l as [|c l IH] using rev_ind.
  - rewrite childrenMap_nil, lookup_empty. split.
    + intros [? ?]. discriminate.
    + intros H. by apply elem_of_nil in H.
  - rewrite childrenMap_snoc, map_app, elem_of_app. simpl.
    rewrite list_elem_of_singleton.
    destruct (decide (uid c = u)) as [<-|Hne].
    + rewrite lookup_insert_eq. split; [by right | by eexists].
    + rewrite lookup_insert_ne by done. rewrite IH. split; [by left|].
      intros [H|H]; [done | congruence].
Qed.

(** With unique uids every node is found under its own uid. *)
Lemma childrenMap_lookup_NoDup (l : list NavigatorFlatItem) (n : NavigatorFlatItem) :
  NoDup (map uid l) -> n ∈ l -> childrenMap l !! uid n = Some n.
Proof.
  induction l as [|c l IH] using rev_ind; intros Hnd Hin.
  - by apply elem_of_nil in Hin.
  - rewrite childrenMap_snoc. rewrite map_app in Hnd.
    apply NoDup_app in Hnd as (Hnd & Hdisj & _).
    apply elem_of_app in Hin as [Hin|Hin].
    + rewrite lookup_insert_ne; [by apply IH|].
      intros Heq. apply (Hdisj (uid n)).
      * by apply list_elem_of_fmap_2.
      * simpl. rewrite Heq. by apply list_elem_of_singleton.
    + apply list_elem_of_singleton in Hin as ->. by rewrite lookup_insert_eq.
Qed.

(** Nodes of a collection with unique uids are told apart by their uid. *)
Lemma uid_inj_NoDup (l : list NavigatorFlatItem) (a b : NavigatorFlatItem) :
  NoDup (map uid l) -> a ∈ l -> b ∈ l -> uid a = uid b -> a = b.
Proof.
  intros Hnd Ha Hb Heq.
  pose proof (childrenMap_lookup_NoDup l a Hnd Ha) as H1.
  pose proof (childrenMap_lookup_NoDup l b Hnd Hb) as H2.
  rewrite Heq in H1. congruence.
Qed.

(** ** Labels and tags *)

Lemma FILTER_LABELS_TO_TAGS_cases (Object_prototype_has : string -> bool)
      (label : string) :
  (exists tag, FILTER_TAGS_TO_LABELS tag = label
               /\ FILTER_LABELS_TO_TAGS Object_prototype_has label = Own tag)
  \/ ((forall tag, FILTER_TAGS_TO_LABELS tag <> label)
      /\ FILTER_LABELS_TO_TAGS Object_prototype_has label
         = if Object_prototype_has label then Inherited else Undefined).
Proof.
  unfold FILTER_LABELS_TO_TAGS, FILTER_TAGS.keys.
  cbn [List.find FILTER_TAGS_TO_LABELS].
  destruct (String.eqb_spec "Sample Code" label) as [<-|H1].
  { left. by exists FILTER_TAGS.sampleCode. }
  destruct (String.eqb_spec "Tutorials" label) as [<-|H2].
  { left. by exists FILTER_TAGS.tutorials. }
  destruct (String.eqb_spec "Articles" label) as [<-|H3].
  { left. by exists FILTER_TAGS.articles. }
  right. split; [|done]. by intros [].
Qed.

Lemma FILTER_TAGS_TO_LABELS_inj (tag tag' : FILTER_TAGS.t) :
  FILTER_TAGS_TO_LABELS tag = FILTER_TAGS_TO_LABELS tag' -> tag = tag'.
Proof. by destruct tag, tag'. Qed.

(** A read gives a tag exactly for that tag's label. *)
Lemma FILTER_LABELS_TO_TAGS_Own (Object_prototype_has : string -> bool)
      (label : string) (tag : FILTER_TAGS.t) :
  FILTER_LABELS_TO_TAGS Object_prototype_has label = Own tag
  <-> FILTER_TAGS_TO_LABELS tag = label.
Proof.
  destruct (FILTER_LABELS_TO_TAGS_cases Object_prototype_has label)
    as [(tag' & Hl & ->)|[Hno ->]].
  - split.
    + by intros [= <-].
    + intros H. f_equal. apply FILTER_TAGS_TO_LABELS_inj. congruence.
  - split.
    + by destruct (Object_prototype_has label).
    + intros H. by destruct (Hno tag).
Qed.

(** The setter stores the tag of every label it is given. *)
Lemma setter_of_labels (Object_prototype_has : string -> bool)
      (tags : list FILTER_TAGS.t) :
  selectedTagsModelValue_set Object_prototype_has (map FILTER_TAGS_TO_LABELS tags)
  = map Own tags.
Proof.
  unfold selectedTagsModelValue_set. induction tags as [|tag tags IH]; [done|].
  cbn [map]. rewrite IH. f_equal. by apply FILTER_LABELS_TO_TAGS_Own.
Qed.

(** ** The filter engine *)

Section FilterEngine.
Variable regex_search : string -> bool -> string -> nat -> option nat.
Variable safeHighlightPattern : string -> string.

Local Abbreviation test := (RegExp_test regex_search).
Local Abbreviation pattern_of := (filterPattern safeHighlightPattern).
Local Abbreviation callback := (filterCallback regex_search).
Local Abbreviation filtered := (filteredChildren regex_search safeHighlightPattern).

Lemma RegExp_test_not_global (r : RegExp) (input : string) :
  global r = false ->
  test r input
  = (bool_decide (is_Some (regex_search (source r) (ignoreCase r) input 0%nat)), r).
Proof. intros H. unfold RegExp_test. by rewrite H. Qed.

Lemma filterPattern_not_global (st : State) (r : RegExp) :
  pattern_of st = Some r -> global r = false.
Proof.
  unfold filterPattern. destruct (negb _); [discriminate|].
  by intros [= <-].
Qed.

(** A pattern without the [g] flag comes out of the callback as it went in. *)
Lemma filterCallback_pattern_kept (tags : list FILTER_TAGS.t) (pattern : option RegExp)
      (node : NavigatorFlatItem) :
  (forall r, pattern = Some r -> global r = false) ->
  snd (callback tags pattern node) = pattern.
Proof.
  intros Hg. unfold filterCallback. destruct pattern as [r|]; [|done].
  rewrite RegExp_test_not_global by by apply Hg. done.
Qed.

Lemma filter_with_pattern_pure (tags : list FILTER_TAGS.t) (pattern : option RegExp)
      (l : list NavigatorFlatItem) :
  (forall r, pattern = Some r -> global r = false) ->
  filter_with_pattern regex_search tags pattern l
  = (List.filter (fun node => fst (callback tags pattern node)) l, pattern).
Proof.
  intros Hg. induction l as [|node l IH]; [done|]. simpl.
  pose proof (filterCallback_pattern_kept tags pattern node Hg) as Hk.
  destruct (callback tags pattern node) as [keep pattern'] eqn:E.
  simpl in Hk. subst pattern'. rewrite IH. done.
Qed.

Lemma filteredChildren_filter (props : Props) (st : State) :
  filtered props st
  = if hasFilter st
    then List.filter
           (fun node => fst (callback (selectedTags st) (pattern_of st) node))
           (children props)
    else [].
Proof.
  unfold filteredChildren. destruct (hasFilter st); [|done]. simpl.
  rewrite filter_with_pattern_pure; [done|]. apply filterPattern_not_global.
Qed.

Lemma filteredChildren_subset (props : Props) (st : State) (n : NavigatorFlatItem) :
  n ∈ filtered props st -> n ∈ children props.
Proof.
  rewrite filteredChildren_filter. destruct (hasFilter st).
  - rewrite list_elem_of_In, List.filter_In, <- list_elem_of_In. tauto.
  - intros H. by apply elem_of_nil in H.
Qed.

Lemma filteredChildren_no_filter (props : Props) (st : State) :
  hasFilter st = false -> filtered props st = [].
Proof. intros H. unfold filteredChildren. by rewrite H. Qed.

(** C9.  The pattern is absent for an empty debounced text and is
    otherwise the case-insensitive, non-global pattern over the escaped
    text; testing it does not change it, so a test repeated on the same
    title gives the same answer; the callback of [filtered]
    accepts a node exactly when the title passes (or there is no
    pattern), the type maps to a selected tag (or no tag is selected) and
    the type is not the group marker; and [filtered] is the
    collection filtered by that callback when a filter is active. *)
Theorem filter_predicate_spec (props : Props) (st : State) (node : NavigatorFlatItem) :
  pattern_of st
  = (if truthy (debouncedFilter st)
     then Some {| source := safeHighlightPattern (debouncedFilter st);
                  ignoreCase := true; global := false; lastIndex := 0%nat |}
     else None)
  /\ (forall r input,
        pattern_of st = Some r ->
        test r input
        = (bool_decide (is_Some (regex_search (source r) true input 0%nat)), r)
        /\ fst (test (snd (test r input)) input)
           = fst (test r input))
  /\ (fst (callback (selectedTags st) (pattern_of st) node) = true
      <-> (pattern_of st = None
           \/ exists r, pattern_of st = Some r
                        /\ fst (test r (title node)) = true)
          /\ (selectedTags st = []
              \/ exists tag, TOPIC_TYPE_TO_TAG (type node) = Some tag
                             /\ tag ∈ selectedTags st)
          /\ type node <> TopicTypes.groupMarker)
  /\ (node ∈ filtered props st
      <-> hasFilter st = true
          /\ node ∈ children props
          /\ fst (callback (selectedTags st) (pattern_of st) node) = true).
Proof.
  split; [|split; [|split]].
  - unfold filterPattern. by destruct (truthy (debouncedFilter st)).
  - intros r input Hr.
    pose proof (filterPattern_not_global st r Hr) as Hg.
    assert (ignoreCase r = true) as Hi.
    { revert Hr. unfold filterPattern. destruct (negb _); [discriminate|].
      by intros [= <-]. }
    rewrite !RegExp_test_not_global by done. simpl.
    rewrite Hi. done.
  - unfold filterCallback.
    destruct (pattern_of st) as [r|] eqn:Hp.
    + destruct (test r (title node)) as [b r'] eqn:Ht. simpl.
      rewrite !andb_true_iff, negb_true_iff, bool_decide_eq_false.
      split.
      * intros [[Hb Htag] Hty]. split; [|split; [|done]].
        -- right. exists r. by rewrite Ht.
        -- destruct (selectedTags st) as [|t0 ts]; [by left|]. right.
           destruct (TOPIC_TYPE_TO_TAG (type node)) as [tag|]; [|done].
           exists tag. split; [done|]. by apply bool_decide_eq_true in Htag.
      * intros [[Hn|(r0 & Hr0 & Hb)] [Htag Hty]]; [done|].
        injection Hr0 as <-. rewrite Ht in Hb. simpl in Hb.
        split; [split; [done|]|done].
        destruct Htag as [->|(tag & Hm & Hin)]; [done|].
        rewrite Hm. destruct (selectedTags st); [by apply elem_of_nil in Hin|].
        by apply bool_decide_eq_true.
    + simpl. rewrite andb_true_iff, negb_true_iff, bool_decide_eq_false.
      split.
      * intros [Htag Hty]. split; [by left|split; [|done]].
        destruct (selectedTags st) as [|t0 ts]; [by left|]. right.
        destruct (TOPIC_TYPE_TO_TAG (type node)) as [tag|]; [|done].
        exists tag. split; [done|]. by apply bool_decide_eq_true in Htag.
      * intros [_ [Htag Hty]]. split; [|done].
        destruct Htag as [->|(tag & Hm & Hin)]; [done|].
        rewrite Hm. destruct (selectedTags st); [by apply elem_of_nil in Hin|].
        by apply bool_decide_eq_true.
  - rewrite filteredChildren_filter. destruct (hasFilter st).
    + rewrite list_elem_of_In, List.filter_In, <- list_elem_of_In. tauto.
    + split; [intros H; by apply elem_of_nil in H | intros [? _]; discriminate].
Qed.
End FilterEngine.

(** ** The ancestry resolver *)

Lemma find_path_defined (segment : string) (l : list NavigatorFlatItem) :
  find_path segment (map Some l)
  = Done (List.find (fun c => bool_decide (path c = Some segment)) l).
Proof.
  induction l as [|c l IH]; [done|]. simpl.
  by destruct (bool_decide (path c = Some segment)).
Qed.

Lemma map_lookup_defined (cm : gmap Z NavigatorFlatItem) (l : list Z) :
  (forall u, u ∈ l -> is_Some (cm !! u)) ->
  map (fun c => cm !! c) l = map Some (omap (fun u => cm !! u) l).
Proof.
  induction l as [|u l IH]; intros H; [done|]. simpl.
  destruct (H u) as [n Hn]; [by left|]. rewrite Hn. simpl. f_equal.
  apply IH. intros v Hv. apply H. by right.
Qed.

Lemma childUIDs_resolve_spec (children : list NavigatorFlatItem) :
  childUIDs_resolve children = true ->
  forall n u, n ∈ children -> u ∈ childUIDs n -> is_Some (childrenMap children !! u).
Proof.
  unfold childUIDs_resolve. rewrite forallb_forall. intros H n u Hn Hu.
  apply list_elem_of_In in Hn. specialize (H n Hn).
  rewrite forallb_forall in H. apply list_elem_of_In in Hu.
  specialize (H u Hu). by apply bool_decide_eq_true in H.
Qed.

Lemma elem_of_omap_lookup (children : list NavigatorFlatItem) (l : list Z)
      (c : NavigatorFlatItem) :
  c ∈ omap (fun u => childrenMap children !! u) l -> c ∈ children.
Proof.
  rewrite list_elem_of_omap. intros (u & _ & Hu).
  by apply childrenMap_lookup_Some in Hu as [? _].
Qed.

(** The loop yields what is resolved so far followed by the resolution of
    the remaining segments among the current candidates. *)
Lemma activePathChildren_loop_resolve (children : list NavigatorFlatItem) :
  childUIDs_resolve children = true ->
  forall (stack : list string) (candidates result : list NavigatorFlatItem),
    (forall c, c ∈ candidates -> c ∈ children) ->
    activePathChildren_loop (childrenMap children) stack (map Some candidates) result
    = Done (result ++ resolve (childrenMap children) stack candidates).
Proof.
  intros Hres stack.
  induction stack as [|segment stack IH]; intros candidates result Hsub; simpl.
  - by rewrite app_nil_r.
  - rewrite find_path_defined. simpl.
    destruct (List.find _ candidates) as [node|] eqn:Hfind.
    + apply List.find_some in Hfind as [Hin _]. apply list_elem_of_In in Hin.
      assert (map (fun c => childrenMap children !! c) (childUIDs node)
              = map Some (omap (fun u => childrenMap children !! u) (childUIDs node)))
        as Hmap.
      { apply map_lookup_defined. intros u Hu.
        eapply childUIDs_resolve_spec; eauto. }
      destruct stack as [|segment' stack'].
      * done.
      * rewrite Hmap, IH; [by rewrite <- app_assoc|].
        intros c. apply elem_of_omap_lookup.
    + by rewrite app_nil_r.
Qed.

Lemma activePathChildren_Done_resolve
      (children : list NavigatorFlatItem) (activePath : list string) :
  childUIDs_resolve children = true ->
  activePathChildren children activePath
  = Done (resolve (childrenMap children) activePath children).
Proof.
  intros Hres. unfold activePathChildren. rewrite rev_involutive.
  by rewrite activePathChildren_loop_resolve.
Qed.

(** C8, as the code has it.  Resolution searches the whole flat
    collection for the first segment and the children of the node found
    for each next one, stops at the first segment without a match with
    the nodes resolved so far and never throws; [activeUID] is the uid of
    the last resolved node and is undefined exactly when none resolved. *)
Theorem activePathChildren_resolve
        (children : list NavigatorFlatItem) (activePath : list string) :
  childUIDs_resolve children = true ->
  let resolved := resolve (childrenMap children) activePath children in
  activePathChildren children activePath = Done resolved
  /\ (forall n, last resolved = Some n -> activeUID resolved = Some (uid n))
  /\ (activeUID resolved = None <-> resolved = []).
Proof.
  intros Hres resolved. split; [|split].
  - by apply activePathChildren_Done_resolve.
  - intros n Hn. unfold activeUID. by rewrite Hn.
  - unfold activeUID. rewrite fmap_None. apply last_None.
Qed.

Lemma activePathChildren_resolve_witness :
  activePathChildren (children Sample.props) ["/b"; "/b/c"; "/b/c/d"]
  = Done [Sample.B; Sample.C]
  /\ activeUID [Sample.B; Sample.C] = Some 3.
Proof.
  pose proof (activePathChildren_resolve (children Sample.props)
                ["/b"; "/b/c"; "/b/c/d"] eq_refl) as (H1 & H2 & _).
  split; [exact H1 | exact (H2 Sample.C eq_refl)].
Defined.

(** With the top-level children as first candidates, as C8 words it, a
    path that starts at a nested node would resolve to nothing; the code
    searches the whole collection and resolves it. *)
Lemma activePathChildren_not_top_level :
  activePathChildren (children Sample.props) ["/b/c"] = Done [Sample.C]
  /\ resolve (childrenMap (children Sample.props)) ["/b/c"]
             (topLevel (children Sample.props)) = []
  /\ activePathChildren (children Sample.props) ["/b/c"]
     <> Done (resolve (childrenMap (children Sample.props)) ["/b/c"]
                      (topLevel (children Sample.props))).
Proof. split; [reflexivity|]. split; [reflexivity|]. discriminate. Qed.

(** ** The flattening of a forest *)

Lemma flattenForest_nil (par : ParentKey) : flattenForest par [] = [].
Proof. reflexivity. Qed.

Lemma flattenForest_cons (par : ParentKey) (t : NavigatorTree)
      (rest : list NavigatorTree) :
  flattenForest par (t :: rest)
  = item par t :: flattenForest (ParentUID (root_uid t)) (subforest t)
      ++ flattenForest par rest.
Proof. by destruct t. Qed.

Lemma uid_item (par : ParentKey) (t : NavigatorTree) : uid (item par t) = root_uid t.
Proof. by destruct t. Qed.

Lemma parent_item (par : ParentKey) (t : NavigatorTree) : parent (item par t) = par.
Proof. by destruct t. Qed.

Lemma childUIDs_item (par : ParentKey) (t : NavigatorTree) :
  childUIDs (item par t) = map root_uid (subforest t).
Proof. by destruct t. Qed.

(** Induction on forests: the empty forest, and a tree in front of a
    forest, given the property for its subforest and for the rest. *)
Lemma forest_ind (P : list NavigatorTree -> Prop) :
  P [] ->
  (forall t rest, P (subforest t) -> P rest -> P (t :: rest)) ->
  forall forest, P forest.
Proof.
  intros Hnil Hcons.
  assert (forall t rest, P rest -> P (t :: rest)) as Htree.
  { fix go 1. intros [u ti p k kids] rest Hrest.
    apply Hcons; [|exact Hrest]. simpl.
    induction kids as [|t' kids' IHkids]; [exact Hnil|].
    apply go, IHkids. }
  intros forest. induction forest as [|t rest IH]; [exact Hnil|].
  by apply Htree.
Qed.

(** A node of a flattened forest is the item of one of its roots, or
    hangs under a node of the forest that lists it as a child. *)
Lemma flattenForest_parent (forest : list NavigatorTree) :
  forall par c,
    c ∈ flattenForest par forest ->
    (exists t, t ∈ forest /\ c = item par t)
    \/ exists m, m ∈ flattenForest par forest
                 /\ parent c = ParentUID (uid m) /\ uid c ∈ childUIDs m.
Proof.
  induction forest as [|t rest IHkids IHrest] using forest_ind; intros par c Hc.
  - by apply elem_of_nil in Hc.
  - rewrite flattenForest_cons in Hc |- *.
    apply elem_of_cons in Hc as [->|Hc].
    { left. exists t. split; [by left|done]. }
    apply elem_of_app in Hc as [Hc|Hc].
    + right. destruct (IHkids _ _ Hc) as [(k & Hk & ->)|(m & Hm & Hp & Hu)].
      * exists (item par t). split; [by left|].
        rewrite parent_item, !uid_item, childUIDs_item. split; [done|].
        by apply list_elem_of_fmap_2.
      * exists m. split; [|done]. right. apply elem_of_app. by left.
    + destruct (IHrest _ _ Hc) as [(t' & Ht' & ->)|(m & Hm & Hp & Hu)].
      * left. exists t'. split; [by right|done].
      * right. exists m. split; [|done]. right. apply elem_of_app. by right.
Qed.

(** Every uid a node of a flattened forest lists as a child is the uid of
    a node of the forest that hangs under it. *)
Lemma flattenForest_child (forest : list NavigatorTree) :
  forall par m u,
    m ∈ flattenForest par forest -> u ∈ childUIDs m ->
    exists c, c ∈ flattenForest par forest /\ uid c = u
              /\ parent c = ParentUID (uid m).
Proof.
  induction forest as [|t rest IHkids IHrest] using forest_ind; intros par m u Hm Hu.
  - by apply elem_of_nil in Hm.
  - rewrite flattenForest_cons in Hm |- *.
    apply elem_of_cons in Hm as [->|Hm].
    { rewrite childUIDs_item in Hu. apply list_elem_of_fmap in Hu as (k & -> & Hk).
      exists (item (ParentUID (root_uid t)) k).
      rewrite !uid_item, parent_item. split; [|done].
      right. apply elem_of_app. left.
      clear -Hk. induction Hk as [k kids|k k' kids Hk IH].
      - rewrite flattenForest_cons. by left.
      - rewrite flattenForest_cons. right. apply elem_of_app. by right. }
    apply elem_of_app in Hm as [Hm|Hm].
    + destruct (IHkids _ _ _ Hm Hu) as (c & Hc & Hcu & Hcp).
      exists c. split; [|done]. right. apply elem_of_app. by left.
    + destruct (IHrest _ _ _ Hm Hu) as (c & Hc & Hcu & Hcp).
      exists c. split; [|done]. right. apply elem_of_app. by right.
Qed.

Lemma item_in_flattenForest (par : ParentKey) (forest : list NavigatorTree)
      (t : NavigatorTree) :
  t ∈ forest -> item par t ∈ flattenForest par forest.
Proof.
  induction 1 as [t rest|t t' rest Ht IH]; rewrite flattenForest_cons.
  - by left.
  - right. apply elem_of_app. by right.
Qed.

(** Where a node sits: behind it comes its flattened subforest. *)
Lemma flattenForest_split (forest : list NavigatorTree) :
  forall par n,
    n ∈ flattenForest par forest ->
    exists par' t l1 l2,
      flattenForest par forest
      = l1 ++ item par' t
           :: flattenForest (ParentUID (root_uid t)) (subforest t) ++ l2
      /\ n = item par' t.
Proof.
  induction forest as [|t rest IHkids IHrest] using forest_ind; intros par n Hn.
  - by apply elem_of_nil in Hn.
  - rewrite flattenForest_cons in Hn |- *.
    apply elem_of_cons in Hn as [->|Hn].
    { exists par, t, [], (flattenForest par rest). done. }
    apply elem_of_app in Hn as [Hn|Hn].
    + destruct (IHkids _ _ Hn) as (par' & t' & l1 & l2 & Heq & ->).
      exists par', t', (item par t :: l1), (l2 ++ flattenForest par rest).
      split; [|done]. rewrite Heq. simpl. rewrite <- app_assoc. simpl.
      by rewrite <- app_assoc.
    + destruct (IHrest _ _ Hn) as (par' & t' & l1 & l2 & Heq & ->).
      exists par', t',
        (item par t :: flattenForest (ParentUID (root_uid t)) (subforest t) ++ l1), l2.
      split; [|done]. rewrite Heq. simpl. by rewrite <- !app_assoc.
Qed.

(** ** [getAllChildren] and [getParents] on a flattened forest *)

Lemma getAllChildren_loop_forest (cm : gmap Z NavigatorFlatItem)
      (forest : list NavigatorTree) :
  forall par stack arr fuel,
    (forall n, n ∈ flattenForest par forest -> cm !! uid n = Some n) ->
    (length (flattenForest par forest) <= fuel)%nat ->
    getAllChildren_loop cm fuel (map root_uid forest ++ stack) arr
    = getAllChildren_loop cm (fuel - length (flattenForest par forest)) stack
        (arr ++ flattenForest par forest).
Proof.
  induction forest as [|t rest IHkids IHrest] using forest_ind;
    intros par stack arr fuel Hcm Hfuel.
  - simpl. by rewrite Nat.sub_0_r, app_nil_r.
  - rewrite flattenForest_cons in *. simpl in Hfuel.
    rewrite length_app in Hfuel.
    destruct fuel as [|fuel]; [lia|]. simpl.
    pose proof (Hcm (item par t) ltac:(by left)) as Ht.
    rewrite uid_item in Ht. rewrite Ht, childUIDs_item.
    rewrite (IHkids (ParentUID (root_uid t))); [|intros n Hn; apply Hcm|lia].
    2:{ right. apply elem_of_app. by left. }
    rewrite (IHrest par); [|intros n Hn; apply Hcm|lia].
    2:{ right. apply elem_of_app. by right. }
    rewrite length_app, Nat.sub_add_distr.
    rewrite <- !app_assoc. done.
Qed.

(** The descendants-or-self of a node of the collection, in document order. *)
Lemma getAllChildren_subtree (forest : list NavigatorTree)
      (children l1 l2 : list NavigatorFlatItem) (par : ParentKey) (t : NavigatorTree)
      (fuel : nat) :
  flat_tree_invariants forest children ->
  children = l1 ++ item par t
               :: flattenForest (ParentUID (root_uid t)) (subforest t) ++ l2 ->
  (length children <= fuel)%nat ->
  getAllChildren (childrenMap children) fuel (root_uid t)
  = Done (item par t :: flattenForest (ParentUID (root_uid t)) (subforest t)).
Proof.
  intros [_ Hnd] Heq Hfuel. unfold getAllChildren.
  pose proof (getAllChildren_loop_forest (childrenMap children) [t] par [] [] fuel)
    as H.
  rewrite flattenForest_cons, flattenForest_nil, app_nil_r in H. simpl in H.
  rewrite H.
  - by destruct (fuel - _)%nat.
  - intros n Hn. apply childrenMap_lookup_NoDup; [done|].
    rewrite Heq. apply elem_of_app. right. rewrite app_comm_cons.
    apply elem_of_app. by left.
  - rewrite Heq in Hfuel. rewrite length_app in Hfuel. simpl in Hfuel.
    rewrite length_app in Hfuel. lia.
Qed.

Lemma getParents_loop_item (cm : gmap Z NavigatorFlatItem) (n : NavigatorFlatItem)
      (fuel : nat) (arr : list NavigatorFlatItem) :
  cm !! uid n = Some n ->
  getParents_loop cm (S fuel) [uid n] arr
  = getParents_above cm (parent n) fuel (n :: arr).
Proof.
  intros Hn. simpl. rewrite Hn. unfold parent_to_follow, getParents_above.
  destruct (parent n) as [|p]; [by destruct fuel|].
  destruct (Z.eqb p 0); [by destruct fuel | done].
Qed.

Lemma getParents_loop_forest (cm : gmap Z NavigatorFlatItem)
      (forest : list NavigatorTree) :
  forall par d,
    (forall n, n ∈ flattenForest par forest -> cm !! uid n = Some n) ->
    (forall fuel arr, (d <= fuel)%nat ->
                      exists res, getParents_above cm par fuel arr = Done res) ->
    forall n fuel arr,
      n ∈ flattenForest par forest ->
      (d + length (flattenForest par forest) <= fuel)%nat ->
      exists res, getParents_loop cm fuel [uid n] arr = Done res.
Proof.
  induction forest as [|t rest IHkids IHrest] using forest_ind;
    intros par d Hcm Habove n fuel arr Hn Hfuel.
  - by apply elem_of_nil in Hn.
  - rewrite flattenForest_cons in *. simpl in Hfuel. rewrite length_app in Hfuel.
    assert (forall fuel arr, (d + 1 <= fuel)%nat ->
              exists res, getParents_loop cm fuel [root_uid t] arr = Done res)
      as Hroot.
    { intros fuel' arr' Hf. destruct fuel' as [|fuel']; [lia|].
      pose proof (Hcm (item par t) ltac:(by left)) as Ht.
      rewrite <- (uid_item par t). rewrite getParents_loop_item by done.
      rewrite parent_item. apply Habove. lia. }
    apply elem_of_cons in Hn as [->|Hn].
    { rewrite uid_item. apply Hroot. lia. }
    apply elem_of_app in Hn as [Hn|Hn].
    + apply (IHkids (ParentUID (root_uid t)) (d + 1)%nat); [| |done|lia].
      * intros m Hm. apply Hcm. right. apply elem_of_app. by left.
      * intros fuel' arr' Hf. unfold getParents_above.
        destruct (Z.eqb (root_uid t) 0); [by eexists|]. by apply Hroot.
    + apply (IHrest par d); [|done|done|lia].
      intros m Hm. apply Hcm. right. apply elem_of_app. by right.
Qed.

(** On a well-formed collection [getParents] ends for every node. *)
Lemma getParents_terminates (forest : list NavigatorTree)
      (children : list NavigatorFlatItem) (n : NavigatorFlatItem) (fuel : nat) :
  flat_tree_invariants forest children ->
  n ∈ children -> (length children <= fuel)%nat ->
  exists chain, getParents (childrenMap children) fuel (uid n) = Done chain.
Proof.
  intros [Heq Hnd] Hn Hfuel. unfold getParents.
  apply (getParents_loop_forest (childrenMap children) forest INDEX_ROOT_KEY 0).
  - intros m Hm. apply childrenMap_lookup_NoDup; [done|]. by rewrite Heq.
  - intros fuel' arr' _. by eexists.
  - by rewrite <- Heq.
  - rewrite <- Heq. lia.
Qed.

(** ** Arrays *)

Lemma filter_none {A : Type} (f : A -> bool) (l : list A) :
  (forall x, x ∈ l -> f x = false) -> List.filter f l = [].
Proof.
  induction l as [|x l IH]; intros H; [done|]. simpl.
  rewrite (H x) by by left. apply IH. intros y Hy. apply H. by right.
Qed.

Lemma filter_all {A : Type} (f : A -> bool) (l : list A) :
  (forall x, x ∈ l -> f x = true) -> List.filter f l = l.
Proof.
  induction l as [|x l IH]; intros H; [done|]. simpl.
  rewrite (H x) by by left. f_equal. apply IH. intros y Hy. apply H. by right.
Qed.

Lemma filter_ext_elem_of {A : Type} (f g : A -> bool) (l : list A) :
  (forall x, x ∈ l -> f x = g x) -> List.filter f l = List.filter g l.
Proof.
  intros H. apply List.filter_ext_in. intros x Hx. apply H.
  by apply list_elem_of_In.
Qed.

Lemma filter_filter_andb {A : Type} (f g : A -> bool) (l : list A) :
  List.filter g (List.filter f l) = List.filter (fun x => f x && g x) l.
Proof.
  induction l as [|x l IH]; [done|]. simpl.
  destruct (f x); simpl; [|done]. destruct (g x); by rewrite IH.
Qed.

Lemma elem_of_filter_bool {A : Type} (f : A -> bool) (l : list A) (x : A) :
  x ∈ List.filter f l <-> x ∈ l /\ f x = true.
Proof. by rewrite !list_elem_of_In, List.filter_In. Qed.

Lemma findIndex_nonneg {A : Type} (pred : A -> bool) (l : list A) :
  -1 <= findIndex pred l.
Proof.
  induction l as [|x l IH]; simpl; [lia|].
  destruct (pred x); [lia|]. destruct (Z.ltb_spec (findIndex pred l) 0); lia.
Qed.

(** The index of the first hit, when nothing before it is one. *)
Lemma findIndex_app {A : Type} (pred : A -> bool) (l r : list A) (x : A) :
  (forall y, y ∈ l -> pred y = false) -> pred x = true ->
  findIndex pred (l ++ x :: r) = Z.of_nat (length l).
Proof.
  intros Hl Hx. induction l as [|y l IH]; simpl.
  - by rewrite Hx.
  - rewrite (Hl y) by by left. rewrite IH by (intros z Hz; apply Hl; by right).
    destruct (Z.ltb_spec (Z.of_nat (length l)) 0); lia.
Qed.

Lemma splice_after {A : Type} (l r items : list A) (x : A) :
  splice (Z.of_nat (length l) + 1) items (l ++ x :: r) = l ++ x :: items ++ r.
Proof.
  unfold splice.
  replace (Z.to_nat (Z.of_nat (length l) + 1)) with (length (l ++ [x])).
  2:{ rewrite length_app. simpl. lia. }
  replace (l ++ x :: r) with ((l ++ [x]) ++ r) by by rewrite <- app_assoc.
  rewrite take_app_length, drop_app_length. by rewrite <- app_assoc.
Qed.

Lemma all_defined_map {A B : Type} (f : A -> option B) (g : A -> B) (l : list A) :
  (forall x, x ∈ l -> f x = Some (g x)) ->
  all_defined (map f l) = Some (map g l).
Proof.
  induction l as [|x l IH]; intros H; [done|]. simpl.
  rewrite (H x) by by left. rewrite IH; [done|]. intros y Hy. apply H. by right.
Qed.

Lemma mapM_outcome_nil {A B : Type} (f : A -> outcome B) :
  mapM f [] = Done [].
Proof. reflexivity. Qed.

(** ** Open nodes closed under parents *)

Lemma renderable_mono (o o' : gset Z) (c : NavigatorFlatItem) :
  o ⊆ o' -> renderable o c = true -> renderable o' c = true.
Proof.
  unfold renderable. destruct (parent c); [done|].
  rewrite !bool_decide_eq_true. set_solver.
Qed.

Lemma ancestor_closed_spec (children : list NavigatorFlatItem) (o : gset Z) :
  ancestor_closed children o = true
  <-> forall c, c ∈ children -> uid c ∈ o -> renderable o c = true.
Proof.
  unfold ancestor_closed. rewrite forallb_forall. split.
  - intros H c Hc Hu. apply list_elem_of_In in Hc. specialize (H c Hc).
    by rewrite bool_decide_eq_true_2 in H.
  - intros H c Hc. apply list_elem_of_In in Hc.
    destruct (bool_decide (uid c ∈ o)) eqn:E; [|done].
    apply bool_decide_eq_true in E. simpl. by apply H.
Qed.

(** In a collection whose open nodes are closed under parents, a forest
    with closed roots is closed throughout. *)
Lemma closed_forest (children : list NavigatorFlatItem) (open : gset Z) :
  ancestor_closed children open = true ->
  forall kids p,
    (forall c, c ∈ flattenForest (ParentUID p) kids -> c ∈ children) ->
    (forall k, k ∈ kids -> root_uid k ∉ open) ->
    forall c, c ∈ flattenForest (ParentUID p) kids -> uid c ∉ open.
Proof.
  intros Hac.
  pose proof (proj1 (ancestor_closed_spec children open) Hac) as Hac'.
  intros kids.
  induction kids as [|k rest IHkids IHrest] using forest_ind; intros p Hsub Hroots c Hc.
  - by apply elem_of_nil in Hc.
  - rewrite flattenForest_cons in Hc, Hsub.
    apply elem_of_cons in Hc as [->|Hc].
    { rewrite uid_item. apply Hroots. by left. }
    apply elem_of_app in Hc as [Hc|Hc].
    + apply (IHkids (root_uid k)); [| |done].
      * intros c' Hc'. apply Hsub. right. apply elem_of_app. by left.
      * intros k' Hk' Hu.
        assert (item (ParentUID (root_uid k)) k' ∈ children) as Hin.
        { apply Hsub. right. apply elem_of_app. left.
          by apply item_in_flattenForest. }
        apply Hac' in Hin; [|by rewrite uid_item].
        unfold renderable in Hin. rewrite parent_item in Hin.
        apply bool_decide_eq_true in Hin. apply (Hroots k); [by left|done].
    + apply (IHrest p); [| |done].
      * intros c' Hc'. apply Hsub. right. apply elem_of_app. by right.
      * intros k' Hk'. apply Hroots. by right.
Qed.


(** ** A node and its subtree inside the flat collection *)

Section Subtree.
Variables (forest : list NavigatorTree) (children l1 l2 : list NavigatorFlatItem).
Variables (par : ParentKey) (t : NavigatorTree).
Hypothesis Hinv : flat_tree_invariants forest children.
Hypothesis Hsplit :
  children = l1 ++ item par t
               :: flattenForest (ParentUID (root_uid t)) (subforest t) ++ l2.

Local Abbreviation n := (item par t).
Local Abbreviation sub := (flattenForest (ParentUID (root_uid t)) (subforest t)).

Lemma node_in_children : n ∈ children.
Proof. rewrite Hsplit. apply elem_of_app. right. by left. Qed.

Lemma sub_in_children (c : NavigatorFlatItem) : c ∈ sub -> c ∈ children.
Proof.
  intros Hc. rewrite Hsplit. apply elem_of_app. right. right.
  apply elem_of_app. by left.
Qed.

Lemma subtree_in_children (m : NavigatorFlatItem) : m ∈ n :: sub -> m ∈ children.
Proof.
  intros [->|Hm]%elem_of_cons; [apply node_in_children | by apply sub_in_children].
Qed.

Lemma children_NoDup : NoDup children.
Proof. destruct Hinv as [_ Hnd]. by apply NoDup_fmap_1 in Hnd. Qed.

Lemma children_cases (c : NavigatorFlatItem) :
  c ∈ children <-> c ∈ l1 \/ c ∈ n :: sub \/ c ∈ l2.
Proof.
  rewrite Hsplit at 1. rewrite elem_of_app, app_comm_cons, elem_of_app. tauto.
Qed.

(** What lies before or behind the subtree is not in it. *)
Lemma outside_subtree (c : NavigatorFlatItem) :
  c ∈ l1 \/ c ∈ l2 -> c ∉ n :: sub.
Proof.
  pose proof children_NoDup as Hnd. rewrite Hsplit, app_comm_cons in Hnd.
  apply NoDup_app in Hnd as (_ & H1 & Hnd).
  apply NoDup_app in Hnd as (_ & H2 & _).
  intros [Hc|Hc] Hin.
  - apply (H1 c Hc). apply elem_of_app. by left.
  - by apply (H2 c Hin).
Qed.

Lemma node_not_in_sub : n ∉ sub.
Proof.
  pose proof children_NoDup as Hnd. rewrite Hsplit in Hnd.
  apply NoDup_app in Hnd as (_ & _ & Hnd). apply NoDup_cons in Hnd as [Hn _].
  intros Hin. apply Hn. apply elem_of_app. by left.
Qed.

(** A node of the subtree hangs under the node or under a node of the
    subtree. *)
Lemma sub_parent (c : NavigatorFlatItem) :
  c ∈ sub -> exists m, m ∈ n :: sub /\ parent c = ParentUID (uid m).
Proof.
  intros Hc.
  destruct (flattenForest_parent _ _ _ Hc) as [(k & Hk & ->)|(m & Hm & Hp & _)].
  - exists n. split; [by left|]. by rewrite parent_item, uid_item.
  - exists m. split; [by right|done].
Qed.

(** A node of the collection that hangs under a node of the subtree is
    in the subtree, below its root. *)
Lemma child_in_sub (c m : NavigatorFlatItem) :
  c ∈ children -> m ∈ n :: sub -> parent c = ParentUID (uid m) -> c ∈ sub.
Proof.
  intros Hc Hm Hp. destruct Hinv as [Heq Hnd].
  assert (uid c ∈ childUIDs m) as Hu.
  { rewrite Heq in Hc.
    destruct (flattenForest_parent _ _ _ Hc) as [(k & Hk & ->)|(m' & Hm' & Hp' & Hu)].
    - by rewrite parent_item in Hp.
    - rewrite <- Heq in Hm'. rewrite Hp in Hp'. injection Hp' as Hp'.
      assert (m = m') as <-; [|done].
      apply (uid_inj_NoDup children); auto using subtree_in_children. }
  assert (exists c', c' ∈ sub /\ uid c' = uid c) as (c' & Hc' & Hcu).
  { apply elem_of_cons in Hm as [->|Hm].
    - rewrite childUIDs_item in Hu. apply list_elem_of_fmap in Hu as (k & Hk & Hin).
      exists (item (ParentUID (root_uid t)) k). split.
      + by apply item_in_flattenForest.
      + by rewrite uid_item.
    - destruct (flattenForest_child _ _ _ _ Hm Hu) as (c' & Hc' & Hcu & _).
      by exists c'. }
  assert (c' = c) as <-; [|done].
  apply (uid_inj_NoDup children); auto using sub_in_children.
Qed.

Lemma sub_not_top (c : NavigatorFlatItem) : c ∈ sub -> parent c <> INDEX_ROOT_KEY.
Proof. intros Hc. destruct (sub_parent c Hc) as (m & _ & ->). discriminate. Qed.

Lemma subtree_uids (u : Z) :
  u ∈ (list_to_set (map uid (n :: sub)) : gset Z)
  <-> exists m, m ∈ n :: sub /\ uid m = u.
Proof.
  rewrite elem_of_list_to_set, list_elem_of_fmap. split.
  - intros (m & -> & Hm). by exists m.
  - intros (m & Hm & <-). by exists m.
Qed.

(** The uid of a node of the collection is a uid of the subtree only if
    the node is in the subtree. *)
Lemma subtree_uid_inv (c : NavigatorFlatItem) :
  c ∈ children -> uid c ∈ (list_to_set (map uid (n :: sub)) : gset Z) ->
  c ∈ n :: sub.
Proof.
  intros Hc (m & Hm & Hu)%subtree_uids. destruct Hinv as [_ Hnd].
  assert (m = c) as <-; [|done].
  apply (uid_inj_NoDup children); auto using subtree_in_children.
Qed.

(** The nodes right below the root of the subtree, in declared order. *)
Lemma included_children :
  all_defined (map (fun id => childrenMap children !! id) (childUIDs n))
  = Some (map (item (ParentUID (root_uid t))) (subforest t)).
Proof.
  rewrite childUIDs_item, map_map. apply all_defined_map. intros k Hk.
  rewrite <- (uid_item (ParentUID (root_uid t)) k).
  destruct Hinv as [_ Hnd]. apply childrenMap_lookup_NoDup; [done|].
  apply sub_in_children. by apply item_in_flattenForest.
Qed.

(** A closed node of a collection whose open nodes are closed under
    parents has no open descendant. *)
Lemma closed_subtree (open : gset Z) :
  ancestor_closed children open = true -> uid n ∉ open ->
  forall c, c ∈ sub -> uid c ∉ open.
Proof.
  intros Hac Hn. apply (closed_forest children open Hac).
  - apply sub_in_children.
  - intros k Hk Hu.
    assert (item (ParentUID (root_uid t)) k ∈ children) as Hin.
    { apply sub_in_children. by apply item_in_flattenForest. }
    apply (proj1 (ancestor_closed_spec children open) Hac) in Hin;
      [|by rewrite uid_item].
    unfold renderable in Hin. rewrite parent_item in Hin.
    apply bool_decide_eq_true in Hin. by rewrite uid_item in Hn.
Qed.
End Subtree.

(** ** The unfiltered recompute *)

(** Among a flattened forest, a test that accepts what hangs under the
    forest's key and rejects what hangs under a node of the forest keeps
    the roots. *)
Lemma filter_roots (f : NavigatorFlatItem -> bool) (p : Z) (kids : list NavigatorTree) :
  (forall c, parent c = ParentUID p -> f c = true) ->
  (forall c m, m ∈ flattenForest (ParentUID p) kids ->
               parent c = ParentUID (uid m) -> f c = false) ->
  List.filter f (flattenForest (ParentUID p) kids) = map (item (ParentUID p)) kids.
Proof.
  intros Hyes. induction kids as [|k rest IH]; intros Hno; [done|].
  rewrite flattenForest_cons in *. simpl.
  rewrite Hyes by apply parent_item. f_equal.
  rewrite List.filter_app, IH.
  - rewrite filter_none; [done|]. intros c Hc.
    destruct (flattenForest_parent _ _ _ Hc) as [(k' & Hk' & ->)|(m & Hm & Hp & _)].
    + apply (Hno _ (item (ParentUID p) k)); [by left|].
      by rewrite parent_item, uid_item.
    + apply (Hno _ m); [|done]. right. apply elem_of_app. by left.
  - intros c m Hm. apply Hno. right. apply elem_of_app. by right.
Qed.

Section Recompute.
Variable regex_search : string -> bool -> string -> nat -> option nat.
Variable safeHighlightPattern : string -> string.

Local Abbreviation generate := (generateNodesToRender regex_search safeHighlightPattern).
Local Abbreviation recomputed := (recompute regex_search safeHighlightPattern).
Local Abbreviation synced := (in_sync regex_search safeHighlightPattern).

Lemma generateNodesToRender_unfiltered (fuel : nat) (props : Props) (st : State) :
  hasFilter st = false ->
  generate fuel props st
  = Done (persistState props
            (set_nodesToRender
               (List.filter (renderable (openNodes st)) (children props)) st)).
Proof.
  intros Hf. unfold generateNodesToRender.
  rewrite filteredChildren_no_filter by done. simpl. do 3 f_equal.
  apply List.filter_ext. intros c. unfold shouldRender, renderable. rewrite Hf. simpl.
  destruct (parent c); [done|]. simpl. done.
Qed.

Lemma recompute_unfiltered (fuel : nat) (props : Props) (st : State) :
  hasFilter st = false ->
  recomputed fuel props st
  = Done (List.filter (renderable (openNodes st)) (children props)).
Proof.
  intros Hf. unfold recompute. by rewrite generateNodesToRender_unfiltered.
Qed.

Lemma in_sync_unfold (fuel : nat) (props : Props) (st : State) :
  synced fuel props st
  <-> hasFilter st = false
      /\ ancestor_closed (children props) (openNodes st) = true
      /\ nodesToRender st = List.filter (renderable (openNodes st)) (children props).
Proof.
  unfold in_sync. split.
  - intros (Hf & Hac & Hr). rewrite recompute_unfiltered in Hr by done.
    injection Hr as Hr. done.
  - intros (Hf & Hac & Hr). rewrite recompute_unfiltered by done.
    by rewrite Hr.
Qed.
End Recompute.

Lemma augmentRenderNodes_fields (props : Props) (u : Z)
      (include exclude : list NavigatorFlatItem) (st : State) :
  let st' := augmentRenderNodes props u include exclude st in
  openNodes st' = openNodes st
  /\ hasFilter st' = hasFilter st
  /\ nodesToRender st'
     = match include, exclude with
       | _ :: _, _ =>
           splice (findIndex (fun n => Z.eqb (uid n) u) (nodesToRender st) + 1)
                  include (nodesToRender st)
       | [], _ :: _ =>
           List.filter (fun item => negb (has exclude item)) (nodesToRender st)
       | [], [] => nodesToRender st
       end.
Proof. unfold augmentRenderNodes. by destruct include, exclude. Qed.

(** ** Toggling a rendered node in an unfiltered state *)

Section ToggleAt.
Variables (forest : list NavigatorTree) (props : Props) (fuel : nat).
Variables (l1 l2 : list NavigatorFlatItem) (par : ParentKey) (t : NavigatorTree).
Hypothesis Hinv : flat_tree_invariants forest (children props).
Hypothesis Hfuel : (length (children props) <= fuel)%nat.
Hypothesis Hsplit :
  children props
  = l1 ++ item par t :: flattenForest (ParentUID (root_uid t)) (subforest t) ++ l2.

Local Abbreviation n := (item par t).
Local Abbreviation sub := (flattenForest (ParentUID (root_uid t)) (subforest t)).
Local Abbreviation S := (list_to_set (map uid (item par t :: sub)) : gset Z).

(** Closing: what a recompute drops is what the patch removes. *)
Lemma renderable_close (o : gset Z) (c : NavigatorFlatItem) :
  c ∈ children props ->
  renderable (o ∖ S) c = renderable o c && negb (has sub c).
Proof.
  intros Hc. unfold renderable, has. destruct (parent c) as [|p] eqn:Hp.
  - simpl. symmetry. apply negb_true_iff, bool_decide_eq_false.
    intros Hin. by apply (sub_not_top par t c Hin).
  - rewrite <- bool_decide_not, <- bool_decide_and. apply bool_decide_ext.
    rewrite elem_of_difference.
    rewrite (subtree_uids par t).
    split; intros [Ho Hn]; (split; [done|]).
    + intros Hin. apply Hn.
      destruct (sub_parent par t c Hin) as (m & Hm & Hpm).
      exists m. split; [done|]. congruence.
    + intros (m & Hm & Hu). apply Hn.
      apply (child_in_sub forest (children props) l1 l2 par t Hinv Hsplit c m);
        [done|done|]. by rewrite Hu.
Qed.

Lemma ancestor_closed_close (o : gset Z) :
  ancestor_closed (children props) o = true ->
  ancestor_closed (children props) (o ∖ S) = true.
Proof.
  rewrite !ancestor_closed_spec. intros Hac c Hc Hu.
  apply elem_of_difference in Hu as [Ho Hn].
  rewrite renderable_close by done. rewrite (Hac c Hc Ho). simpl.
  apply negb_true_iff, bool_decide_eq_false. intros Hin. apply Hn.
  apply (subtree_uids par t).
  exists c. split; [by right|done].
Qed.

(** Outside the subtree nothing hangs under a node of the subtree. *)
Lemma renderable_outside (o : gset Z) (c : NavigatorFlatItem) :
  c ∈ l1 \/ c ∈ l2 -> renderable (o ∪ S) c = renderable o c.
Proof.
  intros Hc. unfold renderable. destruct (parent c) as [|p] eqn:Hp; [done|].
  apply bool_decide_ext. rewrite elem_of_union.
  split; [intros [Ho|Hs]; [done|]|by left]. exfalso.
  apply (subtree_uids par t) in Hs as (m & Hm & Hu).
  apply (outside_subtree forest (children props) l1 l2 par t Hinv Hsplit c Hc).
  right.
  apply (child_in_sub forest (children props) l1 l2 par t Hinv Hsplit c m);
    [|done|by rewrite Hu].
  apply (children_cases (children props) l1 l2 par t Hsplit). tauto.
Qed.

Lemma renderable_outside_one (o : gset Z) (c : NavigatorFlatItem) :
  c ∈ l1 \/ c ∈ l2 -> renderable ({[uid n]} ∪ o) c = renderable o c.
Proof.
  intros Hc. unfold renderable. destruct (parent c) as [|p] eqn:Hp; [done|].
  apply bool_decide_ext. rewrite elem_of_union, elem_of_singleton.
  split; [intros [->|Ho]; [|done]|by right]. exfalso.
  apply (outside_subtree forest (children props) l1 l2 par t Hinv Hsplit c Hc).
  right.
  apply (child_in_sub forest (children props) l1 l2 par t Hinv Hsplit c n);
    [|by left|done].
  apply (children_cases (children props) l1 l2 par t Hsplit). tauto.
Qed.

(** The rendered list around a closed node: nothing of its subtree. *)
Lemma rendered_around_closed (o : gset Z) :
  ancestor_closed (children props) o = true ->
  renderable o n = true -> uid n ∉ o ->
  List.filter (renderable o) (children props)
  = List.filter (renderable o) l1 ++ n :: List.filter (renderable o) l2.
Proof.
  intros Hac Hn Hclosed. rewrite Hsplit at 1.
  rewrite List.filter_app. simpl. rewrite Hn, List.filter_app.
  rewrite (filter_none _ sub); [done|]. intros c Hc.
  destruct (sub_parent par t c Hc) as (m & Hm & Hp).
  unfold renderable. rewrite Hp. apply bool_decide_eq_false.
  apply elem_of_cons in Hm as [->|Hm]; [done|].
  by apply (closed_subtree (children props) l1 l2 par t Hsplit o).
Qed.

Lemma findIndex_node (o : gset Z) (r : list NavigatorFlatItem) :
  findIndex (fun x => Z.eqb (uid x) (uid n)) (List.filter (renderable o) l1 ++ n :: r)
  = Z.of_nat (length (List.filter (renderable o) l1)).
Proof.
  apply findIndex_app; [|apply Z.eqb_refl].
  intros y Hy. apply elem_of_filter_bool in Hy as [Hy _].
  apply Z.eqb_neq. intros Hu.
  apply (outside_subtree forest (children props) l1 l2 par t Hinv Hsplit y);
    [by left|].
  apply elem_of_cons. left. destruct Hinv as [_ Hnd].
  apply (uid_inj_NoDup (children props)); [done| | |done].
  - apply (children_cases (children props) l1 l2 par t Hsplit). tauto.
  - by apply (node_in_children (children props) l1 l2 par t).
Qed.

Lemma augment_exclude (u : Z) (exclude : list NavigatorFlatItem) (st : State) :
  nodesToRender (augmentRenderNodes props u [] exclude st)
  = List.filter (fun c => negb (has exclude c)) (nodesToRender st).
Proof.
  destruct (augmentRenderNodes_fields props u [] exclude st) as (_ & _ & ->).
  destruct exclude; [|done]. symmetry. apply filter_all. intros c _.
  unfold has. apply negb_true_iff, bool_decide_eq_false. apply not_elem_of_nil.
Qed.

Lemma augment_include (o : gset Z) (include r : list NavigatorFlatItem) (st : State) :
  nodesToRender st = List.filter (renderable o) l1 ++ n :: r ->
  nodesToRender (augmentRenderNodes props (uid n) include [] st)
  = List.filter (renderable o) l1 ++ n :: include ++ r.
Proof.
  intros Hnodes.
  destruct (augmentRenderNodes_fields props (uid n) include [] st) as (_ & _ & ->).
  destruct include as [|x include]; [done|].
  rewrite Hnodes, findIndex_node. apply splice_after.
Qed.

(** Closing the node, by [toggle] or by [toggleFullTree]. *)
Lemma close_at (st : State) :
  nodesToRender st = List.filter (renderable (openNodes st)) (children props) ->
  let st' := augmentRenderNodes props (uid n) [] sub
               (set_openNodes (openNodes st ∖ S) st) in
  hasFilter st' = hasFilter st
  /\ openNodes st' = openNodes st ∖ S
  /\ nodesToRender st'
     = List.filter (renderable (openNodes st ∖ S)) (children props).
Proof.
  intros Hnodes st'. subst st'.
  rewrite augment_exclude.
  destruct (augmentRenderNodes_fields props (uid n) [] sub
              (set_openNodes (openNodes st ∖ S) st)) as (-> & -> & _).
  split; [done|split; [done|]]. simpl. rewrite Hnodes, filter_filter_andb.
  apply filter_ext_elem_of. intros c Hc. by rewrite renderable_close.
Qed.

(** Opening the closed node with [toggle]. *)
Lemma open_at (st : State) :
  ancestor_closed (children props) (openNodes st) = true ->
  nodesToRender st = List.filter (renderable (openNodes st)) (children props) ->
  renderable (openNodes st) n = true -> uid n ∉ openNodes st ->
  let st' := augmentRenderNodes props (uid n)
               (map (item (ParentUID (root_uid t))) (subforest t)) []
               (set_openNodes ({[uid n]} ∪ openNodes st) st) in
  hasFilter st' = hasFilter st
  /\ openNodes st' = {[uid n]} ∪ openNodes st
  /\ nodesToRender st'
     = List.filter (renderable ({[uid n]} ∪ openNodes st)) (children props)
  /\ ancestor_closed (children props) ({[uid n]} ∪ openNodes st) = true.
Proof.
  intros Hac Hnodes Hn Hclosed st'. subst st'.
  rewrite (augment_include (openNodes st) _ (List.filter (renderable (openNodes st)) l2)).
  2:{ simpl. rewrite Hnodes. by apply rendered_around_closed. }
  destruct (augmentRenderNodes_fields props (uid n)
              (map (item (ParentUID (root_uid t))) (subforest t)) []
              (set_openNodes ({[uid n]} ∪ openNodes st) st)) as (-> & -> & _).
  split; [done|split; [done|split]].
  - rewrite Hsplit at 1. rewrite List.filter_app. simpl.
    rewrite (renderable_mono (openNodes st) _ n) by (done || apply union_subseteq_r).
    rewrite List.filter_app.
    rewrite (filter_ext_elem_of (renderable ({[uid n]} ∪ openNodes st))
               (renderable (openNodes st)) l1)
      by (intros c Hc; apply renderable_outside_one; by left).
    rewrite (filter_ext_elem_of (renderable ({[uid n]} ∪ openNodes st))
               (renderable (openNodes st)) l2)
      by (intros c Hc; apply renderable_outside_one; by right).
    rewrite filter_roots; [done| |].
    + intros c Hp. unfold renderable. rewrite Hp. apply bool_decide_eq_true.
      rewrite uid_item. apply elem_of_union. left. by apply elem_of_singleton.
    + intros c m Hm Hp. unfold renderable. rewrite Hp. apply bool_decide_eq_false.
      rewrite elem_of_union, elem_of_singleton. intros [Hu|Ho].
      * apply (node_not_in_sub forest (children props) l1 l2 par t Hinv Hsplit).
        assert (m = n) as <-; [|done]. destruct Hinv as [_ Hnd].
        apply (uid_inj_NoDup (children props)); [done| | |done].
        -- by apply (sub_in_children (children props) l1 l2 par t Hsplit).
        -- by apply (node_in_children (children props) l1 l2 par t).
      * by apply (closed_subtree (children props) l1 l2 par t Hsplit
                    (openNodes st) Hac Hclosed m).
  - apply ancestor_closed_spec. intros c Hc Hu.
    apply elem_of_union in Hu as [Hu|Hu].
    + apply elem_of_singleton in Hu.
      assert (c = n) as ->.
      { destruct Hinv as [_ Hnd].
        apply (uid_inj_NoDup (children props)); [done|done| |done].
        by apply (node_in_children (children props) l1 l2 par t). }
      apply (renderable_mono (openNodes st)); [apply union_subseteq_r|done].
    + apply (renderable_mono (openNodes st)); [apply union_subseteq_r|].
      by apply (proj1 (ancestor_closed_spec _ _) Hac).
Qed.

(** Opening the whole subtree of the closed node with [toggleFullTree]. *)
Lemma open_full_at (st : State) :
  ancestor_closed (children props) (openNodes st) = true ->
  nodesToRender st = List.filter (renderable (openNodes st)) (children props) ->
  renderable (openNodes st) n = true -> uid n ∉ openNodes st ->
  let st' := augmentRenderNodes props (uid n) sub []
               (set_openNodes (openNodes st ∪ S) st) in
  hasFilter st' = hasFilter st
  /\ openNodes st' = openNodes st ∪ S
  /\ nodesToRender st' = List.filter (renderable (openNodes st ∪ S)) (children props)
  /\ ancestor_closed (children props) (openNodes st ∪ S) = true.
Proof.
  intros Hac Hnodes Hn Hclosed st'. subst st'.
  rewrite (augment_include (openNodes st) _ (List.filter (renderable (openNodes st)) l2)).
  2:{ simpl. rewrite Hnodes. by apply rendered_around_closed. }
  destruct (augmentRenderNodes_fields props (uid n) sub []
              (set_openNodes (openNodes st ∪ S) st)) as (-> & -> & _).
  assert (forall c, c ∈ sub -> renderable (openNodes st ∪ S) c = true) as Hsub.
  { intros c Hc. destruct (sub_parent par t c Hc) as (m & Hm & Hp).
    unfold renderable. rewrite Hp. apply bool_decide_eq_true.
    apply elem_of_union. right. apply (subtree_uids par t). by exists m. }
  split; [done|split; [done|split]].
  - pose proof (fun c H => renderable_outside (openNodes st) c (or_introl H)) as H1.
    pose proof (fun c H => renderable_outside (openNodes st) c (or_intror H)) as H2.
    assert (renderable (openNodes st ∪ S) n = true) as Hn'
      by (apply (renderable_mono (openNodes st)); [apply union_subseteq_l|done]).
    revert Hsub H1 H2 Hn'. generalize (openNodes st ∪ S) as o'.
    intros o' Hsub H1 H2 Hn'.
    rewrite Hsplit at 1. rewrite List.filter_app. simpl.
    rewrite Hn', List.filter_app.
    rewrite (filter_ext_elem_of (renderable o') (renderable (openNodes st)) l1)
      by done.
    rewrite (filter_ext_elem_of (renderable o') (renderable (openNodes st)) l2)
      by done.
    by rewrite (filter_all _ sub).
  - apply ancestor_closed_spec. intros c Hc Hu.
    apply elem_of_union in Hu as [Hu|Hu].
    + apply (renderable_mono (openNodes st)); [apply union_subseteq_l|].
      by apply (proj1 (ancestor_closed_spec _ _) Hac).
    + apply (subtree_uid_inv forest (children props) l1 l2 par t Hinv Hsplit c Hc)
        in Hu.
      apply elem_of_cons in Hu as [->|Hu]; [|by apply Hsub].
      apply (renderable_mono (openNodes st)); [apply union_subseteq_l|done].
Qed.

Lemma getAllChildren_at :
  getAllChildren (childrenMap (children props)) fuel (uid n) = Done (n :: sub).
Proof.
  rewrite uid_item.
  by apply (getAllChildren_subtree forest (children props) l1 l2 par t fuel).
Qed.
End ToggleAt.

Section ToggleResult.
Variables (forest : list NavigatorTree) (props : Props) (fuel : nat).
Variables (l1 l2 : list NavigatorFlatItem) (par : ParentKey) (t : NavigatorTree).
Hypothesis Hinv : flat_tree_invariants forest (children props).
Hypothesis Hfuel : (length (children props) <= fuel)%nat.
Hypothesis Hsplit :
  children props
  = l1 ++ item par t :: flattenForest (ParentUID (root_uid t)) (subforest t) ++ l2.

Local Abbreviation n := (item par t).
Local Abbreviation sub := (flattenForest (ParentUID (root_uid t)) (subforest t)).
Local Abbreviation S := (list_to_set (map uid (item par t :: sub)) : gset Z).

(** What the unfiltered invariants say of a state and of its open set. *)
Local Abbreviation tidy st o :=
  (hasFilter st = false
   /\ openNodes st = o
   /\ ancestor_closed (children props) o = true
   /\ nodesToRender st = List.filter (renderable o) (children props)).

Lemma toggle_at (st : State) :
  tidy st (openNodes st) -> renderable (openNodes st) n = true ->
  exists st',
    toggle fuel props n st = Done st'
    /\ tidy st' (if bool_decide (uid n ∈ openNodes st)
                 then openNodes st ∖ S else {[uid n]} ∪ openNodes st).
Proof.
  intros (Hf & _ & Hac & Hnodes) Hn. unfold toggle.
  destruct (bool_decide (uid n ∈ openNodes st)) eqn:Hopen.
  - rewrite (getAllChildren_at forest props fuel l1 l2 par t Hinv Hfuel Hsplit).
    eexists. split; [reflexivity|].
    destruct (close_at forest props l1 l2 par t Hinv Hsplit st Hnodes)
      as (H1 & H2 & H3).
    split; [exact (eq_trans H1 Hf)|split; [exact H2|split; [|exact H3]]].
    by apply (ancestor_closed_close forest props l1 l2 par t Hinv Hsplit).
  - apply bool_decide_eq_false in Hopen.
    rewrite (included_children forest (children props) l1 l2 par t Hinv Hsplit).
    eexists. split; [reflexivity|].
    destruct (open_at forest props l1 l2 par t Hinv Hsplit st
                Hac Hnodes Hn Hopen) as (H1 & H2 & H3 & H4).
    split; [exact (eq_trans H1 Hf)|split; [exact H2|split; [exact H4|exact H3]]].
Qed.

Lemma toggleFullTree_at (st : State) :
  tidy st (openNodes st) -> renderable (openNodes st) n = true ->
  exists st',
    toggleFullTree fuel props n st = Done st'
    /\ tidy st' (if bool_decide (uid n ∈ openNodes st)
                 then openNodes st ∖ S else openNodes st ∪ S).
Proof.
  intros (Hf & _ & Hac & Hnodes) Hn. unfold toggleFullTree.
  rewrite (getAllChildren_at forest props fuel l1 l2 par t Hinv Hfuel Hsplit).
  destruct (bool_decide (uid n ∈ openNodes st)) eqn:Hopen.
  - eexists. split; [reflexivity|].
    destruct (close_at forest props l1 l2 par t Hinv Hsplit st Hnodes)
      as (H1 & H2 & H3).
    split; [exact (eq_trans H1 Hf)|split; [exact H2|split; [|exact H3]]].
    by apply (ancestor_closed_close forest props l1 l2 par t Hinv Hsplit).
  - apply bool_decide_eq_false in Hopen.
    eexists. split; [reflexivity|].
    destruct (open_full_at forest props l1 l2 par t Hinv Hsplit st
                Hac Hnodes Hn Hopen) as (H1 & H2 & H3 & H4).
    split; [exact (eq_trans H1 Hf)|split; [exact H2|split; [exact H4|exact H3]]].
Qed.
End ToggleResult.

(** ** Patching against recomputing *)

Section PatchVersusRecompute.
Variable regex_search : string -> bool -> string -> nat -> option nat.
Variable safeHighlightPattern : string -> string.
Variables (forest : list NavigatorTree) (props : Props) (fuel : nat).
Hypothesis Hinv : flat_tree_invariants forest (children props).
Hypothesis Hfuel : (length (children props) <= fuel)%nat.

Local Abbreviation synced := (in_sync regex_search safeHighlightPattern fuel props).
Local Abbreviation recomputed := (recompute regex_search safeHighlightPattern fuel props).
Local Abbreviation sub_of t := (flattenForest (ParentUID (root_uid t)) (subforest t)).

Lemma rendered_split (st : State) (node : NavigatorFlatItem) :
  nodesToRender st = List.filter (renderable (openNodes st)) (children props) ->
  node ∈ nodesToRender st ->
  renderable (openNodes st) node = true
  /\ exists par t l1 l2,
       children props
       = l1 ++ item par t
            :: flattenForest (ParentUID (root_uid t)) (subforest t) ++ l2
       /\ node = item par t.
Proof.
  intros Hnodes Hin. rewrite Hnodes in Hin.
  apply elem_of_filter_bool in Hin as [Hin Hr]. split; [done|].
  destruct Hinv as [Heq _]. rewrite Heq in Hin.
  destruct (flattenForest_split _ _ _ Hin) as (par & t & l1 & l2 & Hs & ->).
  exists par, t, l1, l2. by rewrite Heq.
Qed.

Lemma perform_in_sync (g : Gesture) (st : State) :
  synced st -> has (nodesToRender st) (gesture_node g) = true ->
  exists st', perform fuel props g st = Done st' /\ synced st'.
Proof.
  intros Hs Hin. apply in_sync_unfold in Hs as (Hf & Hac & Hnodes).
  apply bool_decide_eq_true in Hin.
  destruct (rendered_split st _ Hnodes Hin)
    as (Hr & par & t & l1 & l2 & Hsplit & Hg).
  destruct g as [node|node]; simpl in *; subst node.
  - destruct (toggle_at forest props fuel l1 l2 par t Hinv Hfuel Hsplit st)
      as (st' & Ht & Hf' & Ho' & Hac' & Hn'); [done|done|].
    exists st'. split; [done|]. apply in_sync_unfold. by rewrite Ho'.
  - destruct (toggleFullTree_at forest props fuel l1 l2 par t Hinv Hfuel Hsplit st)
      as (st' & Ht & Hf' & Ho' & Hac' & Hn'); [done|done|].
    exists st'. split; [done|]. apply in_sync_unfold. by rewrite Ho'.
Qed.

Lemma perform_all_in_sync (gs : list Gesture) :
  forall st,
    synced st -> on_rendered fuel props gs st = true ->
    exists st', perform_all fuel props gs st = Done st' /\ synced st'.
Proof.
  induction gs as [|g gs IH]; intros st Hs Hon; simpl in *.
  - by exists st.
  - apply andb_true_iff in Hon as [Hin Hon].
    destruct (perform_in_sync g st Hs Hin) as (st1 & Hp & Hs1).
    rewrite Hp in Hon |- *. simpl. by apply IH.
Qed.

(** C1, as the code has it.  In an unfiltered state whose rendered list
    is the recomputed one and whose open nodes are closed under parents,
    any sequence of [toggle] and [toggleFullTree] gestures, each made on
    an item rendered at that moment, runs to its end and leaves a
    rendered list equal to the one a full recompute yields from the
    resulting open nodes. *)
Theorem patch_equals_recompute (gs : list Gesture) (st : State) :
  synced st -> on_rendered fuel props gs st = true ->
  exists st',
    perform_all fuel props gs st = Done st'
    /\ recomputed st' = Done (nodesToRender st').
Proof.
  intros Hs Hon.
  destruct (perform_all_in_sync gs st Hs Hon) as (st' & Hp & (_ & _ & Hr)).
  by exists st'.
Qed.

(** C4, as the code has it.  In such a state, toggling a rendered node
    none of whose children is open (which holds for every closed node)
    twice in a row restores the open nodes and the rendered list. *)
Theorem toggle_twice (st : State) (node : NavigatorFlatItem) :
  synced st -> node ∈ nodesToRender st ->
  no_open_child (children props) (openNodes st) node = true ->
  exists s1 s2,
    toggle fuel props node st = Done s1
    /\ toggle fuel props node s1 = Done s2
    /\ openNodes s2 = openNodes st
    /\ nodesToRender s2 = nodesToRender st.
Proof.
  intros Hs Hin Hkids. apply in_sync_unfold in Hs as (Hf & Hac & Hnodes).
  destruct (rendered_split st _ Hnodes Hin)
    as (Hr & par & t & l1 & l2 & Hsplit & ->).
  assert (forall c, c ∈ flattenForest (ParentUID (root_uid t)) (subforest t) ->
                    uid c ∉ openNodes st) as Hsub.
  { apply (closed_forest (children props) (openNodes st) Hac).
    - apply (sub_in_children (children props) l1 l2 par t Hsplit).
    - intros k Hk. unfold no_open_child in Hkids. rewrite forallb_forall in Hkids.
      assert (item (ParentUID (root_uid t)) k ∈ children props) as Hin'.
      { apply (sub_in_children (children props) l1 l2 par t Hsplit).
        by apply item_in_flattenForest. }
      apply list_elem_of_In in Hin'. specialize (Hkids _ Hin').
      rewrite parent_item, !uid_item in Hkids.
      rewrite bool_decide_eq_true_2 in Hkids by done. simpl in Hkids.
      by apply negb_true_iff, bool_decide_eq_false in Hkids. }
  assert (forall x, x ∈ (list_to_set (map uid ((item par t) :: (sub_of t))) : gset Z) ->
                    x ∈ openNodes st -> x = uid (item par t)) as Honly.
  { intros x (m & Hm & <-)%subtree_uids Ho.
    apply elem_of_cons in Hm as [->|Hm]; [done|]. by destruct (Hsub m Hm). }
  assert (uid (item par t) ∈ (list_to_set (map uid ((item par t) :: (sub_of t))) : gset Z)) as HnS.
  { apply subtree_uids. exists (item par t). split; [by left|done]. }
  destruct (toggle_at forest props fuel l1 l2 par t Hinv Hfuel Hsplit st)
    as (s1 & Ht1 & Hf1 & Ho1 & Hac1 & Hn1); [done|done|].
  assert (renderable (openNodes s1) (item par t) = true) as Hr1.
  { rewrite Ho1. destruct (bool_decide (uid (item par t) ∈ openNodes st)); cbv iota.
    - rewrite (renderable_close forest props l1 l2 par t Hinv Hsplit)
        by by apply (node_in_children (children props) l1 l2 par t).
      rewrite Hr. simpl. apply negb_true_iff, bool_decide_eq_false.
      apply (node_not_in_sub forest (children props) l1 l2 par t Hinv Hsplit).
    - apply (renderable_mono (openNodes st)); [apply union_subseteq_r|done]. }
  destruct (toggle_at forest props fuel l1 l2 par t Hinv Hfuel Hsplit s1)
    as (s2 & Ht2 & Hf2 & Ho2 & Hac2 & Hn2);
    [split; [done|split; [done|split; by rewrite Ho1]]|done|].
  exists s1, s2. split; [done|split; [done|]].
  assert (openNodes s2 = openNodes st) as Heq.
  { rewrite Ho2, Ho1. destruct (decide (uid (item par t) ∈ openNodes st)) as [Hopen|Hopen].
    - rewrite (bool_decide_eq_true_2 _ Hopen).
      rewrite bool_decide_eq_false_2 by (by intros [_ Hx]%elem_of_difference).
      apply set_eq. intros x. rewrite elem_of_union, elem_of_singleton,
        elem_of_difference. split.
      + intros [->|[Ho _]]; done.
      + intros Ho. destruct (decide (x = uid (item par t))) as [->|Hne]; [by left|].
        right. split; [done|]. intros Hx. by apply Hne, Honly.
    - rewrite (bool_decide_eq_false_2 _ Hopen).
      rewrite bool_decide_eq_true_2
        by (apply elem_of_union; left; by apply elem_of_singleton).
      apply set_eq. intros x. rewrite elem_of_difference, elem_of_union,
        elem_of_singleton. split.
      + intros [[->|Ho] Hx]; done.
      + intros Ho. split; [by right|]. intros Hx.
        apply Hopen. by rewrite <- (Honly x Hx Ho). }
  split; [done|]. by rewrite Hn2, <- Ho2, Heq, <- Hnodes.
Qed.
End PatchVersusRecompute.

(** ** Ancestor chains *)

Lemma ancestor_or_self_inv (cm : gmap Z NavigatorFlatItem) (a n : NavigatorFlatItem) :
  ancestor_or_self cm a n
  <-> a = n
      \/ exists p m, parent n = ParentUID p /\ cm !! p = Some m
                     /\ ancestor_or_self cm a m.
Proof.
  split.
  - intros H. inversion H as [|? ? p m Hp Hm Ha]; subst; [by left|].
    right. by exists p, m.
  - intros [->|(p & m & Hp & Hm & Ha)]; [constructor|].
    by apply (aos_parent cm a n p m).
Qed.

(** What [getParents] returns for a uid: the parent chain of the node
    filed under it, outermost first, the node itself last. *)
Lemma getParents_loop_sound (cm : gmap Z NavigatorFlatItem) :
  (forall u n, cm !! u = Some n -> parent n <> ParentUID 0) ->
  forall fuel u arr res,
    getParents_loop cm fuel [u] arr = Done res ->
    exists n chain,
      cm !! u = Some n /\ res = chain ++ n :: arr
      /\ forall a, a ∈ chain ++ [n] <-> ancestor_or_self cm a n.
Proof.
  intros Hnz fuel. induction fuel as [|fuel IH]; intros u arr res H; [done|].
  simpl in H. destruct (cm !! u) as [n|] eqn:Hn; [|done].
  exists n. unfold parent_to_follow in H.
  destruct (parent n) as [|p] eqn:Hp.
  - exists []. split; [done|]. destruct fuel; injection H as <-.
    all: split; [done|]; intros a; rewrite ancestor_or_self_inv; simpl;
      rewrite list_elem_of_singleton; split; [by left|];
      intros [->|(p & m & Hp' & _)]; [done|congruence].
  - destruct (Z.eqb_spec p 0) as [->|Hne]; [by destruct (Hnz u n Hn)|].
    destruct (IH p (n :: arr) res H) as (m & chain & Hm & -> & Hchain).
    exists (chain ++ [m]). split; [done|]. split; [by rewrite <- app_assoc|].
    intros a. rewrite elem_of_app, list_elem_of_singleton, Hchain.
    rewrite (ancestor_or_self_inv cm a n). split.
    + intros [Ha| ->]; [right; by exists p, m|by left].
    + intros [->|(p' & m' & Hp' & Hm' & Ha)]; [by right|].
      left. congruence.
Qed.

(** Whatever [getParents] returns holds values of the store only. *)
Lemma getParents_loop_values (cm : gmap Z NavigatorFlatItem) :
  forall fuel stack arr res,
    getParents_loop cm fuel stack arr = Done res ->
    forall a, a ∈ res -> a ∈ arr \/ exists u, cm !! u = Some a.
Proof.
  intros fuel. induction fuel as [|fuel IH]; intros stack arr res H a Ha.
  - destruct stack; [|done]. injection H as <-. by left.
  - destruct stack as [|u stack]; [injection H as <-; by left|].
    simpl in H. destruct (cm !! u) as [n|] eqn:Hn; [|done].
    destruct (IH _ _ _ H a Ha) as [Hin|Hex]; [|by right].
    apply elem_of_cons in Hin as [->|Hin]; [right; by exists u|by left].
Qed.

Lemma mapM_outcome_Done {A B : Type} (f : A -> outcome B) (l : list A) :
  (forall x, x ∈ l -> exists y, f x = Done y) ->
  exists ys, mapM f l = Done ys
             /\ forall b, b ∈ ys <-> exists x, x ∈ l /\ f x = Done b.
Proof.
  induction l as [|x l IH]; intros H.
  - exists []. split; [done|]. intros b. split.
    + intros Hb. by apply elem_of_nil in Hb.
    + intros (x & Hx & _). by apply elem_of_nil in Hx.
  - destruct (H x) as [y Hy]; [by left|].
    destruct IH as (ys & Hys & Hchar); [intros z Hz; apply H; by right|].
    exists (y :: ys). split.
    + simpl. rewrite Hy. simpl. rewrite Hys. done.
    + intros b. rewrite elem_of_cons, Hchar. split.
      * intros [->|(z & Hz & Hb)]; [exists x; split; [by left|done]|].
        exists z. split; [by right|done].
      * intros (z & Hz & Hb). apply elem_of_cons in Hz as [->|Hz].
        -- left. congruence.
        -- right. by exists z.
Qed.

Lemma filter_sublist {A : Type} (f : A -> bool) (l : list A) :
  sublist (List.filter f l) l.
Proof.
  induction l as [|x l IH]; simpl; [constructor|].
  destruct (f x); by constructor.
Qed.

Lemma no_falsy_parent_spec (children : list NavigatorFlatItem) :
  no_falsy_parent children = true ->
  forall u n, childrenMap children !! u = Some n -> parent n <> ParentUID 0.
Proof.
  unfold no_falsy_parent. rewrite forallb_forall. intros H u n Hn.
  apply childrenMap_lookup_Some in Hn as [Hin _]. apply list_elem_of_In in Hin.
  specialize (H n Hin). by apply negb_true_iff, bool_decide_eq_false in H.
Qed.

(** ** The filtered recompute *)

Section Filtered.
Variable regex_search : string -> bool -> string -> nat -> option nat.
Variable safeHighlightPattern : string -> string.
Variables (forest : list NavigatorTree) (props : Props) (fuel : nat).
Hypothesis Hinv : flat_tree_invariants forest (children props).
Hypothesis Hfuel : (length (children props) <= fuel)%nat.

Local Abbreviation cm := (childrenMap (children props)).
Local Abbreviation filtered := (filteredChildren regex_search safeHighlightPattern props).
Local Abbreviation generate := (generateNodesToRender regex_search safeHighlightPattern).

Lemma getParents_chain (m : NavigatorFlatItem) :
  m ∈ children props ->
  exists chain,
    getParents cm fuel (uid m) = Done (chain ++ [m])
    /\ (forall a, a ∈ chain ++ [m] -> a ∈ children props)
    /\ (no_falsy_parent (children props) = true ->
        forall a, a ∈ chain ++ [m] <-> ancestor_or_self cm a m).
Proof.
  intros Hm. destruct Hinv as [Heq Hnd].
  destruct (getParents_terminates forest (children props) m fuel Hinv Hm Hfuel)
    as [res Hres].
  pose proof (childrenMap_lookup_NoDup _ _ Hnd Hm) as Hlook.
  assert (exists chain, res = chain ++ [m]) as [chain ->].
  { unfold getParents in Hres. destruct fuel as [|fuel']; [done|].
    rewrite getParents_loop_item in Hres by done.
    unfold getParents_above in Hres. destruct (parent m) as [|p].
    - injection Hres as <-. by exists [].
    - destruct (Z.eqb p 0); [injection Hres as <-; by exists []|].
      clear -Hres. revert Hres. generalize [m] as arr. generalize [p] as stack.
      induction fuel' as [|k IH]; intros stack arr H.
      + destruct stack; [|done]. injection H as <-. by exists [].
      + destruct stack as [|u stack]; [injection H as <-; by exists []|].
        simpl in H. destruct (childrenMap (children props) !! u) as [n|]; [|done].
        destruct (IH _ _ H) as [chain ->]. exists (chain ++ [n]).
        by rewrite <- app_assoc. }
  exists chain. split; [done|split].
  - intros a Ha.
    destruct (getParents_loop_values _ _ _ _ _ Hres a Ha) as [Hin|[u Hu]].
    + by apply elem_of_nil in Hin.
    + by apply childrenMap_lookup_Some in Hu as [? _].
  - intros Hnz.
    destruct (getParents_loop_sound cm (no_falsy_parent_spec _ Hnz) _ _ _ _ Hres)
      as (n & chain' & Hn & Hc & Hchar).
    rewrite Hlook in Hn. injection Hn as <-.
    apply app_inj_tail in Hc as [-> _]. exact Hchar.
Qed.

Lemma getParents_all (l : list NavigatorFlatItem) :
  (forall m, m ∈ l -> m ∈ children props) ->
  exists parents,
    mapM (fun n => getParents cm fuel (uid n)) l = Done parents
    /\ (forall a, a ∈ concat parents -> a ∈ children props)
    /\ (forall m, m ∈ l -> m ∈ concat parents)
    /\ (no_falsy_parent (children props) = true ->
        forall a, a ∈ concat parents
                  <-> exists m, m ∈ l /\ ancestor_or_self cm a m).
Proof.
  intros Hsub.
  destruct (mapM_outcome_Done (fun n => getParents cm fuel (uid n)) l)
    as (parents & Hp & Hchar).
  { intros m Hm. destruct (getParents_chain m (Hsub m Hm)) as (chain & Hc & _).
    by eexists. }
  assert (forall a, a ∈ concat parents
                    <-> exists m chain, m ∈ l /\ getParents cm fuel (uid m) = Done chain
                                        /\ a ∈ chain) as Hcat.
  { intros a. rewrite list_elem_of_In, in_concat. split.
    - intros (chain & Hin & Ha). apply list_elem_of_In, Hchar in Hin as (m & Hm & Hg).
      exists m, chain. split; [done|split; [done|by apply list_elem_of_In]].
    - intros (m & chain & Hm & Hg & Ha). exists chain.
      rewrite <- !list_elem_of_In. split; [|done]. apply Hchar. by exists m. }
  exists parents. split; [done|]. split; [|split].
  - intros a (m & chain & Hm & Hg & Ha)%Hcat.
    destruct (getParents_chain m (Hsub m Hm)) as (chain' & Hc & Hin & _).
    rewrite Hc in Hg. injection Hg as <-. by apply Hin.
  - intros m Hm. apply Hcat.
    destruct (getParents_chain m (Hsub m Hm)) as (chain & Hc & _).
    exists m, (chain ++ [m]). split; [done|split; [done|]].
    apply elem_of_app. right. by left.
  - intros Hnz a. rewrite Hcat. split.
    + intros (m & chain & Hm & Hg & Ha). exists m. split; [done|].
      destruct (getParents_chain m (Hsub m Hm)) as (chain' & Hc & _ & Hchar').
      rewrite Hc in Hg. injection Hg as <-. by apply Hchar'.
    + intros (m & Hm & Ha).
      destruct (getParents_chain m (Hsub m Hm)) as (chain & Hc & _ & Hchar').
      exists m, (chain ++ [m]). split; [done|split; [done|]]. by apply Hchar'.
Qed.

(** On a well-formed collection a recompute always ends, and touches
    nothing but the rendered list and the session store. *)
Lemma generateNodesToRender_Done (st : State) :
  exists l,
    generate fuel props st = Done (persistState props (set_nodesToRender l st))
    /\ forall a, a ∈ l -> a ∈ children props.
Proof.
  unfold generateNodesToRender.
  destruct (getParents_all (filtered st)) as (parents & -> & _).
  { apply filteredChildren_subset. }
  eexists. split; [reflexivity|]. intros a Ha.
  by apply elem_of_filter_bool in Ha as [? _].
Qed.

(** C2, as the code has it.  With a filter active, a recompute renders,
    in document order, exactly the nodes that are a direct match or lie on
    the parent chain of one, together with the nodes whose parent is open
    and is itself a direct match. *)
Theorem filtered_recompute_spec (st : State) :
  no_falsy_parent (children props) = true ->
  hasFilter st = true ->
  exists st',
    generate fuel props st = Done st'
    /\ sublist (nodesToRender st') (children props)
    /\ forall n,
         n ∈ nodesToRender st'
         <-> n ∈ children props
             /\ ((exists m, m ∈ filtered st /\ ancestor_or_self cm n m)
                 \/ exists p m, parent n = ParentUID p /\ p ∈ openNodes st
                                /\ cm !! p = Some m /\ m ∈ filtered st).
Proof.
  intros Hnz Hf. unfold generateNodesToRender.
  destruct (getParents_all (filtered st)) as (parents & -> & _ & _ & Hchar).
  { apply filteredChildren_subset. }
  specialize (Hchar Hnz). eexists. split; [reflexivity|]. simpl.
  split; [apply filter_sublist|]. intros n.
  rewrite elem_of_filter_bool. apply and_iff_compat_l.
  unfold shouldRender, has. rewrite Hf. simpl.
  rewrite !orb_true_iff, !andb_true_iff, !bool_decide_eq_true, Hchar.
  split.
  - intros [[[_ H]|[Hopen Hmatch]]|H]; [by left| |by left].
    right. destruct (parent n) as [|p]; [done|].
    apply bool_decide_eq_true in Hopen.
    destruct (cm !! p) as [m|] eqn:Hm; [|done].
    apply bool_decide_eq_true in Hmatch. by exists p, m.
  - intros [H|(p & m & Hp & Hopen & Hm & Hmatch)]; [by right|].
    left. right. rewrite Hp, Hm. split; by apply bool_decide_eq_true.
Qed.
End Filtered.

(** ** The open-state tracker *)

Lemma flat_tree_childUIDs_resolve (forest : list NavigatorTree)
      (children : list NavigatorFlatItem) :
  flat_tree_invariants forest children -> childUIDs_resolve children = true.
Proof.
  intros [Heq _]. unfold childUIDs_resolve. apply forallb_forall. intros n Hn.
  apply forallb_forall. intros u Hu. apply bool_decide_eq_true.
  apply list_elem_of_In in Hn, Hu. rewrite Heq in Hn.
  destruct (flattenForest_child _ _ _ _ Hn Hu) as (c & Hc & <- & _).
  apply childrenMap_is_Some. rewrite Heq. by apply list_elem_of_fmap_2.
Qed.

Lemma resolve_subset (children : list NavigatorFlatItem) (segments : list string) :
  forall candidates a,
    (forall c, c ∈ candidates -> c ∈ children) ->
    a ∈ resolve (childrenMap children) segments candidates -> a ∈ children.
Proof.
  induction segments as [|segment rest IH]; intros candidates a Hsub Ha; simpl in Ha.
  - by apply elem_of_nil in Ha.
  - destruct (List.find _ candidates) as [node|] eqn:Hfind.
    + apply List.find_some in Hfind as [Hin _]. apply list_elem_of_In in Hin.
      apply elem_of_cons in Ha as [->|Ha]; [by apply Hsub|].
      apply (IH _ a) in Ha; [done|]. intros c. apply elem_of_omap_lookup.
    + by apply elem_of_nil in Ha.
Qed.

Lemma known_uid (children : list NavigatorFlatItem) (a : NavigatorFlatItem) :
  a ∈ children -> is_Some (childrenMap children !! uid a).
Proof. intros Ha. apply childrenMap_is_Some. by apply list_elem_of_fmap_2. Qed.

Lemma join_refl (tags : list FILTER_TAGS.t) : String.eqb (join tags) (join tags) = true.
Proof. apply String.eqb_refl. Qed.

Section Tracker.
Variable regex_search : string -> bool -> string -> nat -> option nat.
Variable safeHighlightPattern : string -> string.
Variables (forest : list NavigatorTree) (props : Props) (fuel : nat).
Hypothesis Hinv : flat_tree_invariants forest (children props).
Hypothesis Hfuel : (length (children props) <= fuel)%nat.

Local Abbreviation cm := (childrenMap (children props)).
Local Abbreviation deps_of := (nodeChangeDeps regex_search safeHighlightPattern props).
Local Abbreviation track := (trackOpenNodes regex_search safeHighlightPattern fuel props).
Local Abbreviation restore :=
  (restorePersistedState regex_search safeHighlightPattern fuel props).

Lemma activePathChildren_Done :
  exists apc,
    activePathChildren (children props) (activePath props) = Done apc
    /\ apc = resolve cm (activePath props) (children props)
    /\ forall a, a ∈ apc -> a ∈ children props.
Proof.
  pose proof (activePathChildren_Done_resolve (children props) (activePath props)
                (flat_tree_childUIDs_resolve forest _ Hinv)) as H.
  eexists. split; [exact H|split; [done|]].
  intros a. by apply resolve_subset.
Qed.

Lemma nodeChangeDeps_Done (id : nat) (st : State) :
  exists deps,
    deps_of id st = Done deps
    /\ deps_activePathChildren deps = resolve cm (activePath props) (children props)
    /\ deps_filteredChildren deps
       = filteredChildren regex_search safeHighlightPattern props st
    /\ activePathChildren_id deps = id
    /\ deps_debouncedFilter deps = debouncedFilter st
    /\ deps_selectedTags deps = selectedTags st.
Proof.
  unfold nodeChangeDeps. destruct activePathChildren_Done as (apc & -> & -> & _).
  eexists. split; [reflexivity|]. done.
Qed.

(** The nodes whose uids a tracking run opens. *)
Lemma nodes_to_open (deps : NodeChangeDeps) (st : State) :
  (forall m, m ∈ deps_filteredChildren deps -> m ∈ children props) ->
  (forall a, a ∈ deps_activePathChildren deps -> a ∈ children props) ->
  exists nodes,
    (if negb (hasFilter st) then Done (deps_activePathChildren deps)
     else (fun parents => concat parents)
            <$> mapM (fun n => slice_0_m1 <$> getParents cm fuel (uid n))
                     (deps_filteredChildren deps))
    = Done nodes
    /\ (hasFilter st = false -> nodes = deps_activePathChildren deps)
    /\ forall a, a ∈ nodes -> a ∈ children props.
Proof.
  intros Hfc Hapc. destruct (hasFilter st); simpl.
  - destruct (mapM_outcome_Done
                (fun n => slice_0_m1 <$> getParents cm fuel (uid n))
                (deps_filteredChildren deps)) as (ps & -> & Hchar).
    { intros m Hm.
      destruct (getParents_chain forest props fuel Hinv Hfuel m (Hfc m Hm))
        as (chain & -> & _). by eexists. }
    eexists. split; [reflexivity|]. split; [done|].
    intros a Ha. apply list_elem_of_In, in_concat in Ha as (chain & Hin & Ha).
    apply list_elem_of_In, Hchar in Hin as (m & Hm & Hg).
    destruct (getParents_chain forest props fuel Hinv Hfuel m (Hfc m Hm))
      as (chain' & Hc & Hsub & _).
    rewrite Hc in Hg. simpl in Hg. injection Hg as <-.
    unfold slice_0_m1 in Ha. rewrite removelast_last in Ha.
    apply Hsub, elem_of_app. left. by apply list_elem_of_In.
  - eexists. split; [reflexivity|]. done.
Qed.

(** A tracking run always ends: it leaves the state alone when it skips,
    and otherwise opens the uids of its nodes, on top of the open nodes
    when the page changed, and recomputes. *)
Lemma trackOpenNodes_Done (deps : NodeChangeDeps) (before : option NodeChangeDeps)
      (st : State) :
  (forall m, m ∈ deps_filteredChildren deps -> m ∈ children props) ->
  (forall a, a ∈ deps_activePathChildren deps -> a ∈ children props) ->
  exists st',
    track deps before st = Done st'
    /\ (skipTracking deps before st = true /\ st' = st
        \/ skipTracking deps before st = false
           /\ exists nodes l,
               (hasFilter st = false -> nodes = deps_activePathChildren deps)
               /\ (forall a, a ∈ nodes -> a ∈ children props)
               /\ (forall a, a ∈ l -> a ∈ children props)
               /\ (hasFilter st = false ->
                   l = List.filter
                         (renderable
                            ((if pageChange deps before then openNodes st else ∅)
                               ∪ list_to_set (map uid nodes)))
                         (children props))
               /\ st' = persistState props
                          (set_nodesToRender l
                             (set_openNodes
                                ((if pageChange deps before then openNodes st else ∅)
                                   ∪ list_to_set (map uid nodes)) st))).
Proof.
  intros Hfc Hapc. unfold trackOpenNodes.
  destruct (skipTracking deps before st) eqn:Hskip.
  { exists st. split; [done|]. by left. }
  destruct (nodes_to_open deps st Hfc Hapc) as (nodes & -> & Hnodes & Hsub).
  simpl.
  destruct (generateNodesToRender_Done regex_search safeHighlightPattern
              forest props fuel Hinv Hfuel
              (set_openNodes
                 ((if pageChange deps before then openNodes st else ∅)
                    ∪ list_to_set (map uid nodes)) st)) as (l & Hg & Hl).
  eexists. split; [exact Hg|]. right. split; [done|].
  exists nodes, l. split; [done|split; [done|split; [done|split; [|done]]]].
  intros Hf.
  rewrite generateNodesToRender_unfiltered in Hg by done.
  injection Hg as Hg. done.
Qed.
End Tracker.

(** ** What tracking opens under a filter, and what a restore takes over *)

Section Ancestors.
Variables (forest : list NavigatorTree) (props : Props) (fuel : nat).
Hypothesis Hinv : flat_tree_invariants forest (children props).
Hypothesis Hfuel : (length (children props) <= fuel)%nat.

Local Abbreviation cm := (childrenMap (children props)).

(** What [getParents] returns in front of the node: the node's parent
    and what lies above it. *)
Lemma strict_chain (m : NavigatorFlatItem) :
  no_falsy_parent (children props) = true ->
  m ∈ children props ->
  exists above,
    getParents cm fuel (uid m) = Done (above ++ [m])
    /\ forall a, a ∈ above
                 <-> exists p pm, parent m = ParentUID p /\ cm !! p = Some pm
                                  /\ ancestor_or_self cm a pm.
Proof.
  intros Hnz Hm.
  destruct (getParents_chain forest props fuel Hinv Hfuel m Hm) as (above & Hg & _).
  exists above. split; [done|].
  pose proof Hinv as [_ Hnd].
  pose proof (childrenMap_lookup_NoDup _ _ Hnd Hm) as Hlook.
  unfold getParents in Hg. destruct fuel as [|fuel']; [done|].
  rewrite getParents_loop_item in Hg by done. unfold getParents_above in Hg.
  destruct (parent m) as [|p] eqn:Hp.
  - injection Hg as Hg. change [m] with ([] ++ [m]) in Hg.
    apply app_inj_tail in Hg as [<- _]. intros a. split.
    + intros Ha. by apply elem_of_nil in Ha.
    + by intros (p & pm & Hp' & _).
  - destruct (Z.eqb_spec p 0) as [->|Hne].
    { by destruct (no_falsy_parent_spec _ Hnz _ _ Hlook). }
    destruct (getParents_loop_sound cm (no_falsy_parent_spec _ Hnz) _ _ _ _ Hg)
      as (pm & chain & Hpm & Hres & Hchar).
    change (chain ++ pm :: [m]) with (chain ++ [pm] ++ [m]) in Hres.
    rewrite app_assoc in Hres. apply app_inj_tail in Hres as [-> _].
    intros a. rewrite Hchar. split.
    + intros Ha. by exists p, pm.
    + intros (p' & pm' & [= <-] & Hpm' & Ha). congruence.
Qed.

Lemma tracked_nodes (l : list NavigatorFlatItem) :
  no_falsy_parent (children props) = true ->
  (forall m, m ∈ l -> m ∈ children props) ->
  exists ps,
    mapM (fun n => slice_0_m1 <$> getParents cm fuel (uid n)) l = Done ps
    /\ forall a, a ∈ concat ps
                 <-> exists m p pm, m ∈ l /\ parent m = ParentUID p
                                    /\ cm !! p = Some pm
                                    /\ ancestor_or_self cm a pm.
Proof.
  intros Hnz Hsub.
  assert (forall m, m ∈ l ->
            exists above,
              slice_0_m1 <$> getParents cm fuel (uid m) = Done above
              /\ forall a, a ∈ above
                           <-> exists p pm, parent m = ParentUID p
                                            /\ cm !! p = Some pm
                                            /\ ancestor_or_self cm a pm) as Hone.
  { intros m Hm. destruct (strict_chain m Hnz (Hsub m Hm)) as (above & -> & Hchar).
    exists above. split; [|done]. simpl. unfold slice_0_m1.
    by rewrite removelast_last. }
  destruct (mapM_outcome_Done
              (fun n => slice_0_m1 <$> getParents cm fuel (uid n)) l)
    as (ps & Hps & Hchar).
  { intros m Hm. destruct (Hone m Hm) as (above & Ha & _). by exists above. }
  exists ps. split; [done|]. intros a.
  rewrite list_elem_of_In, in_concat. split.
  - intros (chain & Hin & Ha). apply list_elem_of_In, Hchar in Hin as (m & Hm & Hg).
    destruct (Hone m Hm) as (above & Ha' & Hab). rewrite Ha' in Hg.
    injection Hg as <-. apply list_elem_of_In, Hab in Ha as (p & pm & H).
    by exists m, p, pm.
  - intros (m & p & pm & Hm & Hp & Hpm & Ha).
    destruct (Hone m Hm) as (above & Ha' & Hab). exists above.
    rewrite <- !list_elem_of_In. split.
    + apply Hchar. by exists m.
    + apply Hab. by exists p, pm.
Qed.

End Ancestors.

Section Restore.
Variable regex_search : string -> bool -> string -> nat -> option nat.
Variable safeHighlightPattern : string -> string.
Variables (fuel : nat) (props : Props).

Local Abbreviation cm := (childrenMap (children props)).
Local Abbreviation restore :=
  (restorePersistedState regex_search safeHighlightPattern fuel props).
Local Abbreviation filtered := (filteredChildren regex_search safeHighlightPattern props).

Lemma restore_usable (id : nat) (storage : SessionStorage) :
  snapshot_usable props storage = true ->
  restore id (data storage)
  = Done {| filter_ := default "" (navigator_filter storage);
            debouncedFilter := default "" (navigator_filter storage);
            selectedTags := default [] (navigator_selectedTags storage);
            openNodes := list_to_set (default [] (navigator_openNodes storage));
            nodesToRender :=
              omap (fun u => cm !! u) (default [] (navigator_nodesToRender storage));
            sessionStorage := storage |}.
Proof.
  intros Hu. unfold snapshot_usable in Hu.
  apply andb_true_iff in Hu as [Hu Hall].
  apply andb_true_iff in Hu as [Hsome Htech].
  unfold restorePersistedState. cbn [data sessionStorage].
  replace (Nat.eqb (length (default [] (navigator_nodesToRender storage))) 0
           && negb (truthy (default "" (navigator_filter storage))))
    with false.
  2:{ symmetry. apply orb_true_iff in Hsome as [H|H].
      - apply negb_true_iff in H. by rewrite H.
      - rewrite H. apply andb_false_r. }
  by rewrite Htech, Hall.
Qed.


(** With tags selected and no filter text a node is a direct match when
    the tag of its type is one of the selected tags. *)
Lemma filteredChildren_tags_only (st : State) (node : NavigatorFlatItem) :
  debouncedFilter st = "" -> selectedTags st <> [] ->
  node ∈ filtered st
  <-> node ∈ children props
      /\ type node <> TopicTypes.groupMarker
      /\ exists tag, tag ∈ selectedTags st
                     /\ TOPIC_TYPE_TO_TAG (type node) = Some tag.
Proof.
  intros Hf Htags. rewrite filteredChildren_filter.
  assert (hasFilter st = true) as ->.
  { unfold hasFilter. rewrite Hf. by destruct (selectedTags st). }
  rewrite elem_of_filter_bool. apply and_iff_compat_l.
  unfold filterCallback, filterPattern. rewrite Hf. simpl.
  rewrite andb_true_iff, negb_true_iff, bool_decide_eq_false.
  destruct (selectedTags st) as [|t0 ts] eqn:E; [done|].
  destruct (TOPIC_TYPE_TO_TAG (type node)) as [tag|]; split.
  - intros [Hin Hty]. split; [done|]. exists tag. split; [|done].
    by apply bool_decide_eq_true in Hin.
  - intros (Hty & tag' & Hin & [= <-]). split; [|done].
    by apply bool_decide_eq_true.
  - by intros [? _].
  - by intros (_ & tag' & _ & ?).
Qed.
End Restore.

Lemma map_uid_omap_lookup (children : list NavigatorFlatItem) (l : list Z) :
  forallb (fun u => bool_decide (is_Some (childrenMap children !! u))) l = true ->
  map uid (omap (fun u => childrenMap children !! u) l) = l.
Proof.
  induction l as [|u l IH]; [done|]. simpl. intros [Hu Hl]%andb_true_iff.
  apply bool_decide_eq_true in Hu as [n Hn]. rewrite Hn. simpl.
  apply childrenMap_lookup_Some in Hn as [_ ->]. f_equal. by apply IH.
Qed.

Section Claims.
Variable regex_search : string -> bool -> string -> nat -> option nat.
Variable safeHighlightPattern : string -> string.
Variables (forest : list NavigatorTree) (props : Props) (fuel : nat).
Hypothesis Hinv : flat_tree_invariants forest (children props).
Hypothesis Hfuel : (length (children props) <= fuel)%nat.

Local Abbreviation cm := (childrenMap (children props)).
Local Abbreviation deps_of := (nodeChangeDeps regex_search safeHighlightPattern props).
Local Abbreviation track := (trackOpenNodes regex_search safeHighlightPattern fuel props).
Local Abbreviation restore :=
  (restorePersistedState regex_search safeHighlightPattern fuel props).
Local Abbreviation filtered := (filteredChildren regex_search safeHighlightPattern props).

Lemma track_computed (id : nat) (before : option NodeChangeDeps) (st : State) :
  exists deps st',
    deps_of id st = Done deps
    /\ deps_activePathChildren deps = resolve cm (activePath props) (children props)
    /\ activePathChildren_id deps = id
    /\ deps_debouncedFilter deps = debouncedFilter st
    /\ deps_selectedTags deps = selectedTags st
    /\ track deps before st = Done st'
    /\ (skipTracking deps before st = true /\ st' = st
        \/ skipTracking deps before st = false
           /\ exists nodes l,
               (hasFilter st = false -> nodes = deps_activePathChildren deps)
               /\ (forall a, a ∈ nodes -> a ∈ children props)
               /\ (forall a, a ∈ l -> a ∈ children props)
               /\ (hasFilter st = false ->
                   l = List.filter
                         (renderable
                            ((if pageChange deps before then openNodes st else ∅)
                               ∪ list_to_set (map uid nodes)))
                         (children props))
               /\ st' = persistState props
                          (set_nodesToRender l
                             (set_openNodes
                                ((if pageChange deps before then openNodes st else ∅)
                                   ∪ list_to_set (map uid nodes)) st))).
Proof.
  destruct (nodeChangeDeps_Done regex_search safeHighlightPattern forest props
              Hinv id st) as (deps & Hd & Hapc & Hfc & Hid & Hfilter & Htags).
  destruct (trackOpenNodes_Done regex_search safeHighlightPattern forest props fuel
              Hinv Hfuel deps before st) as (st' & Ht & Hcases).
  - rewrite Hfc. apply filteredChildren_subset.
  - rewrite Hapc. intros a. by apply resolve_subset.
  - exists deps, st'. done.
Qed.

(** C5, as the code has it.  When the page changes and the filter
    state stays, tracking is not skipped, runs to its end and only adds to
    the open nodes.  Without a filter it adds the uids of the resolved
    active path.  With a filter active it adds, instead, the uids of the
    parents of the direct matches and of the nodes above them, wherever
    the new active node is. *)
Theorem navigation_keeps_open_nodes (id : nat) (b deps : NodeChangeDeps) (st : State) :
  deps_of id st = Done deps ->
  activePathChildren_id b <> id ->
  deps_debouncedFilter b = debouncedFilter st ->
  deps_selectedTags b = selectedTags st ->
  exists st',
    track deps (Some b) st = Done st'
    /\ openNodes st ⊆ openNodes st'
    /\ (hasFilter st = false ->
        openNodes st'
        = openNodes st
            ∪ list_to_set
                (map uid (resolve cm (activePath props) (children props))))
    /\ (hasFilter st = true ->
        no_falsy_parent (children props) = true ->
        forall u,
          u ∈ openNodes st'
          <-> u ∈ openNodes st
              \/ exists m p pm a,
                   m ∈ filtered st /\ parent m = ParentUID p /\ cm !! p = Some pm
                   /\ ancestor_or_self cm a pm /\ uid a = u).
Proof.
  intros Hd Hid Hfilter Htags.
  destruct (nodeChangeDeps_Done regex_search safeHighlightPattern forest props
              Hinv id st) as (deps' & Hd' & Hapc & Hfc & Hid' & Hf' & Ht').
  rewrite Hd in Hd'. injection Hd' as <-.
  assert (skipTracking deps (Some b) st = false) as Hskip.
  { unfold skipTracking. simpl. rewrite Hf', Hfilter, Ht', Htags.
    rewrite bool_decide_eq_true_2 by done. by rewrite join_refl. }
  assert (pageChange deps (Some b) = true) as Hpage.
  { unfold pageChange. rewrite Hid'. by apply negb_true_iff, Nat.eqb_neq. }
  destruct (nodes_to_open forest props fuel Hinv Hfuel deps st)
    as (nodes & Hnodes & Hplain & _).
  { rewrite Hfc. apply filteredChildren_subset. }
  { rewrite Hapc. intros a. by apply resolve_subset. }
  unfold trackOpenNodes. rewrite Hskip, Hnodes, Hpage. simpl.
  destruct (generateNodesToRender_Done regex_search safeHighlightPattern
              forest props fuel Hinv Hfuel
              (set_openNodes (openNodes st ∪ list_to_set (map uid nodes)) st))
    as (l & Hg & _).
  eexists. split; [exact Hg|]. simpl.
  split; [apply union_subseteq_l|split].
  - intros Hf. by rewrite (Hplain Hf), Hapc.
  - intros Hf Hnz u.
    destruct (tracked_nodes forest props fuel Hinv Hfuel (filtered st) Hnz)
      as (ps & Hps & Hchar).
    { intros m. apply filteredChildren_subset. }
    rewrite Hf, Hfc, Hps in Hnodes. simpl in Hnodes. injection Hnodes as <-.
    rewrite elem_of_union, elem_of_list_to_set, list_elem_of_fmap.
    apply or_iff_compat_l. split.
    + intros (a & -> & Ha). apply Hchar in Ha as (m & p & pm & H1 & H2 & H3 & H4).
      by exists m, p, pm, a.
    + intros (m & p & pm & a & H1 & H2 & H3 & H4 & <-). exists a. split; [done|].
      apply Hchar. by exists m, p, pm.
Qed.

(** C6, as the code has it.  On mount the snapshot is taken over exactly
    when it holds rendered uids or a filter text, was written for the
    current technology and all its rendered uids are keys of the flat node
    store; otherwise tracking runs from the fresh state and ends, and when
    the snapshot holds no filter text this opens the resolved active path
    and renders what a recompute yields. *)
Theorem restorePersistedState_spec (id : nat) (storage : SessionStorage) :
  (snapshot_usable props storage = true ->
   exists st',
     restore id (data storage) = Done st'
     /\ openNodes st' = list_to_set (default [] (navigator_openNodes storage))
     /\ map uid (nodesToRender st') = default [] (navigator_nodesToRender storage)
     /\ debouncedFilter st' = default "" (navigator_filter storage)
     /\ selectedTags st' = default [] (navigator_selectedTags storage)
     /\ sessionStorage st' = storage)
  /\ (snapshot_usable props storage = false ->
      exists deps st',
        deps_of id (data storage) = Done deps
        /\ restore id (data storage) = track deps None (data storage)
        /\ restore id (data storage) = Done st'
        /\ (truthy (default "" (navigator_filter storage)) = false ->
            openNodes st'
            = list_to_set (map uid (resolve cm (activePath props) (children props)))
            /\ nodesToRender st'
               = List.filter (renderable (openNodes st')) (children props)
            /\ debouncedFilter st' = ""
            /\ selectedTags st' = [])).
Proof.
  unfold snapshot_usable, restorePersistedState. simpl.
  destruct (track_computed id None (data storage))
    as (deps & st' & Hd & Hapc & Hid & Hf & Ht & Htrack & Hcases).
  set (stored := default [] (navigator_nodesToRender storage)).
  set (text := default "" (navigator_filter storage)).
  split.
  - intros Hu. apply andb_true_iff in Hu as [Hu Hall].
    apply andb_true_iff in Hu as [Hsome Htech].
    replace (Nat.eqb (length stored) 0 && negb (truthy text)) with false.
    2:{ symmetry. apply orb_true_iff in Hsome as [H|H].
        - apply negb_true_iff in H. by rewrite H.
        - rewrite H. apply andb_false_r. }
    rewrite Htech, Hall. simpl. eexists. split; [reflexivity|]. simpl.
    split; [done|]. split; [by apply map_uid_omap_lookup|done].
  - intros Hu. exists deps, st'. split; [done|].
    assert (forall (fallback : outcome State),
              (if Nat.eqb (length stored) 0 && negb (truthy text)
               then deps ← deps_of id (data storage); track deps None (data storage)
               else if negb (bool_decide (navigator_technology storage
                                          = Some (technology props)))
                       || negb (forallb
                                  (fun u => bool_decide (is_Some (cm !! u))) stored)
                    then deps ← deps_of id (data storage);
                         track deps None (data storage)
                    else fallback)
              = track deps None (data storage)) as Hrun.
    { intros fallback. rewrite Hd. simpl.
      destruct (Nat.eqb (length stored) 0 && negb (truthy text)) eqn:E1; [done|].
      destruct (bool_decide (navigator_technology storage = Some (technology props)));
        [|done].
      destruct (forallb _ stored); [|done]. simpl in *.
      apply andb_false_iff in E1 as [E1|E1].
      - by rewrite E1 in Hu.
      - apply negb_false_iff in E1. rewrite E1 in Hu.
        by rewrite orb_true_r in Hu. }
    rewrite Hrun. split; [done|]. split; [done|]. intros Htext.
    assert (skipTracking deps None (data storage) = false) as Hskip.
    { unfold skipTracking. simpl. rewrite Ht. simpl. fold text. rewrite Htext.
      done. }
    destruct Hcases as [[Hs _]|(_ & nodes & l & Hn & _ & _ & Hl & ->)];
      [congruence|].
    simpl. rewrite (Hn eq_refl), Hapc, (left_id_L ∅ (∪)).
    split; [done|]. split; [|done].
    rewrite (Hl eq_refl). simpl. by rewrite (Hn eq_refl), Hapc, (left_id_L ∅ (∪)).
Qed.
End Claims.

(** ** Suggested tags and selected tags *)

Section Tags.
Variable regex_search : string -> bool -> string -> nat -> option nat.
Variable safeHighlightPattern : string -> string.
Variable Object_prototype_has : string -> bool.
Variables (fuel : nat) (props : Props).

Local Abbreviation restore :=
  (restorePersistedState regex_search safeHighlightPattern fuel props).
Local Abbreviation filtered := (filteredChildren regex_search safeHighlightPattern props).

(** C10, as the code has it.  With a selected tag no suggestion is
    offered; with none the three labels are, in this order.  That limits
    the suggestions only: the setter stores the tag of every label it is
    given and a restore takes over every stored tag, so several tags can
    be selected at once; a node then passes the tag test when the tag of
    its type is any one of them. *)
Theorem availableTags_spec (id : nat) (st : State) :
  (selectedTags st <> [] -> availableTags st = [])
  /\ (selectedTags st = [] ->
      availableTags st = ["Sample Code"; "Tutorials"; "Articles"])
  /\ (forall tags,
        selectedTagsModelValue_set Object_prototype_has
          (map FILTER_TAGS_TO_LABELS tags) = map Own tags)
  /\ (forall storage,
        snapshot_usable props storage = true ->
        exists st',
          restore id (data storage) = Done st'
          /\ selectedTags st' = default [] (navigator_selectedTags storage))
  /\ (debouncedFilter st = "" -> selectedTags st <> [] ->
      forall node,
        node ∈ filtered st
        <-> node ∈ children props
            /\ type node <> TopicTypes.groupMarker
            /\ exists tag, tag ∈ selectedTags st
                           /\ TOPIC_TYPE_TO_TAG (type node) = Some tag).
Proof.
  split; [|split; [|split; [|split]]].
  - unfold availableTags. by destruct (selectedTags st).
  - unfold availableTags. by intros ->.
  - apply setter_of_labels.
  - intros storage Hu. rewrite (restore_usable _ _ _ _ id storage Hu).
    by eexists.
  - intros Hf Htags node. by apply filteredChildren_tags_only.
Qed.
End Tags.

Lemma availableTags_spec_witness :
  (selectedTags Folded.restoredTagged <> [] ->
   availableTags Folded.restoredTagged = [])
  /\ (selectedTags Folded.restoredTagged = [] ->
      availableTags Folded.restoredTagged = ["Sample Code"; "Tutorials"; "Articles"])
  /\ (forall tags,
        selectedTagsModelValue_set Mixed.Object_prototype_has
          (map FILTER_TAGS_TO_LABELS tags) = map Own tags)
  /\ (forall storage,
        snapshot_usable Sample.props storage = true ->
        exists st',
          restorePersistedState Sample.no_match Sample.as_is 3 Sample.props 0
            (data storage) = Done st'
          /\ selectedTags st' = default [] (navigator_selectedTags storage))
  /\ (debouncedFilter Folded.restoredTagged = "" ->
      selectedTags Folded.restoredTagged <> [] ->
      forall node,
        node ∈ filteredChildren Sample.no_match Sample.as_is Sample.props
                 Folded.restoredTagged
        <-> node ∈ children Sample.props
            /\ type node <> TopicTypes.groupMarker
            /\ exists tag, tag ∈ selectedTags Folded.restoredTagged
                           /\ TOPIC_TYPE_TO_TAG (type node) = Some tag).
Proof.
  exact (availableTags_spec Sample.no_match Sample.as_is Mixed.Object_prototype_has
           3 Sample.props 0 Folded.restoredTagged).
Defined.

(** A snapshot that holds the tags Articles and Tutorials is taken over
    with both; no suggestion is offered then, and the tutorial [T] and the
    article [R] are both direct matches.  The setter, given the two
    labels, stores the two tags as well. *)
Lemma tags_of_two_categories_combined :
  exists s,
    restorePersistedState Sample.no_match Sample.as_is 3 Mixed.props 0
      (data Mixed.snapshot) = Done s
    /\ selectedTags s = [FILTER_TAGS.articles; FILTER_TAGS.tutorials]
    /\ availableTags s = []
    /\ filteredChildren Sample.no_match Sample.as_is Mixed.props s
       = [Mixed.T; Mixed.R]
    /\ TOPIC_TYPE_TO_TAG (type Mixed.T) = Some FILTER_TAGS.tutorials
    /\ TOPIC_TYPE_TO_TAG (type Mixed.R) = Some FILTER_TAGS.articles
    /\ selectedTagsModelValue_set Mixed.Object_prototype_has
         ["Articles"; "Tutorials"]
       = [Own FILTER_TAGS.articles; Own FILTER_TAGS.tutorials].
Proof.
  eexists. split; [vm_compute; reflexivity|]. split; [reflexivity|].
  split; [reflexivity|]. split; [vm_compute; reflexivity|].
  split; [reflexivity|]. split; [reflexivity|]. vm_compute. reflexivity.
Qed.

Section Known.
Variable regex_search : string -> bool -> string -> nat -> option nat.
Variable safeHighlightPattern : string -> string.
Variables (forest : list NavigatorTree) (props : Props) (fuel : nat).
Hypothesis Hinv : flat_tree_invariants forest (children props).
Hypothesis Hfuel : (length (children props) <= fuel)%nat.

Local Abbreviation cm := (childrenMap (children props)).
Local Abbreviation deps_of := (nodeChangeDeps regex_search safeHighlightPattern props).
Local Abbreviation track := (trackOpenNodes regex_search safeHighlightPattern fuel props).
Local Abbreviation restore :=
  (restorePersistedState regex_search safeHighlightPattern fuel props).
Local Abbreviation generate := (generateNodesToRender regex_search safeHighlightPattern).

Lemma openNodes_augment (u : Z) (include exclude : list NavigatorFlatItem)
      (st : State) :
  openNodes (augmentRenderNodes props u include exclude st) = openNodes st.
Proof. by destruct (augmentRenderNodes_fields props u include exclude st). Qed.

Lemma toggle_known (st : State) (node : NavigatorFlatItem) :
  open_nodes_known props st -> node ∈ children props ->
  exists st', toggle fuel props node st = Done st' /\ open_nodes_known props st'.
Proof.
  intros Hk Hin. destruct Hinv as [Heq Hnd]. pose proof Hin as Hin'.
  rewrite Heq in Hin'.
  destruct (flattenForest_split _ _ _ Hin') as (par & t & l1 & l2 & Hsplit & ->).
  rewrite <- Heq in Hsplit. unfold toggle.
  destruct (bool_decide (uid (item par t) ∈ openNodes st)).
  - rewrite (getAllChildren_at forest props fuel l1 l2 par t Hinv Hfuel Hsplit).
    eexists. split; [reflexivity|]. intros u. rewrite openNodes_augment.
    intros [Hu _]%elem_of_difference. by apply Hk.
  - rewrite (included_children forest (children props) l1 l2 par t Hinv Hsplit).
    eexists. split; [reflexivity|]. intros u. rewrite openNodes_augment.
    intros [->%elem_of_singleton|Hu]%elem_of_union.
    + by apply known_uid.
    + by apply Hk.
Qed.

Lemma toggleFullTree_known (st : State) (node : NavigatorFlatItem) :
  open_nodes_known props st -> node ∈ children props ->
  exists st', toggleFullTree fuel props node st = Done st'
              /\ open_nodes_known props st'.
Proof.
  intros Hk Hin. destruct Hinv as [Heq Hnd]. pose proof Hin as Hin'.
  rewrite Heq in Hin'.
  destruct (flattenForest_split _ _ _ Hin') as (par & t & l1 & l2 & Hsplit & ->).
  rewrite <- Heq in Hsplit. unfold toggleFullTree.
  rewrite (getAllChildren_at forest props fuel l1 l2 par t Hinv Hfuel Hsplit).
  eexists. split; [reflexivity|]. intros u. rewrite openNodes_augment.
  destruct (bool_decide (uid (item par t) ∈ openNodes st)).
  - intros [Hu _]%elem_of_difference. by apply Hk.
  - intros [Hu|Hu]%elem_of_union; [by apply Hk|].
    apply (subtree_uids par t) in Hu as (m & Hm & <-). apply known_uid.
    by apply (subtree_in_children (children props) l1 l2 par t Hsplit).
Qed.

Lemma track_known (id : nat) (before : option NodeChangeDeps) (st : State) :
  open_nodes_known props st ->
  exists deps st',
    deps_of id st = Done deps /\ track deps before st = Done st'
    /\ open_nodes_known props st'.
Proof.
  intros Hk.
  destruct (track_computed regex_search safeHighlightPattern forest props fuel
              Hinv Hfuel id before st)
    as (deps & st' & Hd & _ & _ & _ & _ & Htrack & Hcases).
  exists deps, st'. split; [done|split; [done|]].
  destruct Hcases as [[_ ->]|(_ & nodes & l & _ & Hsub & _ & _ & ->)]; [done|].
  intros u. simpl. intros [Hu|Hu]%elem_of_union.
  - destruct (pageChange deps before); [by apply Hk|].
    by apply not_elem_of_empty in Hu.
  - apply elem_of_list_to_set, list_elem_of_fmap in Hu as (a & -> & Ha).
    by apply known_uid, Hsub.
Qed.

(** C7, as the code has it.  From a state whose open uids are all keys
    of the flat node store, toggling a node of the collection, toggling
    its whole subtree and a tracking run (initial, on navigation or on a
    filter change) end in such a state again; so does the restoration on
    mount when the uids of the persisted open nodes are keys of the store,
    a condition the restoration itself does not test. *)
Theorem open_nodes_stay_known (st : State) :
  open_nodes_known props st ->
  (forall node, node ∈ children props ->
     exists st', toggle fuel props node st = Done st'
                 /\ open_nodes_known props st')
  /\ (forall node, node ∈ children props ->
        exists st', toggleFullTree fuel props node st = Done st'
                    /\ open_nodes_known props st')
  /\ (forall id before,
        exists deps st',
          deps_of id st = Done deps /\ track deps before st = Done st'
          /\ open_nodes_known props st')
  /\ (forall id,
        (forall u, u ∈ default [] (navigator_openNodes (sessionStorage st)) ->
                   is_Some (cm !! u)) ->
        exists st', restore id st = Done st' /\ open_nodes_known props st').
Proof.
  intros Hk. split; [|split; [|split]].
  - intros node. by apply toggle_known.
  - intros node. by apply toggleFullTree_known.
  - intros id before. by apply track_known.
  - intros id Hstored. unfold restorePersistedState.
    destruct (track_known id None st Hk) as (deps & st' & Hd & Ht & Hk').
    rewrite Hd. simpl.
    destruct (_ && _); [by exists st'|].
    destruct (_ || _); [by exists st'|].
    eexists. split; [reflexivity|]. intros u. simpl.
    rewrite elem_of_list_to_set. apply Hstored.
Qed.

(** C3, as the code has it.  Without a filter a recompute renders, in
    document order, exactly the nodes whose parent is the root key or an
    open node; and for the tree with top-level [A] and [B] and with [C]
    below [B], an active path that resolves to [C] opens [B] and [C] and
    renders [A], [B], [C]. *)
Theorem unfiltered_recompute_spec (st : State) :
  hasFilter st = false ->
  (exists st',
     generate fuel props st = Done st'
     /\ sublist (nodesToRender st') (children props)
     /\ forall n,
          n ∈ nodesToRender st'
          <-> n ∈ children props
              /\ (parent n = INDEX_ROOT_KEY
                  \/ exists p, parent n = ParentUID p /\ p ∈ openNodes st))
  /\ exists s,
       restorePersistedState regex_search safeHighlightPattern fuel
         Sample.props 0 (data Sample.emptyStorage) = Done s
       /\ openNodes s = {[2; 3]}
       /\ nodesToRender s = [Sample.A; Sample.B; Sample.C].
Proof.
  intros Hf. split.
  - rewrite generateNodesToRender_unfiltered by done.
    eexists. split; [reflexivity|]. simpl. split; [apply filter_sublist|].
    intros n. rewrite elem_of_filter_bool. apply and_iff_compat_l.
    unfold renderable. destruct (parent n) as [|p].
    + split; [by left|done].
    + rewrite bool_decide_eq_true. split.
      * intros Hp. right. by exists p.
      * intros [?|(p' & [= <-] & Hp)]; done.
  - eexists. split; [vm_compute; reflexivity|].
    split; [vm_compute; reflexivity|reflexivity].
Qed.
End Known.

(** ** The statements at the sample data *)

Lemma sample_invariants : flat_tree_invariants Sample.forest (children Sample.props).
Proof. split; [reflexivity|]. apply (bool_decide_unpack _). vm_compute. exact I. Defined.

Lemma sample_fuel : (length (children Sample.props) <= 3)%nat.
Proof. simpl. lia. Defined.

Lemma mounted_in_sync :
  in_sync Sample.no_match Sample.as_is 3 Sample.props Sample.mounted.
Proof. split; [reflexivity|]. split; vm_compute; reflexivity. Defined.

Lemma onlyB_in_sync :
  in_sync Sample.no_match Sample.as_is 3 Sample.props Sample.onlyB.
Proof. split; [reflexivity|]. split; vm_compute; reflexivity. Defined.

Lemma sample_mount :
  restorePersistedState Sample.no_match Sample.as_is 3 Sample.props 0
    (data Sample.emptyStorage) = Done Sample.mounted.
Proof. vm_compute. reflexivity. Qed.

Lemma patch_equals_recompute_witness :
  exists st',
    perform_all 3 Sample.props
      [Toggle Sample.B; ToggleFull Sample.B; Toggle Sample.C; Toggle Sample.A]
      Sample.mounted = Done st'
    /\ recompute Sample.no_match Sample.as_is 3 Sample.props st'
       = Done (nodesToRender st').
Proof.
  apply (patch_equals_recompute Sample.no_match Sample.as_is Sample.forest
           Sample.props 3 sample_invariants sample_fuel).
  - exact mounted_in_sync.
  - vm_compute. reflexivity.
Defined.

(** After mounting, selecting the tag Articles makes [C] the only match
    and leaves [B] open as its ancestor; closing [B] then takes [C] off the
    rendered list, while a recompute over the resulting open nodes renders
    [C] again. *)
Lemma patch_differs_when_filtering :
  exists s0 s1,
    restorePersistedState Sample.no_match Sample.as_is 3 Sample.props 0
      (data Sample.emptyStorage) = Done Sample.mounted
    /\ (deps ← nodeChangeDeps Sample.no_match Sample.as_is Sample.props 0
                 Sample.articlesSelected;
        trackOpenNodes Sample.no_match Sample.as_is 3 Sample.props deps
          (Some Sample.depsBefore) Sample.articlesSelected) = Done s0
    /\ openNodes s0 = {[2]}
    /\ nodesToRender s0 = [Sample.B; Sample.C]
    /\ toggle 3 Sample.props Sample.B s0 = Done s1
    /\ nodesToRender s1 = [Sample.B]
    /\ recompute Sample.no_match Sample.as_is 3 Sample.props s1
       = Done [Sample.B; Sample.C]
    /\ recompute Sample.no_match Sample.as_is 3 Sample.props s1
       <> Done (nodesToRender s1).
Proof.
  eexists. eexists. split; [vm_compute; reflexivity|].
  split; [vm_compute; reflexivity|]. split; [vm_compute; reflexivity|].
  split; [reflexivity|]. split; [vm_compute; reflexivity|].
  split; [reflexivity|]. split; [vm_compute; reflexivity|].
  vm_compute. discriminate.
Qed.

Lemma filtered_recompute_spec_witness :
  exists st',
    generateNodesToRender Sample.no_match Sample.as_is 3 Sample.props
      Sample.articlesSelected = Done st'
    /\ sublist (nodesToRender st') (children Sample.props)
    /\ forall n,
         n ∈ nodesToRender st'
         <-> n ∈ children Sample.props
             /\ ((exists m,
                    m ∈ filteredChildren Sample.no_match Sample.as_is Sample.props
                          Sample.articlesSelected
                    /\ ancestor_or_self (childrenMap (children Sample.props)) n m)
                 \/ exists p m,
                      parent n = ParentUID p
                      /\ p ∈ openNodes Sample.articlesSelected
                      /\ childrenMap (children Sample.props) !! p = Some m
                      /\ m ∈ filteredChildren Sample.no_match Sample.as_is
                             Sample.props Sample.articlesSelected).
Proof.
  apply (filtered_recompute_spec Sample.no_match Sample.as_is Sample.forest
           Sample.props 3 sample_invariants sample_fuel Sample.articlesSelected).
  - vm_compute. reflexivity.
  - reflexivity.
Defined.

(** Nothing but the node itself is on the parent chain of a top-level node. *)
Lemma top_level_chain (cm : gmap Z NavigatorFlatItem) (a n : NavigatorFlatItem) :
  parent n = INDEX_ROOT_KEY -> ancestor_or_self cm a n -> a = n.
Proof.
  intros Hp Ha. apply ancestor_or_self_inv in Ha as [->|(p & m & Hp' & _)]; [done|].
  congruence.
Qed.

(** After mounting on the tree of [P], [M] and [N], selecting the tag
    Articles makes [P] and [M] the matches and opens [P] as the ancestor of
    [M]; the recompute renders [N] too, which is neither a match nor on the
    parent chain of one.  On the tree of [A], [B] and [C] the only match is
    [C], and [B] is rendered although no node on its own parent chain
    matches. *)
Lemma filtered_recompute_renders_more :
  (exists s,
     restorePersistedState Sample.no_match Sample.as_is 3 Family.props 0
       (data Sample.emptyStorage) = Done Family.mounted
     /\ (deps ← nodeChangeDeps Sample.no_match Sample.as_is Family.props 0
                  Family.articlesSelected;
         trackOpenNodes Sample.no_match Sample.as_is 3 Family.props deps
           (Some Family.depsBefore) Family.articlesSelected) = Done s
     /\ filteredChildren Sample.no_match Sample.as_is Family.props s
        = [Family.P; Family.M]
     /\ openNodes s = {[1]}
     /\ nodesToRender s = [Family.P; Family.M; Family.N]
     /\ ~ exists m,
            m ∈ [Family.P; Family.M]
            /\ ancestor_or_self (childrenMap (children Family.props)) Family.N m)
  /\ exists s,
       (deps ← nodeChangeDeps Sample.no_match Sample.as_is Sample.props 0
                 Sample.articlesSelected;
        trackOpenNodes Sample.no_match Sample.as_is 3 Sample.props deps
          (Some Sample.depsBefore) Sample.articlesSelected) = Done s
       /\ filteredChildren Sample.no_match Sample.as_is Sample.props s = [Sample.C]
       /\ Sample.B ∈ nodesToRender s
       /\ ~ exists a,
              a ∈ [Sample.C]
              /\ ancestor_or_self (childrenMap (children Sample.props)) a Sample.B.
Proof.
  split.
  - eexists. split; [vm_compute; reflexivity|].
    split; [vm_compute; reflexivity|]. split; [reflexivity|].
    split; [vm_compute; reflexivity|].
    split; [reflexivity|]. intros (m & Hm & Ha).
    apply elem_of_cons in Hm as [->|Hm].
    { by apply top_level_chain in Ha. }
    apply list_elem_of_singleton in Hm as ->.
    apply ancestor_or_self_inv in Ha as [Ha|(p & m & Hp & Hm & Ha)]; [done|].
    injection Hp as <-. vm_compute in Hm. injection Hm as <-.
    by apply top_level_chain in Ha.
  - eexists. split; [vm_compute; reflexivity|]. split; [reflexivity|].
    split; [by left|]. intros (a & Ha & Hchain).
    apply list_elem_of_singleton in Ha as ->.
    by apply top_level_chain in Hchain.
Qed.

(** Under a parent with uid [0] the walk of [getParents] stops at once:
    [Z] is on the parent chain of the match [K] and is not rendered. *)
Lemma falsy_parent_cuts_chain :
  getParents (childrenMap (children Zero.props)) 2 (uid Zero.K) = Done [Zero.K]
  /\ ancestor_or_self (childrenMap (children Zero.props)) Zero.Z0 Zero.K
  /\ recompute Sample.no_match Sample.as_is 2 Zero.props Zero.articlesSelected
     = Done [Zero.K].
Proof.
  split; [reflexivity|]. split; [|vm_compute; reflexivity].
  apply (aos_parent _ Zero.Z0 Zero.K 0 Zero.Z0); [reflexivity|reflexivity|].
  constructor.
Qed.

Lemma unfiltered_recompute_spec_witness :
  (exists st',
     generateNodesToRender Sample.no_match Sample.as_is 3 Sample.props
       Sample.mounted = Done st'
     /\ sublist (nodesToRender st') (children Sample.props)
     /\ forall n,
          n ∈ nodesToRender st'
          <-> n ∈ children Sample.props
              /\ (parent n = INDEX_ROOT_KEY
                  \/ exists p, parent n = ParentUID p
                               /\ p ∈ openNodes Sample.mounted))
  /\ exists s,
       restorePersistedState Sample.no_match Sample.as_is 3 Sample.props 0
         (data Sample.emptyStorage) = Done s
       /\ openNodes s = {[2; 3]}
       /\ nodesToRender s = [Sample.A; Sample.B; Sample.C].
Proof.
  apply (unfiltered_recompute_spec Sample.no_match Sample.as_is Sample.props 3
           Sample.mounted).
  reflexivity.
Defined.

(** Mounting with an active path that resolves to [C] opens [C] itself
    besides [B]: the open nodes are not just [B]. *)
Lemma active_node_is_opened :
  exists s,
    restorePersistedState Sample.no_match Sample.as_is 3 Sample.props 0
      (data Sample.emptyStorage) = Done s
    /\ nodesToRender s = [Sample.A; Sample.B; Sample.C]
    /\ openNodes s <> {[2]}.
Proof.
  eexists. split; [vm_compute; reflexivity|]. split; [reflexivity|].
  intros H. apply (f_equal (fun o : gset Z => bool_decide (3 ∈ o))) in H.
  vm_compute in H. discriminate H.
Qed.

Lemma toggle_twice_witness :
  exists s1 s2,
    toggle 3 Sample.props Sample.B Sample.onlyB = Done s1
    /\ toggle 3 Sample.props Sample.B s1 = Done s2
    /\ openNodes s2 = openNodes Sample.onlyB
    /\ nodesToRender s2 = nodesToRender Sample.onlyB.
Proof.
  apply (toggle_twice Sample.no_match Sample.as_is Sample.forest Sample.props 3
           sample_invariants sample_fuel Sample.onlyB Sample.B).
  - exact onlyB_in_sync.
  - apply (bool_decide_unpack _). vm_compute. exact I.
  - vm_compute. reflexivity.
Defined.

(** After mounting, [B] and [C] are open.  Closing [B] closes [C] with
    it, and opening [B] again does not bring [C] back. *)
Lemma close_then_open_forgets_descendants :
  exists s0 s1 s2,
    restorePersistedState Sample.no_match Sample.as_is 3 Sample.props 0
      (data Sample.emptyStorage) = Done s0
    /\ toggle 3 Sample.props Sample.B s0 = Done s1
    /\ toggle 3 Sample.props Sample.B s1 = Done s2
    /\ openNodes s0 = {[2; 3]}
    /\ openNodes s2 = {[2]}
    /\ openNodes s2 <> openNodes s0.
Proof.
  eexists. eexists. eexists. split; [vm_compute; reflexivity|].
  split; [vm_compute; reflexivity|]. split; [vm_compute; reflexivity|].
  split; [vm_compute; reflexivity|]. split; [vm_compute; reflexivity|].
  intros H. apply (f_equal (fun o : gset Z => bool_decide (3 ∈ o))) in H.
  vm_compute in H. discriminate H.
Qed.

Lemma navigation_keeps_open_nodes_witness :
  exists st',
    trackOpenNodes Sample.no_match Sample.as_is 3 Sample.props Sample.depsAfter
      (Some Sample.depsBefore) Sample.onlyB = Done st'
    /\ openNodes Sample.onlyB ⊆ openNodes st'
    /\ (hasFilter Sample.onlyB = false ->
        openNodes st'
        = openNodes Sample.onlyB
            ∪ list_to_set
                (map uid (resolve (childrenMap (children Sample.props))
                            (activePath Sample.props) (children Sample.props))))
    /\ (hasFilter Sample.onlyB = true ->
        no_falsy_parent (children Sample.props) = true ->
        forall u,
          u ∈ openNodes st'
          <-> u ∈ openNodes Sample.onlyB
              \/ exists m p pm a,
                   m ∈ filteredChildren Sample.no_match Sample.as_is Sample.props
                         Sample.onlyB
                   /\ parent m = ParentUID p
                   /\ childrenMap (children Sample.props) !! p = Some pm
                   /\ ancestor_or_self (childrenMap (children Sample.props)) a pm
                   /\ uid a = u).
Proof.
  apply (navigation_keeps_open_nodes Sample.no_match Sample.as_is Sample.forest
           Sample.props 3 sample_invariants sample_fuel 1%nat
           Sample.depsBefore Sample.depsAfter Sample.onlyB).
  - vm_compute. reflexivity.
  - simpl. lia.
  - reflexivity.
  - reflexivity.
Defined.

(** With the tag Articles selected on the page of [C], the match [C]
    keeps its parent [B] open; the user closes [B] and then navigates to
    the top-level page [A].  Tracking opens [B] again, which is not on the
    way to [A]: under a filter the uids added are those above the matches,
    not those that reveal the new active node. *)
Lemma navigation_opens_ancestors_of_matches :
  exists s0 s1 s2,
    (deps ← nodeChangeDeps Sample.no_match Sample.as_is Sample.props 0
              Sample.articlesSelected;
     trackOpenNodes Sample.no_match Sample.as_is 3 Sample.props deps
       (Some Sample.depsBefore) Sample.articlesSelected) = Done s0
    /\ toggle 3 Sample.props Sample.B s0 = Done s1
    /\ openNodes s1 = ∅
    /\ nodeChangeDeps Sample.no_match Sample.as_is Sample.props 0 s1
       = Done Folded.depsTagged
    /\ nodeChangeDeps Sample.no_match Sample.as_is Folded.propsAtA 1 s1
       = Done Folded.depsAtA
    /\ trackOpenNodes Sample.no_match Sample.as_is 3 Folded.propsAtA
         Folded.depsAtA (Some Folded.depsTagged) s1 = Done s2
    /\ resolve (childrenMap (children Folded.propsAtA))
               (activePath Folded.propsAtA) (children Folded.propsAtA)
       = [Sample.A]
    /\ openNodes s2 = {[uid Sample.B]}
    /\ ~ ancestor_or_self (childrenMap (children Folded.propsAtA))
                          Sample.B Sample.A.
Proof.
  eexists. eexists. eexists. split; [vm_compute; reflexivity|].
  split; [vm_compute; reflexivity|]. split; [vm_compute; reflexivity|].
  split; [vm_compute; reflexivity|]. split; [vm_compute; reflexivity|].
  split; [vm_compute; reflexivity|]. split; [vm_compute; reflexivity|].
  split; [vm_compute; reflexivity|].
  intros Ha. by apply top_level_chain in Ha.
Qed.

Lemma restorePersistedState_spec_witness :
  (exists st',
     restorePersistedState Sample.no_match Sample.as_is 3 Sample.props 0
       (data Sample.snapshot) = Done st'
     /\ openNodes st' = list_to_set [2]
     /\ map uid (nodesToRender st') = [1; 2; 3]
     /\ debouncedFilter st' = ""
     /\ selectedTags st' = []
     /\ sessionStorage st' = Sample.snapshot)
  /\ exists deps st',
       nodeChangeDeps Sample.no_match Sample.as_is Sample.props 0
         (data Sample.emptySnapshot) = Done deps
       /\ restorePersistedState Sample.no_match Sample.as_is 3 Sample.props 0
            (data Sample.emptySnapshot)
          = trackOpenNodes Sample.no_match Sample.as_is 3 Sample.props deps None
              (data Sample.emptySnapshot)
       /\ restorePersistedState Sample.no_match Sample.as_is 3 Sample.props 0
            (data Sample.emptySnapshot) = Done st'
       /\ (truthy "" = false ->
           openNodes st'
           = list_to_set
               (map uid (resolve (childrenMap (children Sample.props))
                                 (activePath Sample.props)
                                 (children Sample.props)))
           /\ nodesToRender st'
              = List.filter (renderable (openNodes st')) (children Sample.props)
           /\ debouncedFilter st' = ""
           /\ selectedTags st' = []).
Proof.
  split.
  - apply (proj1 (restorePersistedState_spec Sample.no_match Sample.as_is
                    Sample.forest Sample.props 3 sample_invariants sample_fuel
                    0%nat Sample.snapshot)).
    vm_compute. reflexivity.
  - apply (proj2 (restorePersistedState_spec Sample.no_match Sample.as_is
                    Sample.forest Sample.props 3 sample_invariants sample_fuel
                    0%nat Sample.emptySnapshot)).
    vm_compute. reflexivity.
Defined.

(** A snapshot written for the current technology none of whose rendered
    uids is unknown (it has none) is not taken over: the open nodes come
    from the active path, not from the snapshot. *)
Lemma empty_snapshot_is_discarded :
  navigator_technology Sample.emptySnapshot = Some (technology Sample.props)
  /\ forallb
       (fun u => bool_decide (is_Some (childrenMap (children Sample.props) !! u)))
       (default [] (navigator_nodesToRender Sample.emptySnapshot)) = true
  /\ exists s,
       restorePersistedState Sample.no_match Sample.as_is 3 Sample.props 0
         (data Sample.emptySnapshot) = Done s
       /\ openNodes s = {[2; 3]}
       /\ openNodes s
          <> list_to_set (default [] (navigator_openNodes Sample.emptySnapshot)).
Proof.
  split; [reflexivity|]. split; [reflexivity|].
  eexists. split; [vm_compute; reflexivity|]. split; [vm_compute; reflexivity|].
  intros H. apply (f_equal (fun o : gset Z => bool_decide (3 ∈ o))) in H.
  vm_compute in H. discriminate H.
Qed.

(** A snapshot of another technology that holds a filter text is
    discarded, and the tracking run that follows returns at once: nothing
    is opened and nothing is rendered. *)
Lemma discarded_snapshot_with_filter :
  snapshot_usable Sample.props Sample.otherTechnology = false
  /\ restorePersistedState Sample.no_match Sample.as_is 3 Sample.props 0
       (data Sample.otherTechnology) = Done (data Sample.otherTechnology)
  /\ nodesToRender (data Sample.otherTechnology) = [].
Proof. split; [reflexivity|]. split; [vm_compute; reflexivity|reflexivity]. Qed.

Lemma mounted_known : open_nodes_known Sample.props Sample.mounted.
Proof. apply (bool_decide_unpack _). vm_compute. exact I. Defined.

Lemma open_nodes_stay_known_witness :
  exists st',
    toggleFullTree 3 Sample.props Sample.B Sample.mounted = Done st'
    /\ open_nodes_known Sample.props st'.
Proof.
  apply (proj1 (proj2 (open_nodes_stay_known Sample.no_match Sample.as_is
                         Sample.forest Sample.props 3 sample_invariants
                         sample_fuel Sample.mounted mounted_known))).
  apply (bool_decide_unpack _). vm_compute. exact I.
Defined.

(** A snapshot of the current technology whose rendered uids are all
    known is taken over together with its open nodes, known or not. *)
Lemma restored_open_nodes_unchecked :
  exists s,
    restorePersistedState Sample.no_match Sample.as_is 3 Sample.props 0
      (data Sample.staleOpenNodes) = Done s
    /\ openNodes s = {[99]}
    /\ childrenMap (children Sample.props) !! 99 = None
    /\ ~ open_nodes_known Sample.props s.
Proof.
  eexists. split; [vm_compute; reflexivity|]. split; [vm_compute; reflexivity|].
  split; [vm_compute; reflexivity|]. intros H.
  destruct (H 99) as [x Hx].
  - apply (bool_decide_unpack _). vm_compute. exact I.
  - vm_compute in Hx. discriminate Hx.
Qed.

Lemma filter_predicate_spec_witness :
  RegExp_test Sample.no_match (RegExp_new (Sample.as_is "c") "i") "C"
  = (bool_decide (is_Some (Sample.no_match (Sample.as_is "c") true "C" 0%nat)),
     RegExp_new (Sample.as_is "c") "i")
  /\ fst (RegExp_test Sample.no_match
            (snd (RegExp_test Sample.no_match (RegExp_new (Sample.as_is "c") "i") "C"))
            "C")
     = fst (RegExp_test Sample.no_match (RegExp_new (Sample.as_is "c") "i") "C").
Proof.
  apply (proj1 (proj2 (filter_predicate_spec Sample.no_match Sample.as_is
                         Sample.props
                         {| filter_ := "c"; debouncedFilter := "c";
                            selectedTags := []; openNodes := ∅;
                            nodesToRender := [];
                            sessionStorage := Sample.emptyStorage |}
                         Sample.C))).
  reflexivity.
Defined.

(** * Further properties *)

(** ** The tag selection of the filter input *)

(** X1.  The setter of the tag selection undoes the getter, and the
    getter the setter: the labels of the selected tags are stored back as
    those tags, and the array the setter stores consists of tags exactly
    when the values it is given are the labels of these tags.  A read of
    [FILTER_LABELS_TO_TAGS] gives a tag exactly for that tag's label; for
    any other name it gives what [Object.prototype] has under the name,
    and [undefined] only when it has nothing. *)
Theorem selectedTagsModelValue_round_trip (Object_prototype_has : string -> bool)
        (st : State) :
  selectedTagsModelValue_set Object_prototype_has (selectedTagsModelValue_get st)
  = map Own (selectedTags st)
  /\ (forall values tags,
        selectedTagsModelValue_set Object_prototype_has values = map Own tags
        <-> values = map FILTER_TAGS_TO_LABELS tags)
  /\ (forall label tag,
        FILTER_LABELS_TO_TAGS Object_prototype_has label = Own tag
        <-> FILTER_TAGS_TO_LABELS tag = label)
  /\ (forall label,
        (forall tag, FILTER_TAGS_TO_LABELS tag <> label) ->
        FILTER_LABELS_TO_TAGS Object_prototype_has label
        = if Object_prototype_has label then Inherited else Undefined).
Proof.
  split; [apply setter_of_labels|]. split; [|split].
  - intros values tags. split; [|intros ->; apply setter_of_labels].
    unfold selectedTagsModelValue_set. revert tags.
    induction values as [|v values IH]; intros [|tag tags] H; try done.
    cbn [map] in H. injection H as Hv H. cbn [map].
    apply FILTER_LABELS_TO_TAGS_Own in Hv. rewrite (IH tags H). by rewrite Hv.
  - apply FILTER_LABELS_TO_TAGS_Own.
  - intros label Hno.
    destruct (FILTER_LABELS_TO_TAGS_cases Object_prototype_has label)
      as [(tag & Hl & _)|[_ H]]; [by destruct (Hno tag)|done].
Qed.

(** ** The resolved active path *)

Lemma find_path_Some (segment : string) (l : list (option NavigatorFlatItem))
      (c : NavigatorFlatItem) :
  find_path segment l = Done (Some c) -> path c = Some segment /\ Some c ∈ l.
Proof.
  induction l as [|[x|] l IH]; simpl; [done| |done].
  destruct (bool_decide (path x = Some segment)) eqn:E.
  - intros [= <-]. apply bool_decide_eq_true in E. split; [done|by left].
  - intros H. destruct (IH H) as [Hp Hin]. split; [done|by right].
Qed.

Lemma activePathChildren_loop_paths (cm : gmap Z NavigatorFlatItem) :
  forall stack childrenStack result res,
    activePathChildren_loop cm stack childrenStack result = Done res ->
    exists found,
      res = result ++ found
      /\ map path found = map Some (take (length found) stack)
      /\ (length found <= length stack)%nat
      /\ forall n, head found = Some n -> Some n ∈ childrenStack.
Proof.
  intros stack. induction stack as [|segment stack IH];
    intros childrenStack result res H; simpl in H.
  - injection H as <-. exists []. by rewrite app_nil_r.
  - destruct (find_path segment childrenStack) as [[c|]| |] eqn:Hfind;
      simpl in H; [| |done|done].
    + destruct (find_path_Some _ _ _ Hfind) as [Hp Hin].
      destruct (IH _ _ _ H) as (found & -> & Hpaths & Hlen & _).
      exists (c :: found). split; [by rewrite <- app_assoc|]. simpl.
      split; [by rewrite Hp, Hpaths|]. split; [lia|]. by intros n [= <-].
    + injection H as <-. exists []. rewrite app_nil_r. simpl.
      split; [done|]. split; [done|]. split; [lia|done].
Qed.

(** X2.  Whenever resolution ends, the paths of the resolved nodes are
    the first segments of the active path, one node per segment, and the
    first resolved node is a node of the collection. *)
Theorem activePathChildren_paths (children : list NavigatorFlatItem)
        (activePath : list string) (resolved : list NavigatorFlatItem) :
  activePathChildren children activePath = Done resolved ->
  map path resolved = map Some (take (length resolved) activePath)
  /\ (length resolved <= length activePath)%nat
  /\ forall n, head resolved = Some n -> n ∈ children.
Proof.
  unfold activePathChildren. rewrite rev_involutive. intros H.
  destruct (activePathChildren_loop_paths _ _ _ _ _ H)
    as (found & -> & Hp & Hlen & Hhead).
  simpl. split; [done|]. split; [done|]. intros n Hn.
  apply Hhead in Hn. by apply list_elem_of_fmap in Hn as (c & [= <-] & Hc).
Qed.

Lemma activePathChildren_paths_witness :
  map path [Sample.B; Sample.C]
  = map Some (take (length [Sample.B; Sample.C]) ["/b"; "/b/c"; "/b/c/d"])
  /\ (length [Sample.B; Sample.C] <= length ["/b"; "/b/c"; "/b/c/d"])%nat
  /\ forall n, head [Sample.B; Sample.C] = Some n -> n ∈ children Sample.props.
Proof.
  apply (activePathChildren_paths (children Sample.props)
           ["/b"; "/b/c"; "/b/c/d"] [Sample.B; Sample.C]).
  reflexivity.
Defined.

Lemma ancestor_or_self_trans (cm : gmap Z NavigatorFlatItem)
      (a b c : NavigatorFlatItem) :
  ancestor_or_self cm a b -> ancestor_or_self cm b c -> ancestor_or_self cm a c.
Proof.
  intros Hab Hbc. induction Hbc as [|b c p m Hp Hm Hbm IH]; [done|].
  apply (aos_parent cm a c p m); auto.
Qed.

Lemma head_resolve (cm : gmap Z NavigatorFlatItem) (segments : list string)
      (candidates : list NavigatorFlatItem) (h : NavigatorFlatItem) :
  head (resolve cm segments candidates) = Some h -> h ∈ candidates.
Proof.
  destruct segments as [|segment rest]; simpl; [done|].
  destruct (List.find _ candidates) as [node|] eqn:Hfind; [|done].
  intros [= <-]. apply List.find_some in Hfind as [Hin _].
  by apply list_elem_of_In.
Qed.

Section Chain.
Variables (forest : list NavigatorTree) (children : list NavigatorFlatItem).
Hypothesis Hinv : flat_tree_invariants forest children.

Local Abbreviation cm := (childrenMap children).

(** A node filed under a uid that a node of the collection lists as a
    child hangs under that node. *)
Lemma listed_child_parent (node h : NavigatorFlatItem) (u : Z) :
  node ∈ children -> u ∈ childUIDs node -> cm !! u = Some h ->
  parent h = ParentUID (uid node).
Proof.
  intros Hnode Hu Hh. destruct Hinv as [Heq Hnd]. pose proof Hnode as Hnode'.
  rewrite Heq in Hnode'.
  destruct (flattenForest_child _ _ _ _ Hnode' Hu) as (c & Hc & Hcu & Hcp).
  rewrite <- Heq in Hc. apply childrenMap_lookup_Some in Hh as [Hin Huid].
  assert (h = c) as ->; [|done].
  apply (uid_inj_NoDup children); auto. congruence.
Qed.

Lemma listed_children_parent (node h : NavigatorFlatItem) :
  node ∈ children ->
  h ∈ omap (fun u => cm !! u) (childUIDs node) ->
  parent h = ParentUID (uid node) /\ h ∈ children.
Proof.
  intros Hnode Hh. split; [|by apply elem_of_omap_lookup in Hh].
  apply list_elem_of_omap in Hh as (u & Hu & Hlook).
  by apply (listed_child_parent node h u).
Qed.

Lemma resolve_linked (segments : list string) :
  forall candidates,
    (forall c, c ∈ candidates -> c ∈ children) ->
    linked (resolve cm segments candidates).
Proof.
  induction segments as [|segment rest IH]; intros candidates Hsub; simpl.
  - constructor.
  - destruct (List.find _ candidates) as [node|] eqn:Hfind; [|constructor].
    apply List.find_some in Hfind as [Hin _]. apply list_elem_of_In, Hsub in Hin.
    specialize (IH (omap (fun u => cm !! u) (childUIDs node))
                   (fun c Hc => elem_of_omap_lookup _ _ _ Hc)).
    destruct (resolve cm rest _) as [|h r] eqn:Hr; [constructor|].
    constructor; [|done].
    apply (listed_children_parent node h Hin).
    apply (head_resolve cm rest). by rewrite Hr.
Qed.

(** Along a list of linked nodes of the collection every node is an
    ancestor of the last one. *)
Lemma linked_ancestors (l : list NavigatorFlatItem) :
  linked l -> (forall c, c ∈ l -> c ∈ children) ->
  forall a n, a ∈ l -> last l = Some n -> ancestor_or_self cm a n.
Proof.
  destruct Hinv as [_ Hnd].
  induction 1 as [|x|x y l Hp Hl IH]; intros Hsub a n Ha Hlast.
  - by apply elem_of_nil in Ha.
  - apply list_elem_of_singleton in Ha as ->. injection Hlast as <-. constructor.
  - assert (ancestor_or_self cm y n) as Hyn.
    { apply IH; [intros c Hc; apply Hsub; by right|by left|done]. }
    apply elem_of_cons in Ha as [->|Ha].
    + apply (ancestor_or_self_trans cm x y n); [|done].
      apply (aos_parent cm x y (uid x) x); [done| |constructor].
      apply childrenMap_lookup_NoDup; [done|]. apply Hsub. by left.
    + apply IH; [intros c Hc; apply Hsub; by right|done|done].
Qed.

(** X3.  On a well-formed collection resolution ends; each resolved
    node hangs under the one resolved before it, so every bold item (a
    key of [activePathMap]) is an ancestor of the active item or the
    active item itself, and the active item is bold. *)
Theorem bold_items_are_ancestors (activePath : list string) :
  exists resolved,
    activePathChildren children activePath = Done resolved
    /\ linked resolved
    /\ (forall u, activeUID resolved = Some u -> u ∈ activePathMap resolved)
    /\ forall a n,
         a ∈ resolved -> last resolved = Some n -> ancestor_or_self cm a n.
Proof.
  exists (resolve cm activePath children).
  assert (forall c, c ∈ resolve cm activePath children -> c ∈ children) as Hsub.
  { intros c. by apply resolve_subset. }
  split; [|split; [|split]].
  - apply activePathChildren_Done_resolve.
    by apply (flat_tree_childUIDs_resolve forest).
  - by apply resolve_linked.
  - intros u Hu. unfold activeUID in Hu. apply fmap_Some in Hu as (n & Hn & ->).
    unfold activePathMap. apply elem_of_list_to_set, list_elem_of_fmap_2.
    apply last_Some in Hn as [l' ->]. apply elem_of_app. right. by left.
  - apply linked_ancestors; [by apply resolve_linked|done].
Qed.
End Chain.

Lemma bold_items_are_ancestors_witness :
  exists resolved,
    activePathChildren (children Sample.props) ["/b"; "/b/c"] = Done resolved
    /\ linked resolved
    /\ (forall u, activeUID resolved = Some u -> u ∈ activePathMap resolved)
    /\ forall a n,
         a ∈ resolved -> last resolved = Some n ->
         ancestor_or_self (childrenMap (children Sample.props)) a n.
Proof.
  exact (bold_items_are_ancestors Sample.forest (children Sample.props)
           sample_invariants ["/b"; "/b/c"]).
Defined.

(** ** The two walks, by kinship *)

Lemma forest_descendants (cm : gmap Z NavigatorFlatItem) (forest : list NavigatorTree) :
  forall par a,
    (forall c, c ∈ flattenForest par forest -> cm !! uid c = Some c) ->
    (forall k, k ∈ forest -> ancestor_or_self cm a (item par k)) ->
    forall c, c ∈ flattenForest par forest -> ancestor_or_self cm a c.
Proof.
  induction forest as [|t rest IHkids IHrest] using forest_ind;
    intros par a Hcm Hroots c Hc.
  - by apply elem_of_nil in Hc.
  - rewrite flattenForest_cons in Hc, Hcm.
    assert (ancestor_or_self cm a (item par t)) as Ht.
    { apply Hroots. by left. }
    apply elem_of_cons in Hc as [->|Hc]; [done|].
    apply elem_of_app in Hc as [Hc|Hc].
    + apply (IHkids (ParentUID (root_uid t)) a); [| |done].
      * intros c' Hc'. apply Hcm. right. apply elem_of_app. by left.
      * intros k Hk.
        apply (aos_parent cm a _ (root_uid t) (item par t)); [|  |done].
        -- by rewrite parent_item.
        -- rewrite <- (uid_item par t). apply Hcm. by left.
    + apply (IHrest par a); [| |done].
      * intros c' Hc'. apply Hcm. right. apply elem_of_app. by right.
      * intros k Hk. apply Hroots. by right.
Qed.

Section Kin.
Variables (forest : list NavigatorTree) (children l1 l2 : list NavigatorFlatItem).
Variables (par : ParentKey) (t : NavigatorTree).
Hypothesis Hinv : flat_tree_invariants forest children.
Hypothesis Hsplit :
  children = l1 ++ item par t
               :: flattenForest (ParentUID (root_uid t)) (subforest t) ++ l2.

Local Abbreviation n := (item par t).
Local Abbreviation sub := (flattenForest (ParentUID (root_uid t)) (subforest t)).
Local Abbreviation cm := (childrenMap children).

(** The subtree of a node holds the nodes of the collection that have
    the node on their parent chain, and no others. *)
Lemma subtree_descendants (c : NavigatorFlatItem) :
  c ∈ n :: sub <-> c ∈ children /\ ancestor_or_self cm n c.
Proof.
  pose proof Hinv as [_ Hnd]. split.
  - intros Hc. split; [by apply (subtree_in_children children l1 l2 par t)|].
    apply elem_of_cons in Hc as [->|Hc]; [constructor|].
    apply (forest_descendants cm (subforest t) (ParentUID (root_uid t))); [| |done].
    + intros c' Hc'. apply childrenMap_lookup_NoDup; [done|].
      by apply (sub_in_children children l1 l2 par t).
    + intros k Hk.
      apply (aos_parent cm n _ (root_uid t) n); [by rewrite parent_item| |constructor].
      rewrite <- (uid_item par t). apply childrenMap_lookup_NoDup; [done|].
      by apply (node_in_children children l1 l2 par t).
  - intros [Hc Haos]. revert Hc.
    assert (forall a, ancestor_or_self cm a c -> a = n -> c ∈ children -> c ∈ n :: sub)
      as H; [|by apply (H n)].
    intros a Ha. induction Ha as [|a c p m Hp Hm Ham IH]; intros -> Hc; [by left|].
    apply childrenMap_lookup_Some in Hm as [Hmin <-].
    right. apply (child_in_sub forest children l1 l2 par t Hinv Hsplit c m); auto.
Qed.
End Kin.

(** X4.  [getAllChildren] of a node of a well-formed collection ends
    and returns a contiguous run of the collection: the node first, then
    exactly the nodes that have it on their parent chain, in document
    order. *)
Theorem getAllChildren_descendants (forest : list NavigatorTree)
        (children : list NavigatorFlatItem) (fuel : nat) (node : NavigatorFlatItem) :
  flat_tree_invariants forest children ->
  (length children <= fuel)%nat ->
  node ∈ children ->
  exists l1 sub l2,
    children = l1 ++ node :: sub ++ l2
    /\ getAllChildren (childrenMap children) fuel (uid node) = Done (node :: sub)
    /\ forall c, c ∈ node :: sub
                 <-> c ∈ children /\ ancestor_or_self (childrenMap children) node c.
Proof.
  intros Hinv Hfuel Hnode. pose proof Hinv as [Heq _].
  pose proof Hnode as Hnode'. rewrite Heq in Hnode'.
  destruct (flattenForest_split _ _ _ Hnode') as (par & t & l1 & l2 & Hsplit & ->).
  rewrite <- Heq in Hsplit.
  exists l1, (flattenForest (ParentUID (root_uid t)) (subforest t)), l2.
  split; [done|split].
  - rewrite uid_item. by apply (getAllChildren_subtree forest children l1 l2).
  - intros c. by apply (subtree_descendants forest children l1 l2).
Qed.

Lemma getAllChildren_descendants_witness :
  exists l1 sub l2,
    children Sample.props = l1 ++ Sample.B :: sub ++ l2
    /\ getAllChildren (childrenMap (children Sample.props)) 3 (uid Sample.B)
       = Done (Sample.B :: sub)
    /\ forall c, c ∈ Sample.B :: sub
                 <-> c ∈ children Sample.props
                     /\ ancestor_or_self (childrenMap (children Sample.props)) Sample.B c.
Proof.
  apply (getAllChildren_descendants Sample.forest (children Sample.props) 3 Sample.B).
  - exact sample_invariants.
  - vm_compute. lia.
  - apply (bool_decide_unpack _). vm_compute. exact I.
Defined.

Lemma linked_cons_head (x : NavigatorFlatItem) (l : list NavigatorFlatItem) :
  linked l -> (forall h, head l = Some h -> parent h = ParentUID (uid x)) ->
  linked (x :: l).
Proof.
  intros Hl Hh. destruct l as [|y l]; constructor; [|done]. by apply Hh.
Qed.

Lemma parent_to_follow_Some (obj : NavigatorFlatItem) (p : Z) :
  parent_to_follow obj = Some p -> parent obj = ParentUID p.
Proof.
  unfold parent_to_follow. destruct (parent obj) as [|q]; [done|].
  destruct (Z.eqb q 0); [done|]. by intros [= ->].
Qed.

(** What [getParents] keeps while it climbs: the nodes collected so far
    are linked, and the first of them hangs under the uid on the stack. *)
Lemma getParents_loop_linked (children : list NavigatorFlatItem) :
  forall fuel stack arr res,
    getParents_loop (childrenMap children) fuel stack arr = Done res ->
    linked arr ->
    match stack with
    | [] => forall h, head arr = Some h -> parent_to_follow h = None
    | [p] => forall h, head arr = Some h -> parent h = ParentUID p
    | _ => False
    end ->
    linked res /\ forall h, head res = Some h -> parent_to_follow h = None.
Proof.
  induction fuel as [|fuel IH]; intros stack arr res Hres Hl Hst.
  - destruct stack; [|done]. injection Hres as <-. done.
  - destruct stack as [|p [|q stack]]; [injection Hres as <-; done| |done].
    simpl in Hres.
    destruct (childrenMap children !! p) as [obj|] eqn:Hobj; [|done].
    apply childrenMap_lookup_Some in Hobj as [_ <-].
    apply IH in Hres; [done| |].
    + by apply linked_cons_head.
    + destruct (parent_to_follow obj) as [q|] eqn:Hq; simpl.
      * intros h [= <-]. by apply parent_to_follow_Some.
      * by intros h [= <-].
Qed.

(** X5.  [getParents] of a node of a well-formed collection ends with
    the path down to the node: the node comes last, each node of the path
    hangs under the one before it, and the first one has nothing above it
    that the walk would follow (its parent is the root key, or the falsy
    uid 0). *)
Theorem getParents_path (forest : list NavigatorTree)
        (children : list NavigatorFlatItem) (fuel : nat) (node : NavigatorFlatItem) :
  flat_tree_invariants forest children ->
  (length children <= fuel)%nat ->
  node ∈ children ->
  exists above,
    getParents (childrenMap children) fuel (uid node) = Done (above ++ [node])
    /\ linked (above ++ [node])
    /\ (forall h, head (above ++ [node]) = Some h -> parent_to_follow h = None)
    /\ forall a, a ∈ above ++ [node] -> a ∈ children.
Proof.
  intros Hinv Hfuel Hnode.
  pose (props := {| technology := ""; children := children; activePath := [] |}).
  destruct (getParents_chain forest props fuel Hinv Hfuel node Hnode)
    as (above & Hg & Hin & _).
  exists above. split; [done|].
  destruct (getParents_loop_linked children fuel [uid node] [] _ Hg) as [Hl Hh].
  - constructor.
  - done.
  - done.
Qed.

Lemma getParents_path_witness :
  exists above,
    getParents (childrenMap (children Sample.props)) 3 (uid Sample.C)
    = Done (above ++ [Sample.C])
    /\ linked (above ++ [Sample.C])
    /\ (forall h, head (above ++ [Sample.C]) = Some h -> parent_to_follow h = None)
    /\ forall a, a ∈ above ++ [Sample.C] -> a ∈ children Sample.props.
Proof.
  apply (getParents_path Sample.forest (children Sample.props) 3 Sample.C).
  - exact sample_invariants.
  - vm_compute. lia.
  - apply (bool_decide_unpack _). vm_compute. exact I.
Defined.

(** ** Toggling, whatever is rendered *)

Lemma findIndex_none {A : Type} (pred : A -> bool) (l : list A) :
  (forall y, y ∈ l -> pred y = false) -> findIndex pred l = -1.
Proof.
  induction l as [|x l IH]; intros H; [done|]. simpl.
  rewrite (H x) by by left. rewrite IH by (intros y Hy; apply H; by right). done.
Qed.

Lemma roots_sublist (par : ParentKey) (forest : list NavigatorTree) :
  sublist (map (item par) forest) (flattenForest par forest).
Proof.
  induction forest as [|t rest IH]; [constructor|].
  rewrite flattenForest_cons. simpl. apply sublist_skip.
  by apply sublist_inserts_l.
Qed.

Section ToggleAny.
Variables (forest : list NavigatorTree) (props : Props) (fuel : nat).
Variables (l1 l2 : list NavigatorFlatItem) (par : ParentKey) (t : NavigatorTree).
Hypothesis Hinv : flat_tree_invariants forest (children props).
Hypothesis Hfuel : (length (children props) <= fuel)%nat.
Hypothesis Hsplit :
  children props
  = l1 ++ item par t :: flattenForest (ParentUID (root_uid t)) (subforest t) ++ l2.

Local Abbreviation n := (item par t).
Local Abbreviation sub := (flattenForest (ParentUID (root_uid t)) (subforest t)).
Local Abbreviation kids := (map (item (ParentUID (root_uid t))) (subforest t)).
Local Abbreviation cm := (childrenMap (children props)).

(** The nodes below the node, the node itself left out. *)
Lemma strict_descendants (c : NavigatorFlatItem) :
  c ∈ sub <-> c ∈ children props /\ c <> n /\ ancestor_or_self cm n c.
Proof.
  pose proof (subtree_descendants forest (children props) l1 l2 par t Hinv Hsplit c)
    as Hd.
  pose proof (node_not_in_sub forest (children props) l1 l2 par t Hinv Hsplit) as Hn.
  split.
  - intros Hc. destruct (proj1 Hd) as [H1 H2]; [by right|].
    split; [done|split; [|done]]. by intros ->.
  - intros (Hc & Hne & Ha). pose proof (proj2 Hd (conj Hc Ha)) as H.
    apply elem_of_cons in H as [->|H]; done.
Qed.

(** The nodes right below the node. *)
Lemma direct_children (c : NavigatorFlatItem) :
  c ∈ kids <-> c ∈ children props /\ parent c = ParentUID (uid n).
Proof.
  split.
  - intros (k & -> & Hk)%list_elem_of_fmap. split.
    + apply (sub_in_children (children props) l1 l2 par t Hsplit).
      by apply item_in_flattenForest.
    + by rewrite parent_item, uid_item.
  - intros [Hc Hp].
    assert (c ∈ sub) as Hsub.
    { apply (child_in_sub forest (children props) l1 l2 par t Hinv Hsplit c n);
        [done|by left|done]. }
    destruct (flattenForest_parent _ _ _ Hsub) as [(k & Hk & ->)|(m & Hm & Hp' & _)].
    + by apply list_elem_of_fmap_2.
    + exfalso.
      apply (node_not_in_sub forest (children props) l1 l2 par t Hinv Hsplit).
      assert (m = n) as <-; [|done]. destruct Hinv as [_ Hnd].
      apply (uid_inj_NoDup (children props)); [done| | |congruence].
      * by apply (sub_in_children (children props) l1 l2 par t Hsplit).
      * by apply (node_in_children (children props) l1 l2 par t).
Qed.

Lemma kids_sublist : sublist kids (children props).
Proof.
  rewrite Hsplit. apply sublist_inserts_l, sublist_cons_r. left.
  apply sublist_inserts_r, roots_sublist.
Qed.

Lemma close_any (st : State) :
  uid n ∈ openNodes st ->
  exists st',
    toggle fuel props n st = Done st'
    /\ toggleFullTree fuel props n st = Done st'
    /\ hasFilter st' = hasFilter st
    /\ openNodes st' = openNodes st ∖ list_to_set (map uid (n :: sub))
    /\ nodesToRender st'
       = List.filter (fun c => negb (has sub c)) (nodesToRender st).
Proof.
  intros Hopen. unfold toggle, toggleFullTree.
  rewrite (bool_decide_eq_true_2 _ Hopen).
  rewrite (getAllChildren_at forest props fuel l1 l2 par t Hinv Hfuel Hsplit).
  eexists. split; [reflexivity|split; [reflexivity|]].
  destruct (augmentRenderNodes_fields props (uid n) [] sub
              (set_openNodes (openNodes st ∖ list_to_set (map uid (n :: sub))) st))
    as (H1 & H2 & _).
  split; [exact H2|split; [exact H1|]].
  exact (augment_exclude props (uid n) sub
           (set_openNodes (openNodes st ∖ list_to_set (map uid (n :: sub))) st)).
Qed.

Lemma open_any (st : State) :
  uid n ∉ openNodes st ->
  exists st',
    toggle fuel props n st = Done st'
    /\ hasFilter st' = hasFilter st
    /\ openNodes st' = {[uid n]} ∪ openNodes st
    /\ nodesToRender st'
       = match kids with
         | [] => nodesToRender st
         | _ :: _ =>
             splice (findIndex (fun x => Z.eqb (uid x) (uid n)) (nodesToRender st) + 1)
                    kids (nodesToRender st)
         end.
Proof.
  intros Hopen. unfold toggle.
  rewrite (bool_decide_eq_false_2 _ Hopen).
  rewrite (included_children forest (children props) l1 l2 par t Hinv Hsplit).
  eexists. split; [reflexivity|].
  destruct (augmentRenderNodes_fields props (uid n) kids []
              (set_openNodes ({[uid n]} ∪ openNodes st) st)) as (H1 & H2 & H3).
  split; [exact H2|split; [exact H1|]].
  etrans; [exact H3|]. by destruct kids.
Qed.
End ToggleAny.

(** X6.  Closing an open node of a well-formed collection, with or
    without a filter: [toggle] and [toggleFullTree] do the same; the
    rendered list loses the nodes below the node, and no others, and
    keeps its order; the node and everything below it are no longer
    open; whether a filter is active does not change. *)
Theorem closing_drops_descendants (forest : list NavigatorTree) (props : Props)
        (fuel : nat) (node : NavigatorFlatItem) (st : State) :
  flat_tree_invariants forest (children props) ->
  (length (children props) <= fuel)%nat ->
  node ∈ children props ->
  uid node ∈ openNodes st ->
  exists st',
    toggle fuel props node st = Done st'
    /\ toggleFullTree fuel props node st = Done st'
    /\ hasFilter st' = hasFilter st
    /\ sublist (nodesToRender st') (nodesToRender st)
    /\ (forall c,
          c ∈ nodesToRender st'
          <-> c ∈ nodesToRender st
              /\ ~ (c ∈ children props /\ c <> node
                    /\ ancestor_or_self (childrenMap (children props)) node c))
    /\ forall u,
         u ∈ openNodes st'
         <-> u ∈ openNodes st
             /\ ~ exists c, c ∈ children props
                            /\ ancestor_or_self (childrenMap (children props)) node c
                            /\ uid c = u.
Proof.
  intros Hinv Hfuel Hnode Hopen. pose proof Hinv as [Heq _].
  pose proof Hnode as Hnode'. rewrite Heq in Hnode'.
  destruct (flattenForest_split _ _ _ Hnode') as (par & t & l1 & l2 & Hsplit & ->).
  rewrite <- Heq in Hsplit.
  destruct (close_any forest props fuel l1 l2 par t Hinv Hfuel Hsplit st Hopen)
    as (st' & Ht & Htf & Hf & Ho & Hn).
  exists st'. split; [done|split; [done|split; [done|]]].
  rewrite Hn, Ho. split; [apply filter_sublist|split].
  - intros c. rewrite elem_of_filter_bool. apply and_iff_compat_l.
    unfold has. rewrite negb_true_iff, bool_decide_eq_false.
    by rewrite (strict_descendants forest props l1 l2 par t Hinv Hsplit c).
  - intros u. rewrite elem_of_difference. apply and_iff_compat_l.
    rewrite (subtree_uids par t). split; intros H (c & H1 & H2); apply H.
    + destruct H2 as [H2 H3]. exists c. split; [|done].
      by apply (subtree_descendants forest (children props) l1 l2 par t Hinv Hsplit).
    + exists c.
      apply (subtree_descendants forest (children props) l1 l2 par t Hinv Hsplit)
        in H1 as [H1 H3]. done.
Qed.

Lemma closing_drops_descendants_witness :
  exists st',
    toggle 3 Sample.props Sample.B Sample.articlesSelected = Done st'
    /\ toggleFullTree 3 Sample.props Sample.B Sample.articlesSelected = Done st'
    /\ hasFilter st' = hasFilter Sample.articlesSelected
    /\ sublist (nodesToRender st') (nodesToRender Sample.articlesSelected)
    /\ (forall c,
          c ∈ nodesToRender st'
          <-> c ∈ nodesToRender Sample.articlesSelected
              /\ ~ (c ∈ children Sample.props /\ c <> Sample.B
                    /\ ancestor_or_self (childrenMap (children Sample.props))
                         Sample.B c))
    /\ forall u,
         u ∈ openNodes st'
         <-> u ∈ openNodes Sample.articlesSelected
             /\ ~ exists c, c ∈ children Sample.props
                            /\ ancestor_or_self (childrenMap (children Sample.props))
                                 Sample.B c
                            /\ uid c = u.
Proof.
  apply (closing_drops_descendants Sample.forest Sample.props 3 Sample.B
           Sample.articlesSelected).
  - exact sample_invariants.
  - vm_compute. lia.
  - apply (bool_decide_unpack _). vm_compute. exact I.
  - apply (bool_decide_unpack _). vm_compute. exact I.
Defined.

(** X7.  Opening a closed node of a well-formed collection with
    [toggle], with or without a filter: the node becomes open, nothing
    else does; the nodes put into the rendered list are the nodes of the
    collection right below the node, in document order; they go right
    behind the first rendered item with the node's uid, and to the front
    of the list when no rendered item has that uid. *)
Theorem opening_inserts_children (forest : list NavigatorTree) (props : Props)
        (fuel : nat) (node : NavigatorFlatItem) (st : State) :
  flat_tree_invariants forest (children props) ->
  node ∈ children props ->
  uid node ∉ openNodes st ->
  exists st' kids,
    toggle fuel props node st = Done st'
    /\ hasFilter st' = hasFilter st
    /\ openNodes st' = {[uid node]} ∪ openNodes st
    /\ sublist kids (children props)
    /\ (forall c, c ∈ kids
                  <-> c ∈ children props /\ parent c = ParentUID (uid node))
    /\ (forall before behind,
          nodesToRender st = before ++ node :: behind ->
          (forall x, x ∈ before -> uid x <> uid node) ->
          nodesToRender st' = before ++ node :: kids ++ behind)
    /\ ((forall x, x ∈ nodesToRender st -> uid x <> uid node) ->
        nodesToRender st' = kids ++ nodesToRender st).
Proof.
  intros Hinv Hnode Hopen. pose proof Hinv as [Heq _].
  pose proof Hnode as Hnode'. rewrite Heq in Hnode'.
  destruct (flattenForest_split _ _ _ Hnode') as (par & t & l1 & l2 & Hsplit & ->).
  rewrite <- Heq in Hsplit.
  destruct (open_any forest props fuel l1 l2 par t Hinv Hsplit st Hopen)
    as (st' & Ht & Hf & Ho & Hn).
  exists st', (map (item (ParentUID (root_uid t))) (subforest t)).
  split; [done|split; [done|split; [done|split; [|split; [|split]]]]].
  - by apply (kids_sublist props l1 l2 par t).
  - by apply (direct_children forest props l1 l2 par t).
  - intros before behind Hlist Hbefore. rewrite Hn.
    destruct (map _ (subforest t)) as [|k ks] eqn:Hk; [done|].
    rewrite Hlist, findIndex_app, splice_after; [done| |apply Z.eqb_refl].
    intros y Hy. apply Z.eqb_neq. by apply Hbefore.
  - intros Hnone. rewrite Hn.
    destruct (map _ (subforest t)) as [|k ks] eqn:Hk; [done|].
    rewrite findIndex_none; [done|].
    intros y Hy. apply Z.eqb_neq. by apply Hnone.
Qed.

Lemma opening_inserts_children_witness :
  exists st' kids,
    toggle 3 Sample.props Sample.B Folded.state = Done st'
    /\ hasFilter st' = hasFilter Folded.state
    /\ openNodes st' = {[uid Sample.B]} ∪ openNodes Folded.state
    /\ sublist kids (children Sample.props)
    /\ (forall c, c ∈ kids
                  <-> c ∈ children Sample.props
                      /\ parent c = ParentUID (uid Sample.B))
    /\ (forall before behind,
          nodesToRender Folded.state = before ++ Sample.B :: behind ->
          (forall x, x ∈ before -> uid x <> uid Sample.B) ->
          nodesToRender st' = before ++ Sample.B :: kids ++ behind)
    /\ ((forall x, x ∈ nodesToRender Folded.state -> uid x <> uid Sample.B) ->
        nodesToRender st' = kids ++ nodesToRender Folded.state).
Proof.
  apply (opening_inserts_children Sample.forest Sample.props 3 Sample.B
           Folded.state).
  - exact sample_invariants.
  - apply (bool_decide_unpack _). vm_compute. exact I.
  - apply (bool_decide_unpack _). vm_compute. exact I.
Defined.

(** ** Persisting and restoring *)

Lemma list_to_set_Object_keys (o : gset Z) : list_to_set (Object_keys o) = o.
Proof.
  apply set_eq. intros x. rewrite elem_of_list_to_set. unfold Object_keys.
  rewrite merge_sort_Permutation. apply elem_of_elements.
Qed.

Lemma omap_lookup_map_uid (children nodes : list NavigatorFlatItem) :
  NoDup (map uid children) ->
  (forall c, c ∈ nodes -> c ∈ children) ->
  omap (fun u => childrenMap children !! u) (map uid nodes) = nodes
  /\ forallb (fun u => bool_decide (is_Some (childrenMap children !! u)))
             (map uid nodes) = true.
Proof.
  intros Hnd. induction nodes as [|c nodes IH]; intros Hsub; [done|].
  destruct IH as [IH1 IH2]; [intros x Hx; apply Hsub; by right|].
  pose proof (childrenMap_lookup_NoDup children c Hnd (Hsub c ltac:(by left))) as Hc.
  split.
  - change (map uid (c :: nodes)) with (uid c :: map uid nodes).
    change (omap ?f (?x :: ?l))
      with (match f x with Some y => y :: omap f l | None => omap f l end).
    cbv beta. by rewrite Hc, IH1.
  - change (map uid (c :: nodes)) with (uid c :: map uid nodes).
    cbn [forallb]. rewrite IH2, andb_true_r. apply bool_decide_eq_true.
    by rewrite Hc.
Qed.

Lemma truthy_spec (s : string) : truthy s = true <-> s <> "".
Proof. by destruct s. Qed.

Lemma name_nonempty (tag : FILTER_TAGS.t) : exists a s, FILTER_TAGS.name tag = String a s.
Proof. destruct tag; by eexists _, _. Qed.

Lemma join_nonempty (tag : FILTER_TAGS.t) (tags : list FILTER_TAGS.t) :
  String.eqb (join (tag :: tags)) (join []) = false.
Proof.
  unfold join. simpl. destruct (name_nonempty tag) as (a & s & ->).
  by destruct (map FILTER_TAGS.name tags).
Qed.

Section Persist.
Variable regex_search : string -> bool -> string -> nat -> option nat.
Variable safeHighlightPattern : string -> string.
Variables (fuel : nat) (props : Props).

Local Abbreviation restore :=
  (restorePersistedState regex_search safeHighlightPattern fuel props).
Local Abbreviation deps_of := (nodeChangeDeps regex_search safeHighlightPattern props).
Local Abbreviation track := (trackOpenNodes regex_search safeHighlightPattern fuel props).

(** X8.  What is persisted can be restored.  Let the session store
    hold what [persistState] and the two watchers write in a state whose
    rendered nodes belong to the collection, and which renders something
    or has a filter text.  Mounting the card anew for the same technology
    and collection, uids being unique, takes over that state: the same
    open nodes, rendered list, filter text and tags, and persisting it
    again writes the same snapshot. *)
Theorem persisted_state_is_restored (id : nat) (st : State) :
  NoDup (map uid (children props)) ->
  (forall c, c ∈ nodesToRender st -> c ∈ children props) ->
  nodesToRender st <> [] \/ debouncedFilter st <> "" ->
  exists st',
    restore id (data (persisted props st)) = Done st'
    /\ st' = {| filter_ := debouncedFilter st;
                debouncedFilter := debouncedFilter st;
                selectedTags := selectedTags st;
                openNodes := openNodes st;
                nodesToRender := nodesToRender st;
                sessionStorage := persisted props st |}
    /\ persisted props st' = persisted props st.
Proof.
  intros Hnd Hsub Hsome. unfold restorePersistedState.
  destruct (omap_lookup_map_uid (children props) (nodesToRender st) Hnd Hsub)
    as [Hnodes Hall].
  cbn [persisted watch_selectedTags watch_debouncedFilter persistState data
       sessionStorage navigator_filter navigator_technology navigator_openNodes
       navigator_nodesToRender navigator_selectedTags default from_option].
  unfold Datatypes.id. rewrite Hall, Hnodes, list_to_set_Object_keys.
  rewrite (bool_decide_eq_true_2 (Some (technology props) = Some (technology props)))
    by done.
  replace (Nat.eqb (length (map uid (nodesToRender st))) 0
           && negb (truthy (debouncedFilter st))) with false.
  - simpl. eexists. split; [reflexivity|]. split; [reflexivity|].
    unfold persisted. simpl. done.
  - symmetry. destruct Hsome as [H|H].
    + destruct (nodesToRender st); done.
    + apply truthy_spec in H. rewrite H. apply andb_false_r.
Qed.

(** X9.  The guard of [trackOpenNodes] keeps a restored filter.  Once
    a snapshot with a filter text or with tags has been taken over on
    mount, the tracking run that follows, from the dependencies before
    the mount to those after it, returns at once and leaves the restored
    state as it is. *)
Theorem restored_filter_survives_tracking (id id' : nat) (storage : SessionStorage)
        (st' : State) (before deps : NodeChangeDeps) :
  snapshot_usable props storage = true ->
  truthy (default "" (navigator_filter storage)) = true
  \/ default [] (navigator_selectedTags storage) <> [] ->
  restore id (data storage) = Done st' ->
  deps_of id (data storage) = Done before ->
  deps_of id' st' = Done deps ->
  track deps (Some before) st' = Done st'.
Proof.
  intros Hu Hfilter Hr Hb Hd. unfold snapshot_usable in Hu.
  apply andb_true_iff in Hu as [Hu Hall].
  apply andb_true_iff in Hu as [Hsome Htech].
  unfold restorePersistedState in Hr. cbn [data sessionStorage] in Hr.
  replace (Nat.eqb (length (default [] (navigator_nodesToRender storage))) 0
           && negb (truthy (default "" (navigator_filter storage))))
    with false in Hr.
  2:{ symmetry. apply orb_true_iff in Hsome as [H|H].
      - apply negb_true_iff in H. by rewrite H.
      - rewrite H. apply andb_false_r. }
  rewrite Htech, Hall in Hr. simpl in Hr. injection Hr as <-.
  unfold nodeChangeDeps in Hb, Hd.
  destruct (activePathChildren (children props) (activePath props)) as [apc| |];
    [|done|done].
  simpl in Hb, Hd. injection Hb as <-. injection Hd as <-.
  unfold trackOpenNodes.
  replace (skipTracking _ _ _) with true; [done|].
  symmetry. unfold skipTracking. simpl. apply orb_true_iff.
  destruct Hfilter as [H|H].
  - left. rewrite H, !andb_true_r. apply negb_true_iff, bool_decide_eq_false.
    intros [= E]. by rewrite E in H.
  - right. destruct (default [] (navigator_selectedTags storage)) as [|tag tags];
      [done|].
    by rewrite join_nonempty.
Qed.
End Persist.

Lemma persisted_state_is_restored_witness :
  exists st',
    restorePersistedState Sample.no_match Sample.as_is 3 Sample.props 0
      (data (persisted Sample.props Sample.onlyB)) = Done st'
    /\ st' = {| filter_ := debouncedFilter Sample.onlyB;
                debouncedFilter := debouncedFilter Sample.onlyB;
                selectedTags := selectedTags Sample.onlyB;
                openNodes := openNodes Sample.onlyB;
                nodesToRender := nodesToRender Sample.onlyB;
                sessionStorage := persisted Sample.props Sample.onlyB |}
    /\ persisted Sample.props st' = persisted Sample.props Sample.onlyB.
Proof.
  apply (persisted_state_is_restored Sample.no_match Sample.as_is 3 Sample.props 0
           Sample.onlyB).
  - apply (bool_decide_unpack _). vm_compute. exact I.
  - intros c Hc. apply (bool_decide_unpack _).
    apply elem_of_cons in Hc as [->|Hc]; [vm_compute; exact I|].
    apply elem_of_cons in Hc as [->|Hc]; [vm_compute; exact I|].
    apply list_elem_of_singleton in Hc as ->. vm_compute. exact I.
  - left. discriminate.
Defined.

Lemma restored_filter_survives_tracking_witness :
  trackOpenNodes Sample.no_match Sample.as_is 3 Sample.props
    Folded.depsTagged (Some Sample.depsBefore) Folded.restoredTagged
  = Done Folded.restoredTagged.
Proof.
  apply (restored_filter_survives_tracking Sample.no_match Sample.as_is 3
           Sample.props 0 0 Folded.taggedSnapshot).
  - vm_compute. reflexivity.
  - right. discriminate.
  - vm_compute. reflexivity.
  - vm_compute. reflexivity.
  - vm_compute. reflexivity.
Defined.

(** ** What a tracking run opens *)

Lemma linked_member (l : list NavigatorFlatItem) (a : NavigatorFlatItem) :
  linked l -> a ∈ l ->
  head l = Some a \/ exists x, x ∈ l /\ parent a = ParentUID (uid x).
Proof.
  induction 1 as [|x|x y l Hp Hl IH]; intros Ha.
  - by apply elem_of_nil in Ha.
  - apply list_elem_of_singleton in Ha as ->. by left.
  - apply elem_of_cons in Ha as [->|Ha]; [by left|]. right.
    destruct (IH Ha) as [[= ->]|(z & Hz & Hpz)].
    + exists x. split; [by left|done].
    + exists z. split; [by right|done].
Qed.

Lemma ancestor_closed_empty (children : list NavigatorFlatItem) :
  ancestor_closed children ∅ = true.
Proof.
  apply ancestor_closed_spec. intros c _ Hu. by apply elem_of_empty in Hu.
Qed.

Section Tracking.
Variable regex_search : string -> bool -> string -> nat -> option nat.
Variable safeHighlightPattern : string -> string.
Variables (forest : list NavigatorTree) (props : Props) (fuel : nat).
Hypothesis Hinv : flat_tree_invariants forest (children props).
Hypothesis Hfuel : (length (children props) <= fuel)%nat.

Local Abbreviation cm := (childrenMap (children props)).
Local Abbreviation deps_of := (nodeChangeDeps regex_search safeHighlightPattern props).
Local Abbreviation track := (trackOpenNodes regex_search safeHighlightPattern fuel props).
Local Abbreviation filtered := (filteredChildren regex_search safeHighlightPattern props).
Local Abbreviation synced := (in_sync regex_search safeHighlightPattern).
Local Abbreviation resolved := (resolve cm (activePath props) (children props)).

(** X10.  When the filter changes and the page stays, a tracking run
    that is not skipped replaces the open nodes: afterwards a uid is open
    exactly when it is the uid of the parent of a direct match, or of a
    node above that parent.  What was open before is forgotten, and the
    filter text and the tags stay. *)
Theorem filter_change_opens_ancestors (id : nat) (b deps : NodeChangeDeps)
        (st : State) :
  no_falsy_parent (children props) = true ->
  hasFilter st = true ->
  deps_of id st = Done deps ->
  activePathChildren_id b = id ->
  skipTracking deps (Some b) st = false ->
  exists st',
    track deps (Some b) st = Done st'
    /\ debouncedFilter st' = debouncedFilter st
    /\ selectedTags st' = selectedTags st
    /\ forall u,
         u ∈ openNodes st'
         <-> exists m p pm a,
               m ∈ filtered st /\ parent m = ParentUID p /\ cm !! p = Some pm
               /\ ancestor_or_self cm a pm /\ uid a = u.
Proof.
  intros Hnz Hf Hd Hid Hskip.
  destruct (nodeChangeDeps_Done regex_search safeHighlightPattern forest props
              Hinv id st) as (deps' & Hd' & _ & Hfc & Hid' & _).
  rewrite Hd in Hd'. injection Hd' as <-.
  destruct (tracked_nodes forest props fuel Hinv Hfuel (filtered st) Hnz)
    as (ps & Hps & Hchar).
  { intros m. apply filteredChildren_subset. }
  unfold trackOpenNodes. rewrite Hskip, Hf, Hfc, Hps.
  unfold pageChange. rewrite Hid, Hid', Nat.eqb_refl. simpl.
  destruct (generateNodesToRender_Done regex_search safeHighlightPattern
              forest props fuel Hinv Hfuel
              (set_openNodes (∅ ∪ list_to_set (map uid (concat ps))) st))
    as (l & Hg & _).
  eexists. split; [exact Hg|]. simpl. split; [done|split; [done|]].
  intros u. rewrite (left_id_L ∅ (∪)), elem_of_list_to_set, list_elem_of_fmap.
  split.
  - intros (a & -> & Ha). apply Hchar in Ha as (m & p & pm & H1 & H2 & H3 & H4).
    by exists m, p, pm, a.
  - intros (m & p & pm & a & H1 & H2 & H3 & H4 & <-). exists a. split; [done|].
    apply Hchar. by exists m, p, pm.
Qed.

(** X11.  Clearing the filters folds the tree back to the active path.
    The tracking run that follows [clearFilters] on the same page is
    never skipped, whatever the session store holds; it opens the
    resolved active path and nothing else, and renders what is then
    renderable. *)
Theorem clearing_filters_opens_active_path (id : nat) (st : State) :
  exists b deps st',
    deps_of id st = Done b
    /\ deps_of id (clearFilters st) = Done deps
    /\ track deps (Some b) (clearFilters st) = Done st'
    /\ hasFilter st' = false
    /\ openNodes st' = list_to_set (map uid resolved)
    /\ nodesToRender st'
       = List.filter (renderable (openNodes st')) (children props).
Proof.
  destruct (nodeChangeDeps_Done regex_search safeHighlightPattern forest props
              Hinv id st) as (b & Hb & _ & _ & Hidb & Hfb & Htb).
  destruct (nodeChangeDeps_Done regex_search safeHighlightPattern forest props
              Hinv id (clearFilters st)) as (deps & Hd & Hapc & _ & Hid & Hfd & Htd).
  exists b, deps. eexists. split; [done|split; [done|]].
  assert (skipTracking deps (Some b) (clearFilters st) = false) as Hskip.
  { unfold skipTracking. simpl. rewrite Hfb, Hfd, Htb, Htd. simpl.
    apply orb_false_iff. split.
    - destruct (debouncedFilter st) as [|c s]; [done|].
      cbn [truthy negb]. by rewrite andb_false_r.
    - destruct (selectedTags st) as [|tag tags]; [done|].
      cbn [length Nat.eqb]. by rewrite andb_false_r. }
  unfold trackOpenNodes. rewrite Hskip.
  assert (hasFilter (clearFilters st) = false) as Hf by done.
  rewrite Hf. simpl.
  unfold pageChange. rewrite Hidb, Hid, Nat.eqb_refl. simpl.
  rewrite generateNodesToRender_unfiltered by done.
  split; [reflexivity|]. simpl. rewrite (left_id_L ∅ (∪)), Hapc. done.
Qed.

(** X12.  Without a filter, a tracking run that is not skipped leaves
    the card in sync: the open nodes are closed under parents and the
    rendered list is what a recompute yields, so that the patches of the
    toggles apply.  This needs the open nodes to be closed under parents
    before, and the first resolved node of the active path to be a
    top-level node.  Every resolved node, the active item included, is
    then rendered. *)
Theorem tracking_leaves_in_sync (id : nat) (before : option NodeChangeDeps)
        (deps : NodeChangeDeps) (st : State) :
  hasFilter st = false ->
  ancestor_closed (children props) (openNodes st) = true ->
  (forall h, head resolved = Some h -> parent h = INDEX_ROOT_KEY) ->
  deps_of id st = Done deps ->
  skipTracking deps before st = false ->
  exists st',
    track deps before st = Done st'
    /\ synced fuel props st'
    /\ forall a, a ∈ resolved -> a ∈ nodesToRender st'.
Proof.
  intros Hf Hac Hhead Hd Hskip.
  destruct (nodeChangeDeps_Done regex_search safeHighlightPattern forest props
              Hinv id st) as (deps' & Hd' & Hapc & _).
  rewrite Hd in Hd'. injection Hd' as <-.
  unfold trackOpenNodes. rewrite Hskip, Hf. simpl.
  rewrite generateNodesToRender_unfiltered by done.
  eexists. split; [reflexivity|]. rewrite Hapc.
  pose proof Hinv as [_ Hnd].
  assert (linked resolved) as Hl.
  { by apply (resolve_linked forest (children props)). }
  assert (forall a, a ∈ resolved -> a ∈ children props) as Hsub.
  { intros a. by apply resolve_subset. }
  set (base := if pageChange deps before then openNodes st else ∅).
  assert (ancestor_closed (children props) base = true) as Hbase.
  { subst base. destruct (pageChange deps before); [done|].
    apply ancestor_closed_empty. }
  assert (forall a, a ∈ resolved ->
            renderable (base ∪ list_to_set (map uid resolved)) a = true) as Hr.
  { intros a Ha. unfold renderable.
    destruct (linked_member _ a Hl Ha) as [Hh|(x & Hx & Hp)].
    - by rewrite (Hhead a Hh).
    - rewrite Hp. apply bool_decide_eq_true, elem_of_union. right.
      by apply elem_of_list_to_set, list_elem_of_fmap_2. }
  split.
  - apply in_sync_unfold. simpl. split; [done|split; [|done]].
    apply ancestor_closed_spec. intros c Hc Hu.
    apply elem_of_union in Hu as [Hu|Hu].
    + apply (renderable_mono base); [apply union_subseteq_l|].
      by apply (proj1 (ancestor_closed_spec _ _) Hbase).
    + apply elem_of_list_to_set, list_elem_of_fmap in Hu as (a & Hu & Ha).
      assert (c = a) as ->; [|by apply Hr].
      apply (uid_inj_NoDup (children props)); auto.
  - intros a Ha. simpl. apply elem_of_filter_bool. split; [by apply Hsub|].
    by apply Hr.
Qed.
End Tracking.

Lemma filter_change_opens_ancestors_witness :
  exists st',
    trackOpenNodes Sample.no_match Sample.as_is 3 Sample.props
      Folded.depsTagged (Some Sample.depsBefore) Sample.articlesSelected = Done st'
    /\ debouncedFilter st' = debouncedFilter Sample.articlesSelected
    /\ selectedTags st' = selectedTags Sample.articlesSelected
    /\ forall u,
         u ∈ openNodes st'
         <-> exists m p pm a,
               m ∈ filteredChildren Sample.no_match Sample.as_is Sample.props
                     Sample.articlesSelected
               /\ parent m = ParentUID p
               /\ childrenMap (children Sample.props) !! p = Some pm
               /\ ancestor_or_self (childrenMap (children Sample.props)) a pm
               /\ uid a = u.
Proof.
  apply (filter_change_opens_ancestors Sample.no_match Sample.as_is Sample.forest
           Sample.props 3 sample_invariants sample_fuel 0).
  - vm_compute. reflexivity.
  - vm_compute. reflexivity.
  - vm_compute. reflexivity.
  - vm_compute. reflexivity.
  - vm_compute. reflexivity.
Defined.

Lemma clearing_filters_opens_active_path_witness :
  exists b deps st',
    nodeChangeDeps Sample.no_match Sample.as_is Sample.props 0
      Sample.articlesSelected = Done b
    /\ nodeChangeDeps Sample.no_match Sample.as_is Sample.props 0
         (clearFilters Sample.articlesSelected) = Done deps
    /\ trackOpenNodes Sample.no_match Sample.as_is 3 Sample.props deps (Some b)
         (clearFilters Sample.articlesSelected) = Done st'
    /\ hasFilter st' = false
    /\ openNodes st'
       = list_to_set
           (map uid (resolve (childrenMap (children Sample.props))
                       (activePath Sample.props) (children Sample.props)))
    /\ nodesToRender st'
       = List.filter (renderable (openNodes st')) (children Sample.props).
Proof.
  exact (clearing_filters_opens_active_path Sample.no_match Sample.as_is
           Sample.forest Sample.props 3 sample_invariants 0 Sample.articlesSelected).
Defined.

Lemma tracking_leaves_in_sync_witness :
  exists st',
    trackOpenNodes Sample.no_match Sample.as_is 3 Sample.props
      Sample.depsAfter (Some Sample.depsBefore) Sample.onlyB = Done st'
    /\ in_sync Sample.no_match Sample.as_is 3 Sample.props st'
    /\ forall a,
         a ∈ resolve (childrenMap (children Sample.props))
               (activePath Sample.props) (children Sample.props) ->
         a ∈ nodesToRender st'.
Proof.
  apply (tracking_leaves_in_sync Sample.no_match Sample.as_is Sample.forest
           Sample.props 3 sample_invariants 1).
  - vm_compute. reflexivity.
  - vm_compute. reflexivity.
  - intros h Hh. vm_compute in Hh. injection Hh as <-. reflexivity.
  - vm_compute. reflexivity.
  - vm_compute. reflexivity.
Defined.

(** ** Opening a whole subtree, dangling uids, and what is rendered *)

Lemma open_full_any (forest : list NavigatorTree) (props : Props) (fuel : nat)
      (l1 l2 : list NavigatorFlatItem) (par : ParentKey) (t : NavigatorTree)
      (st : State) :
  flat_tree_invariants forest (children props) ->
  (length (children props) <= fuel)%nat ->
  children props
  = l1 ++ item par t :: flattenForest (ParentUID (root_uid t)) (subforest t) ++ l2 ->
  uid (item par t) ∉ openNodes st ->
  toggleFullTree fuel props (item par t) st
  = Done (augmentRenderNodes props (uid (item par t))
            (flattenForest (ParentUID (root_uid t)) (subforest t)) []
            (set_openNodes
               (openNodes st
                  ∪ list_to_set
                      (map uid (item par t
                                  :: flattenForest (ParentUID (root_uid t))
                                       (subforest t)))) st)).
Proof.
  intros Hinv Hfuel Hsplit Hopen. unfold toggleFullTree.
  rewrite (bool_decide_eq_false_2 _ Hopen).
  by rewrite (getAllChildren_at forest props fuel l1 l2 par t Hinv Hfuel Hsplit).
Qed.

(** X13.  Opening the whole subtree of a closed node of a well-formed
    collection with [toggleFullTree], with or without a filter: the node
    and every node below it become open, nothing else does; the nodes
    put into the rendered list are the nodes of the collection below the
    node, in document order; they go right behind the first rendered item
    with the node's uid, and to the front of the list when no rendered
    item has that uid. *)
Theorem opening_fully_inserts_descendants (forest : list NavigatorTree)
        (props : Props) (fuel : nat) (node : NavigatorFlatItem) (st : State) :
  flat_tree_invariants forest (children props) ->
  (length (children props) <= fuel)%nat ->
  node ∈ children props ->
  uid node ∉ openNodes st ->
  exists st' below,
    toggleFullTree fuel props node st = Done st'
    /\ hasFilter st' = hasFilter st
    /\ (forall u,
          u ∈ openNodes st'
          <-> u ∈ openNodes st
              \/ exists c, c ∈ children props
                           /\ ancestor_or_self (childrenMap (children props)) node c
                           /\ uid c = u)
    /\ sublist below (children props)
    /\ (forall c, c ∈ below
                  <-> c ∈ children props /\ c <> node
                      /\ ancestor_or_self (childrenMap (children props)) node c)
    /\ (forall before behind,
          nodesToRender st = before ++ node :: behind ->
          (forall x, x ∈ before -> uid x <> uid node) ->
          nodesToRender st' = before ++ node :: below ++ behind)
    /\ ((forall x, x ∈ nodesToRender st -> uid x <> uid node) ->
        nodesToRender st' = below ++ nodesToRender st).
Proof.
  intros Hinv Hfuel Hnode Hopen. pose proof Hinv as [Heq _].
  pose proof Hnode as Hnode'. rewrite Heq in Hnode'.
  destruct (flattenForest_split _ _ _ Hnode') as (par & t & l1 & l2 & Hsplit & ->).
  rewrite <- Heq in Hsplit.
  rewrite (open_full_any forest props fuel l1 l2 par t st Hinv Hfuel Hsplit Hopen).
  eexists. exists (flattenForest (ParentUID (root_uid t)) (subforest t)). split; [reflexivity|].
  destruct (augmentRenderNodes_fields props (uid (item par t))
              (flattenForest (ParentUID (root_uid t)) (subforest t)) []
              (set_openNodes
                 (openNodes st ∪ list_to_set (map uid (item par t :: flattenForest (ParentUID (root_uid t)) (subforest t)))) st))
    as (H1 & H2 & H3).
  split; [exact H2|]. split; [|split; [|split; [|split]]].
  - intros u. rewrite H1. cbn [set_openNodes openNodes].
    rewrite elem_of_union. apply or_iff_compat_l.
    rewrite (subtree_uids par t). split; intros (c & Hc & Hu); exists c.
    + apply (subtree_descendants forest (children props) l1 l2 par t Hinv Hsplit)
        in Hc as [Hc Ha]. done.
    + destruct Hu as [Ha Hu]. split; [|done].
      by apply (subtree_descendants forest (children props) l1 l2 par t Hinv Hsplit).
  - rewrite Hsplit. apply sublist_inserts_l, sublist_cons_r. left.
    by apply sublist_inserts_r.
  - intros c. by apply (strict_descendants forest props l1 l2 par t).
  - intros before behind Hlist Hbefore. etrans; [exact H3|].
    cbn [set_openNodes nodesToRender].
    destruct (flattenForest (ParentUID (root_uid t)) (subforest t)) as [|k ks];
      [by rewrite Hlist|].
    rewrite Hlist, findIndex_app, splice_after; [done| |apply Z.eqb_refl].
    intros y Hy. apply Z.eqb_neq. by apply Hbefore.
  - intros Hnone. etrans; [exact H3|].
    cbn [set_openNodes nodesToRender].
    destruct (flattenForest (ParentUID (root_uid t)) (subforest t)) as [|k ks];
      [done|].
    rewrite findIndex_none; [done|].
    intros y Hy. apply Z.eqb_neq. by apply Hnone.
Qed.

Lemma opening_fully_inserts_descendants_witness :
  exists st' below,
    toggleFullTree 3 Sample.props Sample.B Folded.state = Done st'
    /\ hasFilter st' = hasFilter Folded.state
    /\ (forall u,
          u ∈ openNodes st'
          <-> u ∈ openNodes Folded.state
              \/ exists c, c ∈ children Sample.props
                           /\ ancestor_or_self (childrenMap (children Sample.props))
                                Sample.B c
                           /\ uid c = u)
    /\ sublist below (children Sample.props)
    /\ (forall c, c ∈ below
                  <-> c ∈ children Sample.props /\ c <> Sample.B
                      /\ ancestor_or_self (childrenMap (children Sample.props))
                           Sample.B c)
    /\ (forall before behind,
          nodesToRender Folded.state = before ++ Sample.B :: behind ->
          (forall x, x ∈ before -> uid x <> uid Sample.B) ->
          nodesToRender st' = before ++ Sample.B :: below ++ behind)
    /\ ((forall x, x ∈ nodesToRender Folded.state -> uid x <> uid Sample.B) ->
        nodesToRender st' = below ++ nodesToRender Folded.state).
Proof.
  apply (opening_fully_inserts_descendants Sample.forest Sample.props 3 Sample.B
           Folded.state).
  - exact sample_invariants.
  - vm_compute. lia.
  - apply (bool_decide_unpack _). vm_compute. exact I.
  - apply (bool_decide_unpack _). vm_compute. exact I.
Defined.

Lemma all_defined_None {A : Type} (l : list (option A)) :
  all_defined l = None <-> None ∈ l.
Proof.
  induction l as [|[x|] l IH]; simpl.
  - split; [done|]. intros H. by apply elem_of_nil in H.
  - rewrite elem_of_cons. destruct (all_defined l) as [r|]; simpl.
    + split; [done|]. intros [H|H]; [done|]. by apply IH in H.
    + split; [|done]. intros _. right. by apply IH.
  - split; [|done]. intros _. by left.
Qed.

Lemma all_defined_Some {A : Type} (l : list (option A)) (r : list A) :
  all_defined l = Some r -> forall x, x ∈ r -> Some x ∈ l.
Proof.
  revert r. induction l as [|[y|] l IH]; intros r H x Hx; simpl in H.
  - injection H as <-. by apply elem_of_nil in Hx.
  - destruct (all_defined l) as [r'|]; [|done]. simpl in H. injection H as <-.
    apply elem_of_cons in Hx as [->|Hx]; [by left|]. right. by apply (IH r').
  - done.
Qed.

(** X14.  A dangling child uid makes [toggle] throw.  Opening a closed
    node throws exactly when one of the uids the node lists as its
    children is no key of the flat node store; otherwise it ends, and it
    never needs fuel. *)
Theorem toggle_throws_on_dangling_child (fuel : nat) (props : Props)
        (node : NavigatorFlatItem) (st : State) :
  uid node ∉ openNodes st ->
  (toggle fuel props node st = Throws
   <-> exists u, u ∈ childUIDs node /\ childrenMap (children props) !! u = None)
  /\ ((forall u, u ∈ childUIDs node -> is_Some (childrenMap (children props) !! u))
      -> exists st', toggle fuel props node st = Done st').
Proof.
  intros Hopen. unfold toggle. rewrite (bool_decide_eq_false_2 _ Hopen).
  destruct (all_defined _) as [include|] eqn:Hall.
  - split.
    + split; [done|]. intros (u & Hu & Hnone). exfalso.
      assert (all_defined (map (fun id => childrenMap (children props) !! id)
                               (childUIDs node)) = None) as E; [|congruence].
      apply all_defined_None. rewrite <- Hnone.
      by apply (list_elem_of_fmap_2 (fun id => childrenMap (children props) !! id)).
    + intros _. by eexists.
  - apply all_defined_None, list_elem_of_fmap in Hall as (u & Hnone & Hu).
    split.
    + split; [|done]. intros _. by exists u.
    + intros H. destruct (H u Hu) as [x Hx]. congruence.
Qed.

Lemma toggle_throws_on_dangling_child_witness :
  (toggle 0 Sample.props (mkItem 7 "D" None TopicTypes.class INDEX_ROOT_KEY [9])
          Folded.state = Throws
   <-> exists u, u ∈ [9] /\ childrenMap (children Sample.props) !! u = None)
  /\ ((forall u, u ∈ [9] -> is_Some (childrenMap (children Sample.props) !! u))
      -> exists st',
           toggle 0 Sample.props
                  (mkItem 7 "D" None TopicTypes.class INDEX_ROOT_KEY [9])
                  Folded.state = Done st').
Proof.
  apply (toggle_throws_on_dangling_child 0 Sample.props
           (mkItem 7 "D" None TopicTypes.class INDEX_ROOT_KEY [9]) Folded.state).
  apply (bool_decide_unpack _). vm_compute. exact I.
Defined.

Lemma getAllChildren_loop_values (cm : gmap Z NavigatorFlatItem) :
  forall fuel stack arr res,
    getAllChildren_loop cm fuel stack arr = Done res ->
    forall a, a ∈ res -> a ∈ arr \/ exists u, cm !! u = Some a.
Proof.
  intros fuel. induction fuel as [|fuel IH]; intros stack arr res H a Ha.
  - destruct stack; [|done]. injection H as <-. by left.
  - destruct stack as [|u stack]; [injection H as <-; by left|].
    simpl in H. destruct (cm !! u) as [n|] eqn:Hn; [|done].
    destruct (IH _ _ _ H a Ha) as [Hin|Hex]; [|by right].
    apply elem_of_app in Hin as [Hin|Hin]; [by left|].
    apply list_elem_of_singleton in Hin as ->. right. by exists u.
Qed.

Lemma elem_of_splice {A : Type} (start : Z) (items l : list A) (x : A) :
  x ∈ splice start items l -> x ∈ items \/ x ∈ l.
Proof.
  unfold splice. rewrite !elem_of_app. intros [H|[H|H]].
  - right. apply (elem_of_sublist _ _ _ H), sublist_take.
  - by left.
  - right. apply (elem_of_sublist _ _ _ H), sublist_drop.
Qed.

Lemma elem_of_tail {A : Type} (l : list A) (x : A) : x ∈ tail l -> x ∈ l.
Proof. destruct l; [done|]. simpl. by right. Qed.

Section Known.
Variable regex_search : string -> bool -> string -> nat -> option nat.
Variable safeHighlightPattern : string -> string.
Variables (fuel : nat) (props : Props).

Local Abbreviation cm := (childrenMap (children props)).
Local Abbreviation generate := (generateNodesToRender regex_search safeHighlightPattern).
Local Abbreviation track := (trackOpenNodes regex_search safeHighlightPattern fuel props).
Local Abbreviation restore :=
  (restorePersistedState regex_search safeHighlightPattern fuel props).
Local Abbreviation known st := (forall c, c ∈ nodesToRender st -> c ∈ children props).

Lemma augmentRenderNodes_known (u : Z) (include exclude : list NavigatorFlatItem)
      (st : State) :
  known st -> (forall c, c ∈ include -> c ∈ children props) ->
  known (augmentRenderNodes props u include exclude st).
Proof.
  intros Hst Hinc c.
  destruct (augmentRenderNodes_fields props u include exclude st) as (_ & _ & ->).
  destruct include as [|i include].
  - destruct exclude; [by apply Hst|].
    intros [Hc _]%elem_of_filter_bool. by apply Hst.
  - intros [Hc|Hc]%elem_of_splice; [by apply Hinc|by apply Hst].
Qed.

Lemma generate_known (st st' : State) : generate fuel props st = Done st' -> known st'.
Proof.
  unfold generateNodesToRender. destruct (mapM _ _) as [parents| |]; [|done|done].
  simpl. intros [= <-] c. simpl. by intros [Hc _]%elem_of_filter_bool.
Qed.

Lemma track_stays_known (deps : NodeChangeDeps) (before : option NodeChangeDeps)
      (st st' : State) :
  known st -> track deps before st = Done st' -> known st'.
Proof.
  intros Hst. unfold trackOpenNodes. destruct (skipTracking deps before st).
  { by intros [= <-]. }
  destruct (if negb (hasFilter st) then _ else _) as [nodes| |]; [|done|done].
  simpl. apply generate_known.
Qed.

(** X15.  Only nodes of the collection are ever rendered.  Whatever
    the collection is, a toggle or a tracking run that ends in a state
    whose rendered nodes all belong to the collection leaves such a
    state, and so does mounting; the uids that [persistState] writes are
    therefore uids of the collection. *)
Theorem rendered_nodes_stay_known (st : State) :
  known st ->
  (forall g st', perform fuel props g st = Done st' -> known st')
  /\ (forall deps before st', track deps before st = Done st' -> known st')
  /\ (forall id storage st', restore id (data storage) = Done st' -> known st').
Proof.
  intros Hst. split; [|split].
  - intros [node|node] st'; simpl.
    + unfold toggle. destruct (bool_decide (uid node ∈ openNodes st)).
      * destruct (getAllChildren cm fuel (uid node)) as [all| |]; [|done|done].
        simpl. intros [= <-]. apply augmentRenderNodes_known; [exact Hst|].
        intros c Hc. by apply elem_of_nil in Hc.
      * destruct (all_defined _) as [include|] eqn:Hall; [|done].
        intros [= <-]. apply augmentRenderNodes_known; [exact Hst|].
        intros c Hc. apply (all_defined_Some _ _ Hall) in Hc.
        apply list_elem_of_fmap in Hc as (u & Hu & _). symmetry in Hu.
        by apply childrenMap_lookup_Some in Hu as [? _].
    + unfold toggleFullTree.
      destruct (getAllChildren cm fuel (uid node)) as [all| |] eqn:Hall;
        [|done|done].
      simpl. intros [= <-]. apply augmentRenderNodes_known; [exact Hst|].
      destruct (bool_decide (uid node ∈ openNodes st)).
      { intros c Hc. by apply elem_of_nil in Hc. }
      intros c Hc%elem_of_tail.
      destruct (getAllChildren_loop_values _ _ _ _ _ Hall c Hc) as [H|[u Hu]].
      * by apply elem_of_nil in H.
      * by apply childrenMap_lookup_Some in Hu as [? _].
  - intros deps before st'. by apply track_stays_known.
  - intros id storage st'. unfold restorePersistedState.
    assert (forall deps, track deps None (data storage) = Done st' -> known st')
      as Htrack.
    { intros deps. apply track_stays_known. intros c Hc. by apply elem_of_nil in Hc. }
    assert ((deps ← nodeChangeDeps regex_search safeHighlightPattern props id
                      (data storage);
             track deps None (data storage)) = Done st' -> known st') as Hfresh.
    { destruct (nodeChangeDeps _ _ _ _ _) as [deps| |]; [|done|done].
      simpl. apply Htrack. }
    destruct (_ && _); [exact Hfresh|].
    destruct (_ || _); [exact Hfresh|].
    intros [= <-] c. simpl. intros Hc.
    apply list_elem_of_omap in Hc as (u & _ & Hu).
    by apply childrenMap_lookup_Some in Hu as [? _].
Qed.
End Known.

Lemma rendered_nodes_stay_known_witness :
  (forall g st',
     perform 3 Sample.props g Sample.mounted = Done st' ->
     forall c, c ∈ nodesToRender st' -> c ∈ children Sample.props)
  /\ (forall deps before st',
        trackOpenNodes Sample.no_match Sample.as_is 3 Sample.props deps before
          Sample.mounted = Done st' ->
        forall c, c ∈ nodesToRender st' -> c ∈ children Sample.props)
  /\ (forall id storage st',
        restorePersistedState Sample.no_match Sample.as_is 3 Sample.props id
          (data storage) = Done st' ->
        forall c, c ∈ nodesToRender st' -> c ∈ children Sample.props).
Proof.
  apply (rendered_nodes_stay_known Sample.no_match Sample.as_is 3 Sample.props
           Sample.mounted).
  intros c Hc. exact Hc.
Defined.

(** ** The text shown when nothing is rendered *)

Section Message.
Variable regex_search : string -> bool -> string -> nat -> option nat.
Variable safeHighlightPattern : string -> string.
Variables (forest : list NavigatorTree) (props : Props) (fuel : nat).
Hypothesis Hinv : flat_tree_invariants forest (children props).
Hypothesis Hfuel : (length (children props) <= fuel)%nat.

Local Abbreviation cm := (childrenMap (children props)).
Local Abbreviation filtered := (filteredChildren regex_search safeHighlightPattern props).
Local Abbreviation generate := (generateNodesToRender regex_search safeHighlightPattern).

(** The first node of a flattened forest is a top-level node. *)
Lemma first_child_top_level (c : NavigatorFlatItem) (rest : list NavigatorFlatItem) :
  children props = c :: rest -> parent c = INDEX_ROOT_KEY.
Proof.
  destruct Hinv as [Heq _]. rewrite Heq. destruct forest as [|t ts]; [done|].
  rewrite flattenForest_cons. intros [= <- _]. apply parent_item.
Qed.

(** X16.  After a recompute on a well-formed collection the card
    shows a text in place of the list exactly when nothing is to be
    rendered: with a filter active, No results matching your filter when
    no node is a direct match; without one, when the collection is empty,
    the error text if fetching failed and Technology has no children
    otherwise. *)
Theorem no_items_message_spec (errorFetching : bool) (st : State) :
  exists st',
    generate fuel props st = Done st'
    /\ noItemsMessage errorFetching st'
       = if hasFilter st then
           match filtered st with
           | [] => Some "No results matching your filter"
           | _ :: _ => None
           end
         else
           match children props with
           | [] => Some (if errorFetching then "There was an error fetching the data"
                         else "Technology has no children")
           | _ :: _ => None
           end.
Proof.
  assert (forall l, hasFilter (persistState props (set_nodesToRender l st))
                    = hasFilter st) as Hh by done.
  destruct (hasFilter st) eqn:Hf.
  - unfold generateNodesToRender.
    destruct (getParents_all forest props fuel Hinv Hfuel (filtered st))
      as (parents & Hp & _ & Hin & _).
    { intros m. apply filteredChildren_subset. }
    rewrite Hp. eexists. split; [reflexivity|].
    unfold noItemsMessage. cbn [persistState set_nodesToRender nodesToRender].
    rewrite Hh.
    destruct (filtered st) as [|m ms] eqn:Hms.
    + simpl in Hp. injection Hp as <-.
      rewrite filter_none; [done|]. intros c _.
      unfold shouldRender, has. rewrite Hf. simpl.
      rewrite andb_false_r, orb_false_r. simpl.
      destruct (parent c) as [|p]; [done|].
      destruct (cm !! p) as [obj|]; by rewrite andb_false_r.
    + assert (m ∈ List.filter
                (shouldRender cm true (openNodes st) (concat parents) (m :: ms))
                (children props)) as Hm.
      { apply elem_of_filter_bool. split.
        - apply (filteredChildren_subset regex_search safeHighlightPattern props st).
          rewrite Hms. by left.
        - unfold shouldRender, has. simpl.
          rewrite (bool_decide_eq_true_2 (m ∈ concat parents)).
          + apply orb_true_r.
          + apply Hin. by left. }
      rewrite Hf. destruct (List.filter _ (children props)); [|done].
      by apply elem_of_nil in Hm.
  - rewrite generateNodesToRender_unfiltered by done.
    eexists. split; [reflexivity|].
    unfold noItemsMessage. cbn [persistState set_nodesToRender nodesToRender].
    rewrite Hh.
    pose proof first_child_top_level as Htop.
    destruct (children props) as [|c rest]; [done|].
    simpl. unfold renderable at 1. by rewrite (Htop c rest eq_refl).
Qed.
End Message.

Lemma no_items_message_spec_witness :
  exists st',
    generateNodesToRender Sample.no_match Sample.as_is 3 Sample.props
      Sample.articlesSelected = Done st'
    /\ noItemsMessage false st'
       = if hasFilter Sample.articlesSelected then
           match filteredChildren Sample.no_match Sample.as_is Sample.props
                   Sample.articlesSelected with
           | [] => Some "No results matching your filter"
           | _ :: _ => None
           end
         else
           match children Sample.props with
           | [] => Some (if false then "There was an error fetching the data"
                         else "Technology has no children")
           | _ :: _ => None
           end.
Proof.
  exact (no_items_message_spec Sample.no_match Sample.as_is Sample.forest
           Sample.props 3 sample_invariants sample_fuel false
           Sample.articlesSelected).
Defined.

(** ** Where the card scrolls to after a restore *)

Lemma findIndex_spec {A : Type} (pred : A -> bool) (l : list A) :
  (findIndex pred l = -1 /\ forall y, y ∈ l -> pred y = false)
  \/ exists i y,
       findIndex pred l = Z.of_nat i /\ l !! i = Some y /\ pred y = true
       /\ forall j z, (j < i)%nat -> l !! j = Some z -> pred z = false.
Proof.
  induction l as [|x l IH]; simpl.
  - left. split; [done|]. intros y Hy. by apply elem_of_nil in Hy.
  - destruct (pred x) eqn:Hx.
    + right. exists 0%nat, x. split; [done|split; [done|split; [done|]]]. lia.
    + destruct IH as [[-> Hnone]|(i & y & -> & Hi & Hy & Hbefore)].
      * left. split; [done|]. intros y [->|Hy]%elem_of_cons; auto.
      * right. exists (S i), y.
        destruct (Z.ltb_spec (Z.of_nat i) 0) as [Hlt|_]; [lia|].
        split; [lia|split; [done|split; [done|]]].
        intros [|j] z Hj Hz; [by injection Hz as <-|].
        apply (Hbefore j z); [lia|done].
Qed.

Section Scroll.
Variable regex_search : string -> bool -> string -> nat -> option nat.
Variable safeHighlightPattern : string -> string.
Variables (forest : list NavigatorTree) (props : Props) (fuel : nat).
Hypothesis Hinv : flat_tree_invariants forest (children props).
Hypothesis Hfuel : (length (children props) <= fuel)%nat.

Local Abbreviation cm := (childrenMap (children props)).
Local Abbreviation restore :=
  (restorePersistedState regex_search safeHighlightPattern fuel props).
Local Abbreviation deps_of := (nodeChangeDeps regex_search safeHighlightPattern props).
Local Abbreviation track := (trackOpenNodes regex_search safeHighlightPattern fuel props).
Local Abbreviation resolved := (resolve cm (activePath props) (children props)).
Local Abbreviation restored storage :=
  {| filter_ := default "" (navigator_filter storage);
     debouncedFilter := default "" (navigator_filter storage);
     selectedTags := default [] (navigator_selectedTags storage);
     openNodes := list_to_set (default [] (navigator_openNodes storage));
     nodesToRender :=
       omap (fun u => cm !! u) (default [] (navigator_nodesToRender storage));
     sessionStorage := storage |}.

(** Every resolved node is renderable once the resolved path is open,
    when the path starts at a top-level node. *)
Lemma resolved_renderable (o : gset Z) (a : NavigatorFlatItem) :
  (forall h, head resolved = Some h -> parent h = INDEX_ROOT_KEY) ->
  a ∈ resolved ->
  renderable (o ∪ list_to_set (map uid resolved)) a = true.
Proof.
  intros Hhead Ha. unfold renderable.
  assert (linked resolved) as Hl.
  { apply (resolve_linked forest (children props) Hinv). intros c Hc. exact Hc. }
  destruct (linked_member _ a Hl Ha) as [Hh|(x & Hx & Hp)].
  - by rewrite (Hhead a Hh).
  - rewrite Hp. apply bool_decide_eq_true, elem_of_union. right.
    by apply elem_of_list_to_set, list_elem_of_fmap_2.
Qed.

(** The tracking run that follows a restore: skipped when a filter
    text or tags were restored, and otherwise a run on the same page
    without a filter. *)
Lemma restored_then_tracked_spec (id : nat) (storage : SessionStorage) :
  snapshot_usable props storage = true ->
  (default "" (navigator_filter storage) <> ""
   \/ default [] (navigator_selectedTags storage) <> [] ->
   restored_then_tracked regex_search safeHighlightPattern fuel props id storage
   = Done (restored storage))
  /\ (default "" (navigator_filter storage) = "" ->
      default [] (navigator_selectedTags storage) = [] ->
      restored_then_tracked regex_search safeHighlightPattern fuel props id storage
      = Done (persistState props
                (set_nodesToRender
                   (List.filter
                      (renderable (list_to_set (map uid resolved)))
                      (children props))
                   (set_openNodes (list_to_set (map uid resolved))
                      (restored storage))))).
Proof.
  intros Hu. unfold restored_then_tracked.
  rewrite (restore_usable regex_search safeHighlightPattern fuel props id storage Hu).
  destruct (nodeChangeDeps_Done regex_search safeHighlightPattern forest props
              Hinv id (data storage)) as (b & -> & _ & _ & Hidb & Hfb & Htb).
  destruct (nodeChangeDeps_Done regex_search safeHighlightPattern forest props
              Hinv id (restored storage))
    as (deps & Hd & Hapc & _ & Hid & Hfd & Htd).
  cbn [mbind outcome_bind]. rewrite Hd. cbn [mbind outcome_bind].
  split.
  - intros Hsome.
    assert (skipTracking deps (Some b) (restored storage) = true) as Hskip.
    { unfold skipTracking. simpl. rewrite Hfb, Hfd, Htb, Htd. simpl.
      apply orb_true_iff. destruct Hsome as [Hf|Ht].
      - left. destruct (default "" (navigator_filter storage)) as [|c s]; [done|].
        by rewrite bool_decide_eq_false_2 by discriminate.
      - right.
        destruct (default [] (navigator_selectedTags storage)) as [|tag tags];
          [done|].
        by rewrite join_nonempty. }
    unfold trackOpenNodes. by rewrite Hskip.
  - intros Hf Ht.
    assert (skipTracking deps (Some b) (restored storage) = false) as Hskip.
    { unfold skipTracking. simpl. rewrite Hfb, Hfd, Htb, Htd. simpl.
      rewrite Hf, Ht. done. }
    assert (hasFilter (restored storage) = false) as Hno.
    { unfold hasFilter. simpl. by rewrite Hf, Ht. }
    unfold trackOpenNodes. rewrite Hskip, Hno. simpl.
    unfold pageChange. rewrite Hidb, Hid, Nat.eqb_refl. simpl.
    rewrite generateNodesToRender_unfiltered by done.
    simpl. rewrite Hapc, (left_id_L ∅ (∪)). done.
Qed.

(** X17.  One frame after a snapshot has been taken over on mount of
    a well-formed collection, when [scrollToElement] reads the state: if a
    filter text or tags were restored, the restored state stands and the
    card scrolls to the top (index 0).  Otherwise the tracker has run in
    between: the restored open nodes have given way to the resolved active
    path and the list has been recomputed; the card does not scroll (index
    [-1]) when no active page is resolved, and it scrolls to the position
    of the active item when the resolved path starts at a top-level
    node. *)
Theorem scroll_after_restore (id : nat) (storage : SessionStorage) :
  snapshot_usable props storage = true ->
  exists st index,
    restored_then_tracked regex_search safeHighlightPattern fuel props id storage
    = Done st
    /\ scrollToElement regex_search safeHighlightPattern fuel props id storage
       = Done index
    /\ (default "" (navigator_filter storage) <> ""
        \/ default [] (navigator_selectedTags storage) <> [] ->
        restore id (data storage) = Done st
        /\ hasFilter st = true
        /\ index = 0)
    /\ (default "" (navigator_filter storage) = "" ->
        default [] (navigator_selectedTags storage) = [] ->
        hasFilter st = false
        /\ openNodes st = list_to_set (map uid resolved)
        /\ nodesToRender st
           = List.filter (renderable (openNodes st)) (children props)
        /\ (resolved = [] -> index = -1)
        /\ ((forall h, head resolved = Some h -> parent h = INDEX_ROOT_KEY) ->
            forall n, last resolved = Some n ->
                      exists i, index = Z.of_nat i
                                /\ nodesToRender st !! i = Some n)).
Proof.
  intros Hu.
  destruct (restored_then_tracked_spec id storage Hu) as [Hkept Hrun].
  pose proof (activePathChildren_Done_resolve (children props) (activePath props)
                (flat_tree_childUIDs_resolve forest _ Hinv)) as Hapc.
  unfold scrollToElement.
  destruct (decide (default "" (navigator_filter storage) = "")) as [Hf|Hf];
    [destruct (decide (default [] (navigator_selectedTags storage) = []))
       as [Ht|Ht]|].
  - rewrite (Hrun Hf Ht), Hapc. eexists _, _.
    split; [reflexivity|split; [reflexivity|]].
    split; [intros [H|H]; done|]. intros _ _.
    assert (hasFilter
              (persistState props
                 (set_nodesToRender
                    (List.filter (renderable (list_to_set (map uid resolved)))
                       (children props))
                    (set_openNodes (list_to_set (map uid resolved))
                       (restored storage)))) = false) as Hno.
    { unfold hasFilter. simpl. by rewrite Hf, Ht. }
    split; [exact Hno|]. split; [reflexivity|]. split; [reflexivity|].
    unfold scrollToElement_index. rewrite Hno.
    cbn [persistState set_nodesToRender nodesToRender].
    split.
    + intros ->. apply findIndex_none. intros y _. done.
    + intros Hhead n Hn. pose proof Hinv as [_ Hnd].
      assert (n ∈ resolved) as Hin.
      { apply last_Some in Hn as [l' ->]. apply elem_of_app. right. by left. }
      assert (forall y, y ∈ List.filter
                              (renderable (list_to_set (map uid resolved)))
                              (children props) -> y ∈ children props) as Hsub.
      { intros y. by intros [? _]%elem_of_filter_bool. }
      unfold activeUID. rewrite Hn. simpl.
      destruct (findIndex_spec
                  (fun child => bool_decide (Some (uid child) = Some (uid n)))
                  (List.filter (renderable (list_to_set (map uid resolved)))
                     (children props)))
        as [[_ Hnone]|(i & y & Hidx & Hi & Hy & _)].
      * exfalso. specialize (Hnone n). rewrite bool_decide_eq_true_2 in Hnone by done.
        enough (false = true) by done. symmetry. rewrite <- Hnone; [done|].
        apply elem_of_filter_bool. split; [by apply resolve_subset in Hin|].
        rewrite <- (left_id_L ∅ (∪) (list_to_set (map uid resolved))).
        by apply resolved_renderable.
      * exists i. split; [done|]. rewrite Hi. f_equal.
        apply bool_decide_eq_true in Hy. injection Hy as Hy.
        apply (uid_inj_NoDup (children props)); [done| | |done].
        -- apply Hsub. by apply (list_elem_of_lookup_2 _ i).
        -- by apply resolve_subset in Hin.
  - rewrite (Hkept (or_intror Ht)), Hapc. eexists _, _.
    split; [reflexivity|split; [reflexivity|]].
    assert (hasFilter (restored storage) = true) as Hyes.
    { unfold hasFilter. simpl.
      destruct (default [] (navigator_selectedTags storage)); [done|].
      apply orb_true_r. }
    split; [|intros _ H; done]. intros _.
    split; [by apply restore_usable|]. split; [done|].
    unfold scrollToElement_index. by rewrite Hyes.
  - rewrite (Hkept (or_introl Hf)), Hapc. eexists _, _.
    split; [reflexivity|split; [reflexivity|]].
    assert (hasFilter (restored storage) = true) as Hyes.
    { unfold hasFilter. simpl.
      by destruct (default "" (navigator_filter storage)). }
    split; [|intros H; done]. intros _.
    split; [by apply restore_usable|]. split; [done|].
    unfold scrollToElement_index. by rewrite Hyes.
Qed.
End Scroll.

Lemma scroll_after_restore_witness :
  exists st index,
    restored_then_tracked Sample.no_match Sample.as_is 3 Sample.props 0
      Sample.snapshot = Done st
    /\ scrollToElement Sample.no_match Sample.as_is 3 Sample.props 0 Sample.snapshot
       = Done index
    /\ (default "" (navigator_filter Sample.snapshot) <> ""
        \/ default [] (navigator_selectedTags Sample.snapshot) <> [] ->
        restorePersistedState Sample.no_match Sample.as_is 3 Sample.props 0
          (data Sample.snapshot) = Done st
        /\ hasFilter st = true
        /\ index = 0)
    /\ (default "" (navigator_filter Sample.snapshot) = "" ->
        default [] (navigator_selectedTags Sample.snapshot) = [] ->
        hasFilter st = false
        /\ openNodes st
           = list_to_set
               (map uid (resolve (childrenMap (children Sample.props))
                           (activePath Sample.props) (children Sample.props)))
        /\ nodesToRender st
           = List.filter (renderable (openNodes st)) (children Sample.props)
        /\ (resolve (childrenMap (children Sample.props))
              (activePath Sample.props) (children Sample.props) = [] ->
            index = -1)
        /\ ((forall h,
               head (resolve (childrenMap (children Sample.props))
                       (activePath Sample.props) (children Sample.props)) = Some h ->
               parent h = INDEX_ROOT_KEY) ->
            forall n,
              last (resolve (childrenMap (children Sample.props))
                      (activePath Sample.props) (children Sample.props)) = Some n ->
              exists i, index = Z.of_nat i /\ nodesToRender st !! i = Some n)).
Proof.
  apply (scroll_after_restore Sample.no_match Sample.as_is Sample.forest
           Sample.props 3 sample_invariants 0 Sample.snapshot).
  vm_compute. reflexivity.
Defined.

(** On the sample tree a snapshot without filter in which only [B] is
    open is taken over; a frame later [C], the active item, is open as
    well and the card scrolls to its position, the third. *)
Lemma scroll_after_restore_sample :
  scrollToElement Sample.no_match Sample.as_is 3 Sample.props 0 Sample.snapshot
  = Done 2.
Proof. vm_compute. reflexivity. Qed.

(** ** The store when uids repeat, and what expanding adds *)

(** X18.  The flat node store files every node under its uid, and
    where several nodes of the collection share a uid the last of them
    is the one found; a uid that no node carries is no key. *)
Theorem childrenMap_last_wins (children : list NavigatorFlatItem) (u : Z) :
  match childrenMap children !! u with
  | None => forall n, n ∈ children -> uid n <> u
  | Some n =>
      uid n = u
      /\ exists l1 l2, children = l1 ++ n :: l2 /\ forall m, m ∈ l2 -> uid m <> u
  end.
Proof.
  induction children as [|c l IH] using rev_ind.
  - rewrite childrenMap_nil, lookup_empty. intros n Hn. by apply elem_of_nil in Hn.
  - rewrite childrenMap_snoc. destruct (decide (uid c = u)) as [<-|Hne].
    + rewrite lookup_insert_eq. split; [done|]. exists l, []. split; [done|].
      intros m Hm. by apply elem_of_nil in Hm.
    + rewrite lookup_insert_ne by done.
      destruct (childrenMap l !! u) as [n|].
      * destruct IH as (Hu & l1 & l2 & -> & Hl2). split; [done|].
        exists l1, (l2 ++ [c]). split; [by rewrite <- app_assoc|].
        intros m [Hm|Hm]%elem_of_app; [by apply Hl2|].
        by apply list_elem_of_singleton in Hm as ->.
      * intros n [Hn|Hn]%elem_of_app; [by apply IH|].
        by apply list_elem_of_singleton in Hn as ->.
Qed.

Lemma length_splice {A : Type} (start : Z) (items l : list A) :
  length (splice start items l) = (length l + length items)%nat.
Proof.
  unfold splice. rewrite !length_app, length_take, length_drop. lia.
Qed.

(** X19.  The hidden label of the toggle button announces
    [item.childUIDs.length] symbols to be expanded.  On a well-formed
    collection that is what [toggle] does with a closed node, with or
    without a filter: the rendered list grows by exactly that many
    items, and it stays as it is for an item that is no parent. *)
Theorem expanding_adds_the_listed_children (forest : list NavigatorTree)
        (props : Props) (fuel : nat) (node : NavigatorFlatItem) (st : State) :
  flat_tree_invariants forest (children props) ->
  node ∈ children props ->
  uid node ∉ openNodes st ->
  exists st',
    toggle fuel props node st = Done st'
    /\ length (nodesToRender st')
       = (length (nodesToRender st) + length (childUIDs node))%nat
    /\ (isParent node = false -> nodesToRender st' = nodesToRender st).
Proof.
  intros Hinv Hnode Hopen. pose proof Hinv as [Heq _].
  pose proof Hnode as Hnode'. rewrite Heq in Hnode'.
  destruct (flattenForest_split _ _ _ Hnode') as (par & t & l1 & l2 & Hsplit & ->).
  rewrite <- Heq in Hsplit.
  destruct (open_any forest props fuel l1 l2 par t Hinv Hsplit st Hopen)
    as (st' & Ht & _ & _ & Hn).
  exists st'. split; [done|]. rewrite Hn, childUIDs_item. unfold isParent.
  rewrite childUIDs_item, !length_map.
  destruct (subforest t) as [|k ks]; simpl.
  - split; [lia|done].
  - split; [|done]. rewrite length_splice. simpl. rewrite length_map. lia.
Qed.

Lemma expanding_adds_the_listed_children_witness :
  exists st',
    toggle 3 Sample.props Sample.B Folded.state = Done st'
    /\ length (nodesToRender st')
       = (length (nodesToRender Folded.state) + length (childUIDs Sample.B))%nat
    /\ (isParent Sample.B = false -> nodesToRender st' = nodesToRender Folded.state).
Proof.
  apply (expanding_adds_the_listed_children Sample.forest Sample.props 3 Sample.B
           Folded.state).
  - exact sample_invariants.
  - apply (bool_decide_unpack _). vm_compute. exact I.
  - apply (bool_decide_unpack _). vm_compute. exact I.
Defined.

(** ** Opening a whole subtree and closing it again *)

Section FullRound.
Variable regex_search : string -> bool -> string -> nat -> option nat.
Variable safeHighlightPattern : string -> string.
Variables (forest : list NavigatorTree) (props : Props) (fuel : nat).
Hypothesis Hinv : flat_tree_invariants forest (children props).
Hypothesis Hfuel : (length (children props) <= fuel)%nat.

Local Abbreviation synced := (in_sync regex_search safeHighlightPattern fuel props).

(** X20.  In an unfiltered state in sync, opening the whole subtree
    of a rendered closed node and then closing the node, by either
    gesture, restores the open nodes and the rendered list. *)
Theorem open_fully_then_close_restores (st : State) (node : NavigatorFlatItem) :
  synced st -> node ∈ nodesToRender st -> uid node ∉ openNodes st ->
  exists s1 s2 s2',
    toggleFullTree fuel props node st = Done s1
    /\ toggle fuel props node s1 = Done s2
    /\ toggleFullTree fuel props node s1 = Done s2'
    /\ openNodes s2 = openNodes st /\ nodesToRender s2 = nodesToRender st
    /\ openNodes s2' = openNodes st /\ nodesToRender s2' = nodesToRender st.
Proof.
  intros Hs Hin Hclosed. apply in_sync_unfold in Hs as (Hf & Hac & Hnodes).
  destruct (rendered_split forest props Hinv st _ Hnodes Hin)
    as (Hr & par & t & l1 & l2 & Hsplit & ->).
  pose proof (closed_subtree (children props) l1 l2 par t Hsplit (openNodes st)
                Hac Hclosed) as Hsub.
  destruct (toggleFullTree_at forest props fuel l1 l2 par t Hinv Hfuel Hsplit st)
    as (s1 & Ht1 & Hf1 & Ho1 & Hac1 & Hn1); [done|done|].
  rewrite (bool_decide_eq_false_2 _ Hclosed) in Ho1, Hac1, Hn1.
  assert (uid (item par t) ∈ openNodes s1) as Hopen1.
  { rewrite Ho1. apply elem_of_union. right. apply (subtree_uids par t).
    exists (item par t). split; [by left|done]. }
  assert (renderable (openNodes s1) (item par t) = true) as Hr1.
  { rewrite Ho1. apply (renderable_mono (openNodes st)); [apply union_subseteq_l|done]. }
  assert (hasFilter s1 = false
          /\ openNodes s1 = openNodes s1
          /\ ancestor_closed (children props) (openNodes s1) = true
          /\ nodesToRender s1
             = List.filter (renderable (openNodes s1)) (children props)) as Htidy.
  { split; [done|split; [done|split; by rewrite Ho1]]. }
  destruct (toggle_at forest props fuel l1 l2 par t Hinv Hfuel Hsplit s1 Htidy Hr1)
    as (s2 & Ht2 & Hf2 & Ho2 & Hac2 & Hn2).
  destruct (toggleFullTree_at forest props fuel l1 l2 par t Hinv Hfuel Hsplit s1
              Htidy Hr1) as (s2' & Ht2' & Hf2' & Ho2' & Hac2' & Hn2').
  rewrite (bool_decide_eq_true_2 _ Hopen1) in Ho2, Hn2, Ho2', Hn2'.
  assert (openNodes s1
            ∖ list_to_set
                (map uid (item par t
                            :: flattenForest (ParentUID (root_uid t)) (subforest t)))
          = openNodes st) as Heq.
  { rewrite Ho1. apply set_eq. intros x.
    rewrite elem_of_difference, elem_of_union. split.
    - intros [[Ho|Hx] Hnx]; done.
    - intros Ho. split; [by left|].
      intros (m & Hm & <-)%subtree_uids.
      apply elem_of_cons in Hm as [->|Hm]; [done|]. by destruct (Hsub m Hm). }
  exists s1, s2, s2'. split; [done|split; [done|split; [done|]]].
  rewrite Heq in Ho2, Hn2, Ho2', Hn2'.
  split; [done|]. split; [by rewrite Hn2, <- Hnodes|].
  split; [done|]. by rewrite Hn2', <- Hnodes.
Qed.
End FullRound.

Lemma open_fully_then_close_restores_witness :
  exists s1 s2 s2',
    toggleFullTree 3 Sample.props Sample.B Folded.state = Done s1
    /\ toggle 3 Sample.props Sample.B s1 = Done s2
    /\ toggleFullTree 3 Sample.props Sample.B s1 = Done s2'
    /\ openNodes s2 = openNodes Folded.state
    /\ nodesToRender s2 = nodesToRender Folded.state
    /\ openNodes s2' = openNodes Folded.state
    /\ nodesToRender s2' = nodesToRender Folded.state.
Proof.
  apply (open_fully_then_close_restores Sample.no_match Sample.as_is Sample.forest
           Sample.props 3 sample_invariants sample_fuel Folded.state Sample.B).
  - apply in_sync_unfold. vm_compute. auto.
  - apply (bool_decide_unpack _). vm_compute. exact I.
  - apply (bool_decide_unpack _). vm_compute. exact I.
Defined.

(** ** A parent with the uid 0 *)

(** X21.  [getParents] does not climb to a parent whose uid is [0].
    For a node of a collection with unique uids whose parent uid is the
    falsy number [0], the walk returns the node alone, although the node
    filed under [0], when there is one, is on its parent chain. *)
Theorem falsy_parent_stops_getParents (children : list NavigatorFlatItem)
        (m : NavigatorFlatItem) (fuel : nat) :
  NoDup (map uid children) ->
  m ∈ children ->
  parent m = ParentUID 0 ->
  getParents (childrenMap children) (S fuel) (uid m) = Done [m]
  /\ forall z, childrenMap children !! 0 = Some z ->
               ancestor_or_self (childrenMap children) z m.
Proof.
  intros Hnd Hm Hp. split.
  - unfold getParents.
    rewrite getParents_loop_item by by apply childrenMap_lookup_NoDup.
    unfold getParents_above. by rewrite Hp.
  - intros z Hz. apply (aos_parent _ z m 0 z); [done|done|constructor].
Qed.

Lemma falsy_parent_stops_getParents_witness :
  getParents (childrenMap (children Zero.props)) 2 (uid Zero.K) = Done [Zero.K]
  /\ forall z, childrenMap (children Zero.props) !! 0 = Some z ->
               ancestor_or_self (childrenMap (children Zero.props)) z Zero.K.
Proof.
  apply (falsy_parent_stops_getParents (children Zero.props) Zero.K 1).
  - apply (bool_decide_unpack _). vm_compute. exact I.
  - apply (bool_decide_unpack _). vm_compute. exact I.
  - reflexivity.
Defined.
